(** * The Great Heist: level generator and simulation engine

    A shallow embedding of the two revisions of [components/Game.tsx]
    (and of [types.ts]) together with the properties of the per-tick
    transition and of the procedural level generator.

    Numbers.  JavaScript numbers are modelled by exact rationals [Q]
    where the program computes with coordinates, speeds and seconds, and
    by [Z] where it only ever holds integers (floor index, score, bill
    value).  The numbers a tick stores back into the state (the timer, a
    guard's position) are kept in lowest terms ([Qred]), which does not
    change their value.  [Math.random], [Math.sqrt], [Math.atan2],
    [Math.cos] and [Math.sin] are not code of the program: the random draws
    are read from an explicit source, the other four are taken as an
    interface ([JSMath]). *)

From Stdlib Require Import QArith Qabs Qminmax Qround ZArith List Bool.
From Stdlib Require Import String Ascii DecimalString Lia Lqa.
From Stdlib Require DecimalPos DecimalN.
Import ListNotations.

Local Open Scope Q_scope.

(** ** Comparisons and helpers on numbers *)

Definition Qltb (a b : Q) : bool := negb (Qle_bool b a).
Definition Qgtb (a b : Q) : bool := Qltb b a.
Definition Qleb (a b : Q) : bool := Qle_bool a b.

(** [Math.max] / [Math.min] on two numbers. *)
Definition Math_max (a b : Q) : Q := if Qle_bool a b then b else a.
Definition Math_min (a b : Q) : Q := if Qle_bool a b then a else b.

(** [n.toString()] and template interpolation of a non-negative integer. *)
Definition toString (n : Z) : string :=
  NilZero.string_of_uint (N.to_uint (Z.to_N n)).

(** ** types.ts *)

Module Point.
Record t : Type := mk { x : Q; y : Q }.
End Point.

Module Wall.
Record t : Type := mk { x : Q; y : Q; w : Q; h : Q }.
End Wall.

Module Money.
Record t : Type := mk {
  id : string;
  pos : Point.t;
  value : Z;
  collected : bool
}.
(** [{ ...m, collected: true }] *)
Definition collect (m : t) : t := mk (id m) (pos m) (value m) true.
End Money.

Module Guard.
Record t : Type := mk {
  id : string;
  pos : Point.t;
  path : list Point.t;
  currentPathIndex : nat;
  speed : Q
}.
End Guard.

Record GameState : Type := mkGameState {
  playerPos : Point.t;
  currentFloor : Z;
  score : Z;
  money : list Money.t;
  walls : list Wall.t;
  guards : list Guard.t;
  password : string;
  foundPassword : bool;
  doorPos : Point.t;
  isPaused : bool;
  isGameOver : bool;
  showTerminal : bool;
  lastPasswordFound : string;
  timeLeft : Q
}.

Inductive Direction : Type := UP | DOWN | LEFT | RIGHT | NONE.

Definition Direction_eqb (a b : Direction) : bool :=
  match a, b with
  | UP, UP | DOWN, DOWN | LEFT, LEFT | RIGHT, RIGHT | NONE, NONE => true
  | _, _ => false
  end.

(** Spread-and-override updates [{ ...s, field: v }] used by the engine. *)
Definition set_isGameOver (b : bool) (s : GameState) : GameState :=
  mkGameState (playerPos s) (currentFloor s) (score s) (money s) (walls s)
    (guards s) (password s) (foundPassword s) (doorPos s) (isPaused s)
    b (showTerminal s) (lastPasswordFound s) (timeLeft s).

Definition set_isPaused (b : bool) (s : GameState) : GameState :=
  mkGameState (playerPos s) (currentFloor s) (score s) (money s) (walls s)
    (guards s) (password s) (foundPassword s) (doorPos s) b
    (isGameOver s) (showTerminal s) (lastPasswordFound s) (timeLeft s).

Definition set_showTerminal (b : bool) (s : GameState) : GameState :=
  mkGameState (playerPos s) (currentFloor s) (score s) (money s) (walls s)
    (guards s) (password s) (foundPassword s) (doorPos s) (isPaused s)
    (isGameOver s) b (lastPasswordFound s) (timeLeft s).

Definition set_playerPos (p : Point.t) (s : GameState) : GameState :=
  mkGameState p (currentFloor s) (score s) (money s) (walls s)
    (guards s) (password s) (foundPassword s) (doorPos s) (isPaused s)
    (isGameOver s) (showTerminal s) (lastPasswordFound s) (timeLeft s).

Definition set_foundPassword (b : bool) (s : GameState) : GameState :=
  mkGameState (playerPos s) (currentFloor s) (score s) (money s) (walls s)
    (guards s) (password s) b (doorPos s) (isPaused s)
    (isGameOver s) (showTerminal s) (lastPasswordFound s) (timeLeft s).

(** The floor is live when the tick is allowed to advance it. *)
Definition live (s : GameState) : bool :=
  negb (isPaused s || isGameOver s || showTerminal s).

(** ** The library functions the program calls

    [Math.atan2] returns an angle; angles are kept abstract so that an
    implementation may represent them exactly. *)
Record JSMath : Type := mkJSMath {
  angle_t : Type;
  Math_sqrt : Q -> Q;
  Math_atan2 : Q -> Q -> angle_t;
  Math_cos : angle_t -> Q;
  Math_sin : angle_t -> Q
}.

(** ** Random draws

    Every call of [Math.random()] reads the next element of an explicit
    source [rng] at a cursor.  A computation can run out of fuel (only the
    unbounded [while] loop of [generateMoney] needs fuel) or throw. *)
Inductive Res (A : Type) : Type :=
| Ok (a : A)
| OutOfFuel
| Thrown.
Arguments Ok {A} a.
Arguments OutOfFuel {A}.
Arguments Thrown {A}.

Definition Rand (A : Type) : Type := (nat -> Q) -> nat -> Res (A * nat).

Definition ret {A} (a : A) : Rand A := fun _ k => Ok (a, k).
Definition bind {A B} (c : Rand A) (f : A -> Rand B) : Rand B :=
  fun rng k => match c rng k with
               | Ok (a, k') => f a rng k'
               | OutOfFuel => OutOfFuel
               | Thrown => Thrown
               end.
Definition Math_random : Rand Q := fun rng k => Ok (rng k, S k).
Definition out_of_fuel {A} : Rand A := fun _ _ => OutOfFuel.
(** An uncaught [TypeError] (reading a property of [undefined]). *)
Definition throw {A} : Rand A := fun _ _ => Thrown.

Notation "x <- c ;; k" := (bind c (fun x => k))
  (at level 61, c at next level, right associativity).

(** A [for (let i = 0; i < n; i++)] loop that pushes one element per round. *)
Fixpoint for_push {A} (body : nat -> Rand A) (i n : nat) : Rand (list A) :=
  match n with
  | O => ret []
  | S n' => a <- body i ;; rest <- for_push body (S i) n' ;; ret (a :: rest)
  end.

(** ** Parts of the generator common to both revisions *)

Definition CANVAS_WIDTH : Z := 600.
Definition CANVAS_HEIGHT : Z := 400.
Definition INITIAL_TIME_PER_FLOOR : Q := 60.

Definition boundaries : list Wall.t :=
  [ Wall.mk 0 0 (inject_Z CANVAS_WIDTH) 10;
    Wall.mk 0 (inject_Z (CANVAS_HEIGHT - 10)) (inject_Z CANVAS_WIDTH) 10;
    Wall.mk 0 0 10 (inject_Z CANVAS_HEIGHT);
    Wall.mk (inject_Z (CANVAS_WIDTH - 10)) 0 10 (inject_Z CANVAS_HEIGHT) ].

(** The body of the obstacle loop; [off] is the size offset, the only
    thing in which the two revisions of [generateWalls] differ.  [%] is
    JavaScript's remainder, [Z.rem]. *)
Definition obstacle (off : Z) (floor : Z) (i : Z) : Wall.t :=
  let seed := (floor * 12345)%Z in
  let x := (50 + Z.rem (seed + i * 150) (CANVAS_WIDTH - 150))%Z in
  let y := (50 + Z.rem (seed + i * 100) (CANVAS_HEIGHT - 150))%Z in
  let w := (off + Z.rem (seed * (i + 1)) 100)%Z in
  let h := (off + Z.rem (seed * (i + 2)) 100)%Z in
  Wall.mk (inject_Z x) (inject_Z y) (inject_Z w) (inject_Z h).

Definition numObstacles (floor : Z) : Z := Z.min (3 + floor) 8.

Definition generateWalls_with (off : Z) (floor : Z) : list Wall.t :=
  boundaries ++
  map (fun i => obstacle off floor (Z.of_nat i))
      (seq 0 (Z.to_nat (numObstacles floor))).

(** [generatePassword]: [Math.floor(1000 + Math.random() * 9000).toString()] *)
Definition generatePassword : Rand string :=
  r <- Math_random ;; ret (toString (Qfloor (1000 + r * 9000))).

(** [generateGuards]; [cap] is the maximal number of guards (4 in the
    first revision, 5 in the second).  The [walls] argument is unused by
    the source as well. *)
Definition generateGuards_with (cap : Z) (floor : Z) (walls : list Wall.t)
  : Rand (list Guard.t) :=
  let numGuards := Z.min (1 + floor / 2) cap in
  for_push (fun i =>
      r1 <- Math_random ;; r2 <- Math_random ;; r3 <- Math_random ;;
      let startX := 200 + r1 * inject_Z (CANVAS_WIDTH - 300) in
      let startY := 100 + r2 * inject_Z (CANVAS_HEIGHT - 200) in
      let pathWidth := 100 + r3 * 100 in
      ret (Guard.mk ("guard-" ++ toString (Z.of_nat i))
             (Point.mk startX startY)
             [Point.mk startX startY; Point.mk (startX + pathWidth) startY]
             0
             (1.5 + inject_Z floor * 0.2)))
    0%nat (Z.to_nat numGuards).

(** [generateMoney]; [margin] is 15 in the first revision and 20 in the
    second.  [inMargin] is the predicate given to [walls.some]. *)
Definition inMargin (margin : Q) (pos : Point.t) (w : Wall.t) : bool :=
  Qgtb (Point.x pos) (Wall.x w - margin) &&
  Qltb (Point.x pos) (Wall.x w + Wall.w w + margin) &&
  Qgtb (Point.y pos) (Wall.y w - margin) &&
  Qltb (Point.y pos) (Wall.y w + Wall.h w + margin).

Definition validPos (margin : Q) (walls : list Wall.t) (pos : Point.t) : bool :=
  negb (existsb (inMargin margin pos) walls).

Definition drawPos : Rand Point.t :=
  rx <- Math_random ;; ry <- Math_random ;;
  ret (Point.mk (40 + rx * inject_Z (CANVAS_WIDTH - 80))
                (40 + ry * inject_Z (CANVAS_HEIGHT - 80))).

(** The [while (!valid)] loop, with at most [fuel] rounds. *)
Fixpoint samplePos (margin : Q) (walls : list Wall.t) (fuel : nat)
  : Rand Point.t :=
  match fuel with
  | O => out_of_fuel
  | S fuel' =>
      pos <- drawPos ;;
      if validPos margin walls pos then ret pos
      else samplePos margin walls fuel'
  end.

(** The body of the [for] loop: one bill, once a position is accepted. *)
Definition bill (margin : Q) (walls : list Wall.t) (fuel : nat) (floor : Z)
    (i : nat) : Rand Money.t :=
  pos <- samplePos margin walls fuel ;;
  ret (Money.mk ("money-" ++ toString (Z.of_nat i)) pos (100 * floor)%Z false).

Definition generateMoney_with (margin : Q) (fuel : nat)
    (floor : Z) (walls : list Wall.t) : Rand (list Money.t) :=
  let numBills := (5 + floor * 2)%Z in
  for_push (bill margin walls fuel floor) 0%nat (Z.to_nat numBills).

(** Rectangular proximity test [Math.abs(a.x - cx) < tol && Math.abs(a.y - cy) < tol]. *)
Definition near (tol : Q) (a : Point.t) (cx cy : Q) : bool :=
  Qltb (Qabs (Point.x a - cx)) tol && Qltb (Qabs (Point.y a - cy)) tol.

(** [guards.map(...)] where the callback may throw. *)
Fixpoint map_throw {A B} (f : A -> option B) (l : list A) : option (list B) :=
  match l with
  | [] => Some []
  | a :: l' =>
      match f a with
      | None => None
      | Some b => match map_throw f l' with
                  | None => None
                  | Some bs => Some (b :: bs)
                  end
      end
  end.

(** * First revision of Game.tsx: key map input, elapsed-time timer *)
Module GameA.

Definition PLAYER_SIZE : Q := 30.
Definition SPEED : Q := 5.

Definition generateWalls (floor : Z) : list Wall.t := generateWalls_with 20 floor.
Definition generateGuards := generateGuards_with 4.
Definition generateMoney := generateMoney_with 15.

(** The state given to [useState] before the mount effect runs. *)
Definition initialState : GameState :=
  mkGameState (Point.mk 50 50) 1 0 [] [] [] "" false
    (Point.mk (inject_Z (CANVAS_WIDTH - 50)) (inject_Z (CANVAS_HEIGHT - 50)))
    false false false "" INITIAL_TIME_PER_FLOOR.

(** [initFloor(floor, prevScore)].  Its [setGameState] spreads the
    previous state and then overrides every one of its fields, so the
    new state does not depend on the previous one. *)
Definition initFloor (fuel : nat) (floor : Z) (prevScore : Z) : Rand GameState :=
  let walls := generateWalls floor in
  money <- generateMoney fuel floor walls ;;
  guards <- generateGuards floor walls ;;
  password <- generatePassword ;;
  let doorPos := Point.mk (inject_Z (CANVAS_WIDTH - 50)) (inject_Z (CANVAS_HEIGHT - 50)) in
  ret (mkGameState (Point.mk 50 50) floor prevScore money walls guards
         password false doorPos false false false "" INITIAL_TIME_PER_FLOOR).

Definition resetGame (fuel : nat) : Rand GameState := initFloor fuel 1 0.

Definition nextFloor (fuel : nat) (gameState : GameState) : Rand GameState :=
  initFloor fuel (currentFloor gameState + 1) (score gameState).

(** The [movement] object: key code to pressed flag; an absent key reads
    [undefined], which is falsy. *)
Definition Movement : Type := string -> bool.

Definition noMovement : Movement := fun _ => false.
Definition press (code : string) (m : Movement) : Movement :=
  fun c => if String.eqb c code then true else m c.

Definition intentDx (movement : Movement) : Q :=
  let dx := 0 in
  let dx := if movement "ArrowLeft"%string || movement "KeyA"%string then dx - SPEED else dx in
  let dx := if movement "ArrowRight"%string || movement "KeyD"%string then dx + SPEED else dx in
  dx.

Definition intentDy (movement : Movement) : Q :=
  let dy := 0 in
  let dy := if movement "ArrowUp"%string || movement "KeyW"%string then dy - SPEED else dy in
  let dy := if movement "ArrowDown"%string || movement "KeyS"%string then dy + SPEED else dy in
  dy.

Definition overlaps (nx ny : Q) (w : Wall.t) : bool :=
  Qgtb (nx + PLAYER_SIZE) (Wall.x w) &&
  Qltb nx (Wall.x w + Wall.w w) &&
  Qgtb (ny + PLAYER_SIZE) (Wall.y w) &&
  Qltb ny (Wall.y w + Wall.h w).

Definition collides (walls : list Wall.t) (nx ny : Q) : bool :=
  existsb (overlaps nx ny) walls.

(** The three collision tests of [update], before the clamp. *)
Definition resolve (walls : list Wall.t) (p : Point.t) (dx dy : Q) : Point.t :=
  let newX := Point.x p + dx in
  let newY := Point.y p + dy in
  let newX := if collides walls newX (Point.y p) then Point.x p else newX in
  let newY := if collides walls (Point.x p) newY then Point.y p else newY in
  if collides walls newX newY then Point.mk (Point.x p) (Point.y p)
  else Point.mk newX newY.

Definition clamp (p : Point.t) : Point.t :=
  Point.mk
    (Math_max 10 (Math_min (inject_Z CANVAS_WIDTH - PLAYER_SIZE - 10) (Point.x p)))
    (Math_max 10 (Math_min (inject_Z CANVAS_HEIGHT - PLAYER_SIZE - 10) (Point.y p))).

Definition movePlayer (walls : list Wall.t) (p : Point.t) (dx dy : Q) : Point.t :=
  clamp (resolve walls p dx dy).

Definition centerX (p : Point.t) : Q := Point.x p + PLAYER_SIZE / 2.
Definition centerY (p : Point.t) : Q := Point.y p + PLAYER_SIZE / 2.

Definition collectible (newPos : Point.t) (m : Money.t) : bool :=
  negb (Money.collected m) &&
  near 25 (Money.pos m) (centerX newPos) (centerY newPos).

(** [prev.money.map(...)] with its running [newScore]. *)
Fixpoint collectMoney (newPos : Point.t) (ms : list Money.t) (newScore : Z)
  : list Money.t * Z :=
  match ms with
  | [] => ([], newScore)
  | m :: ms' =>
      if collectible newPos m then
        let '(r, sc) := collectMoney newPos ms' (newScore + Money.value m)%Z in
        (Money.collect m :: r, sc)
      else
        let '(r, sc) := collectMoney newPos ms' newScore in
        (m :: r, sc)
  end.

Section Engine.
Variable M : JSMath.

(** The callback of [prev.guards.map]; [None] when
    [g.path[g.currentPathIndex]] is [undefined]. *)
Definition patrol (g : Guard.t) : option Guard.t :=
  match nth_error (Guard.path g) (Guard.currentPathIndex g) with
  | None => None
  | Some target =>
      let gx := Point.x (Guard.pos g) in
      let gy := Point.y (Guard.pos g) in
      let angle := Math_atan2 M (Point.y target - gy) (Point.x target - gx) in
      let dist := Math_sqrt M ((Point.x target - gx) * (Point.x target - gx)
                               + (Point.y target - gy) * (Point.y target - gy)) in
      if Qltb dist 5 then
        Some (Guard.mk (Guard.id g) (Guard.pos g) (Guard.path g)
                (Nat.modulo (Guard.currentPathIndex g + 1) (List.length (Guard.path g)))
                (Guard.speed g))
      else
        Some (Guard.mk (Guard.id g)
                (Point.mk (Qred (gx + Math_cos M angle * Guard.speed g))
                          (Qred (gy + Math_sin M angle * Guard.speed g)))
                (Guard.path g) (Guard.currentPathIndex g) (Guard.speed g))
  end.

Definition caughtBy (newPos : Point.t) (g : Guard.t) : bool :=
  near 25 (Guard.pos g) (centerX newPos) (centerY newPos).

Definition passwordStation : Point.t := Point.mk 100 300.

(** What the function given to [setGameState] in [update] does. *)
Inductive Tick : Type :=
| TimedOut (penScore : Z)          (* [initFloor(prev.currentFloor, penScore); return prev] *)
| Caught                            (* [return { ...prev, isGameOver: true }] *)
| Committed (s : GameState)         (* the final [return { ...prev, ... }] *)
| Crashed.                          (* an exception escaped the updater *)

Definition updater (dt : Q) (movement : Movement) (prev : GameState) : Tick :=
  let newTimeLeft := Qred (timeLeft prev - dt) in
  if Qleb newTimeLeft 0 then
    TimedOut (Z.max 0 (score prev - 500))
  else
    let newPos := movePlayer (walls prev) (playerPos prev)
                    (intentDx movement) (intentDy movement) in
    let '(newMoney, newScore) := collectMoney newPos (money prev) (score prev) in
    match map_throw patrol (guards prev) with
    | None => Crashed
    | Some newGuards =>
        if existsb (caughtBy newPos) newGuards then Caught
        else
          let found :=
            if negb (foundPassword prev) &&
               near 40 passwordStation (centerX newPos) (centerY newPos)
            then true else foundPassword prev in
          let showTerminal' :=
            if near 40 (doorPos prev) (centerX newPos) (centerY newPos)
            then true else showTerminal prev in
          Committed
            (mkGameState newPos (currentFloor prev) newScore newMoney
               (walls prev) newGuards (password prev) found (doorPos prev)
               (isPaused prev) (isGameOver prev) showTerminal'
               (lastPasswordFound prev) newTimeLeft)
    end.

(** [update]: one frame of the loop.  [dt] is the time since the last
    live frame in seconds: [lastTimeRef] is only written after the early
    return, so the first frame after a pause or after the terminal closes
    is charged the whole time the floor was not live.  The state the early
    return reads and the state given to the updater are the same state. *)
Definition update (fuel : nat) (dt : Q) (movement : Movement)
    (gameState : GameState) : Rand GameState :=
  if isPaused gameState || isGameOver gameState || showTerminal gameState
  then ret gameState
  else
    match updater dt movement gameState with
    | TimedOut penScore => initFloor fuel (currentFloor gameState) penScore
    | Caught => ret (set_isGameOver true gameState)
    | Committed s => ret s
    | Crashed => throw
    end.
End Engine.

Definition handlePasswordSubmit (fuel : nat) (inputCode : string)
    (gameState : GameState) : Rand GameState :=
  if String.eqb inputCode (password gameState) then nextFloor fuel gameState
  else
    ret (set_playerPos
           (Point.mk (Point.x (playerPos gameState) - 40)
                     (Point.y (playerPos gameState) - 40))
           (set_showTerminal false gameState)).

(** The pause key / button and the close button of the terminal. *)
Definition togglePause (s : GameState) : GameState := set_isPaused (negb (isPaused s)) s.
Definition closeTerminal (s : GameState) : GameState := set_showTerminal false s.

End GameA.

(** * Second revision of Game.tsx: direction input, fixed 60 Hz tick *)
Module GameB.

Definition PLAYER_SIZE : Q := 20.
Definition SPEED : Q := 4.

Definition generateWalls (floor : Z) : list Wall.t := generateWalls_with 40 floor.
Definition generateGuards := generateGuards_with 5.
Definition generateMoney := generateMoney_with 20.

Definition door : Point.t :=
  Point.mk (inject_Z (CANVAS_WIDTH - 40)) (inject_Z (CANVAS_HEIGHT - 40)).

(** The state built by the [useState] initialiser and by [resetGame]. *)
Definition freshGame (fuel : nat) : Rand GameState :=
  let walls := generateWalls 1 in
  money <- generateMoney fuel 1 walls ;;
  guards <- generateGuards 1 walls ;;
  password <- generatePassword ;;
  ret (mkGameState (Point.mk 30 30) 1 0 money walls guards password false
         door false false false "" INITIAL_TIME_PER_FLOOR).

Definition resetGame (fuel : nat) : Rand GameState := freshGame fuel.

(** The updater of [nextFloor]. *)
Definition nextFloor (fuel : nat) (prev : GameState) : Rand GameState :=
  let nextF := (currentFloor prev + 1)%Z in
  let walls := generateWalls nextF in
  money <- generateMoney fuel nextF walls ;;
  guards <- generateGuards nextF walls ;;
  password <- generatePassword ;;
  ret (mkGameState (Point.mk 30 30) nextF (score prev) money walls guards
         password false door (isPaused prev) (isGameOver prev)
         (showTerminal prev) (lastPasswordFound prev) INITIAL_TIME_PER_FLOOR).

Definition overlaps (nx ny : Q) (w : Wall.t) : bool :=
  Qgtb (nx + PLAYER_SIZE) (Wall.x w) &&
  Qltb nx (Wall.x w + Wall.w w) &&
  Qgtb (ny + PLAYER_SIZE) (Wall.y w) &&
  Qltb ny (Wall.y w + Wall.h w).

(** Movement and the single wall test of the game loop. *)
Definition movePlayer (walls : list Wall.t) (p : Point.t) (moveDir : Direction)
  : Point.t :=
  let newX := Point.x p in
  let newY := Point.y p in
  let newY := if Direction_eqb moveDir UP then newY - SPEED else newY in
  let newY := if Direction_eqb moveDir DOWN then newY + SPEED else newY in
  let newX := if Direction_eqb moveDir LEFT then newX - SPEED else newX in
  let newX := if Direction_eqb moveDir RIGHT then newX + SPEED else newX in
  let collide := existsb (overlaps newX newY) walls in
  if negb collide then
    Point.mk
      (Math_max 10 (Math_min (inject_Z CANVAS_WIDTH - PLAYER_SIZE - 10) newX))
      (Math_max 10 (Math_min (inject_Z CANVAS_HEIGHT - PLAYER_SIZE - 10) newY))
  else Point.mk (Point.x p) (Point.y p).

Definition collectible (newX newY : Q) (m : Money.t) : bool :=
  negb (Money.collected m) &&
  Qltb (Qabs (newX - Point.x (Money.pos m))) 20 &&
  Qltb (Qabs (newY - Point.y (Money.pos m))) 20.

Fixpoint collectMoney (newX newY : Q) (ms : list Money.t) (newScore : Z)
  : list Money.t * Z :=
  match ms with
  | [] => ([], newScore)
  | m :: ms' =>
      if collectible newX newY m then
        let '(r, sc) := collectMoney newX newY ms' (newScore + Money.value m)%Z in
        (Money.collect m :: r, sc)
      else
        let '(r, sc) := collectMoney newX newY ms' newScore in
        (m :: r, sc)
  end.

Section Engine.
Variable M : JSMath.

Definition patrol (g : Guard.t) : option Guard.t :=
  match nth_error (Guard.path g) (Guard.currentPathIndex g) with
  | None => None
  | Some target =>
      let dx := Point.x target - Point.x (Guard.pos g) in
      let dy := Point.y target - Point.y (Guard.pos g) in
      let dist := Math_sqrt M (dx * dx + dy * dy) in
      if Qltb dist 5 then
        Some (Guard.mk (Guard.id g) (Guard.pos g) (Guard.path g)
                (Nat.modulo (Guard.currentPathIndex g + 1) (List.length (Guard.path g)))
                (Guard.speed g))
      else
        Some (Guard.mk (Guard.id g)
                (Point.mk (Qred (Point.x (Guard.pos g) + (dx / dist) * Guard.speed g))
                          (Qred (Point.y (Guard.pos g) + (dy / dist) * Guard.speed g)))
                (Guard.path g) (Guard.currentPathIndex g) (Guard.speed g))
  end.

Definition caughtBy (newX newY : Q) (g : Guard.t) : bool :=
  Qltb (Qabs (newX - Point.x (Guard.pos g))) 20 &&
  Qltb (Qabs (newY - Point.y (Guard.pos g))) 20.

(** The updater of the 60 Hz game loop. *)
Definition loopUpdater (fuel : nat) (moveDir : Direction) (prev : GameState)
  : Rand GameState :=
  let newPos := movePlayer (walls prev) (playerPos prev) moveDir in
  let newX := Point.x newPos in
  let newY := Point.y newPos in
  let '(newMoney, newScore) := collectMoney newX newY (money prev) (score prev) in
  match map_throw patrol (guards prev) with
  | None => throw
  | Some newGuards =>
      if existsb (caughtBy newX newY) newGuards then
        ret (set_isGameOver true prev)
      else
        let distToDoor :=
          Math_sqrt M ((newX - Point.x (doorPos prev)) * (newX - Point.x (doorPos prev))
                       + (newY - Point.y (doorPos prev)) * (newY - Point.y (doorPos prev))) in
        if Qltb distToDoor 30 && negb (foundPassword prev) then
          ret (set_playerPos (Point.mk newX newY) (set_showTerminal true prev))
        else if foundPassword prev && Qltb distToDoor 20 then
          nextFloor fuel prev
        else
          ret (mkGameState (Point.mk newX newY) (currentFloor prev) newScore
                 newMoney (walls prev) newGuards (password prev)
                 (foundPassword prev) (doorPos prev) (isPaused prev)
                 (isGameOver prev) (showTerminal prev) (lastPasswordFound prev)
                 (Math_max 0 (Qred (timeLeft prev - 1 / 60))))
  end.

(** Both intervals exist only while this holds. *)
Definition running (hasStarted : bool) (s : GameState) : bool :=
  hasStarted && negb (isPaused s || isGameOver s || showTerminal s).

Definition gameLoop (fuel : nat) (hasStarted : bool) (moveDir : Direction)
    (s : GameState) : Rand GameState :=
  if running hasStarted s then loopUpdater fuel moveDir s else ret s.
End Engine.

(** The updater of the one-second timer effect. *)
Definition timerUpdater (prev : GameState) : GameState :=
  if Qleb (timeLeft prev) 0 then set_isGameOver true prev else prev.

Definition timerTick (hasStarted : bool) (s : GameState) : GameState :=
  if running hasStarted s then timerUpdater s else s.

Definition handlePasswordSubmit (inputPassword : string) (gameState : GameState)
  : GameState :=
  if String.eqb inputPassword (password gameState) then
    set_showTerminal false (set_foundPassword true gameState)
  else set_showTerminal false gameState.

End GameB.

(** * An exact instance of the library interface

    Angles are represented by the vector [(dy, dx)] they were computed
    from.  [Math_sqrt] is exact on squares of rationals, and
    [cos (atan2 dy dx)] and [sin (atan2 dy dx)] are exact on every vector
    that is parallel to an axis or has rational length; these include the
    horizontal vectors, the only ones along which generated guards
    patrol. *)
Definition Qsqrt (q : Q) : Q :=
  inject_Z (Z.sqrt (Qnum q)) / inject_Z (Z.sqrt (Zpos (Qden q))).

Definition isZero (q : Q) : bool := Qeq_bool q 0.

Definition rationalMath : JSMath :=
  mkJSMath (Q * Q)
    Qsqrt
    (fun dy dx => (dy, dx))
    (fun a => let '(dy, dx) := a in
              if isZero dy then (if Qltb dx 0 then - (1) else 1)
              else if isZero dx then 0
              else dx / Qsqrt (dx * dx + dy * dy))
    (fun a => let '(dy, dx) := a in
              if isZero dy then 0
              else if isZero dx then (if Qltb dy 0 then - (1) else 1)
              else dy / Qsqrt (dx * dx + dy * dy)).

(** * Runs of the first revision

    The commands the component accepts: the mount effect and the reset
    key or button ([resetGame], which is [initFloor(1, 0)] like the mount
    effect), a frame of the loop, the pause toggle, and the two controls of
    the terminal dialog, which is rendered only while [showTerminal] holds
    and the game is not over.  Random draws lie in [0, 1). *)
Definition unitDraws (rng : nat -> Q) : Prop := forall n, 0 <= rng n /\ rng n < 1.

Inductive reachable (M : JSMath) : GameState -> Prop :=
| reach_initial : reachable M GameA.initialState
| reach_reset : forall s fuel rng k s' k',
    reachable M s -> unitDraws rng ->
    GameA.resetGame fuel rng k = Ok (s', k') -> reachable M s'
| reach_update : forall s fuel dt movement rng k s' k',
    reachable M s -> unitDraws rng ->
    GameA.update M fuel dt movement s rng k = Ok (s', k') -> reachable M s'
| reach_pause : forall s,
    reachable M s -> reachable M (GameA.togglePause s)
| reach_submit : forall s fuel inputCode rng k s' k',
    reachable M s -> unitDraws rng ->
    showTerminal s = true -> isGameOver s = false ->
    GameA.handlePasswordSubmit fuel inputCode s rng k = Ok (s', k') ->
    reachable M s'
| reach_close : forall s,
    reachable M s -> showTerminal s = true -> isGameOver s = false ->
    reachable M (GameA.closeTerminal s).

(** A sequence of frames, each with its elapsed time and movement map. *)
Fixpoint frames (M : JSMath) (fuel : nat)
    (inputs : list (Q * GameA.Movement)) (s : GameState) : Rand GameState :=
  match inputs with
  | [] => ret s
  | (dt, m) :: inputs' =>
      s' <- GameA.update M fuel dt m s ;; frames M fuel inputs' s'
  end.

(** The point built from two consecutive draws by the sampling loop. *)
Definition drawnAt (rng : nat -> Q) (n : nat) : Point.t :=
  Point.mk (40 + rng n * inject_Z (CANVAS_WIDTH - 80))
           (40 + rng (S n) * inject_Z (CANVAS_HEIGHT - 80)).

(** The sampling loop reads the draws two by two.  Started at cursor [k],
    however far it has got it eventually draws a point that no wall
    rejects. *)
Definition eventuallyValid (margin : Q) (walls : list Wall.t) (rng : nat -> Q)
    (k : nat) : Prop :=
  forall i, exists j, validPos margin walls (drawnAt rng (k + 2 * (i + j))) = true.

(** * Statements in the words of the specification *)

(** Walls: four boundary rectangles of thickness 10 framing the canvas plus
    [min(3+floor, 8)] obstacles; obstacle [i] has
    [x = 50 + (seed + i*150) mod (CANVAS_W - 150)],
    [y = 50 + (seed + i*100) mod (CANVAS_H - 150)], and sizes
    [off + (seed*(i+1)) mod 100], [off + (seed*(i+2)) mod 100], where
    [seed = floor*12345]; the specification has [off = 20]. *)
Definition spec_obstacle (off floor i : Z) : Wall.t :=
  let seed := (floor * 12345)%Z in
  Wall.mk (inject_Z (50 + (seed + i * 150) mod (600 - 150)))
          (inject_Z (50 + (seed + i * 100) mod (400 - 150)))
          (inject_Z (off + (seed * (i + 1)) mod 100))
          (inject_Z (off + (seed * (i + 2)) mod 100)).

Definition spec_walls (off floor : Z) : list Wall.t :=
  [ Wall.mk 0 0 600 10; Wall.mk 0 390 600 10;
    Wall.mk 0 0 10 400; Wall.mk 590 0 10 400 ] ++
  map (fun i => spec_obstacle off floor (Z.of_nat i))
      (seq 0 (Z.to_nat (Z.min (3 + floor) 8))).

(** Axis-separated collision resolution for a square footprint of side
    [size]: each axis move is tested alone and reverted on overlap; the
    combined position is tested and, if it overlaps although each axis
    passed alone, the original position is kept; the result is clamped to
    the interior. *)
Definition hits (size : Q) (walls : list Wall.t) (px py : Q) : bool :=
  existsb (fun w => Qltb (Wall.x w) (px + size) && Qltb px (Wall.x w + Wall.w w) &&
                    Qltb (Wall.y w) (py + size) && Qltb py (Wall.y w + Wall.h w))
          walls.

Definition spec_clamp (size : Q) (p : Point.t) : Point.t :=
  Point.mk (Qmax 10 (Qmin (600 - size - 10) (Point.x p)))
           (Qmax 10 (Qmin (400 - size - 10) (Point.y p))).

Definition spec_move (size : Q) (walls : list Wall.t) (p : Point.t) (dx dy : Q)
  : Point.t :=
  let oldX := Point.x p in
  let oldY := Point.y p in
  let newX := oldX + dx in
  let newY := oldY + dy in
  let xPasses := negb (hits size walls newX oldY) in
  let yPasses := negb (hits size walls oldX newY) in
  let x1 := if xPasses then newX else oldX in
  let y1 := if yPasses then newY else oldY in
  spec_clamp size
    (if xPasses && yPasses && hits size walls newX newY
     then Point.mk oldX oldY
     else Point.mk x1 y1).

(** Axis deltas of a direction in the second revision. *)
Definition dirDx (d : Direction) : Q :=
  match d with LEFT => - GameB.SPEED | RIGHT => GameB.SPEED | _ => 0 end.
Definition dirDy (d : Direction) : Q :=
  match d with UP => - GameB.SPEED | DOWN => GameB.SPEED | _ => 0 end.

(** The playable interior for a footprint of side [size]. *)
Definition inInterior (size : Q) (p : Point.t) : Prop :=
  10 <= Point.x p /\ Point.x p <= 600 - size - 10 /\
  10 <= Point.y p /\ Point.y p <= 400 - size - 10.

(** * Predicates used in the statements *)

(** Points are compared coordinate-wise as numbers. *)
Definition Point_eqv (p q : Point.t) : Prop :=
  Point.x p == Point.x q /\ Point.y p == Point.y q.

(** No wall's box widened by [margin] meets the rectangle
    [[a, b] x [c, d]]. *)
Definition freeBox (margin : Q) (walls : list Wall.t) (a b c d : Q) : bool :=
  forallb (fun w =>
      negb (Qgtb b (Wall.x w - margin) &&
            Qltb a (Wall.x w + Wall.w w + margin) &&
            Qgtb d (Wall.y w - margin) &&
            Qltb c (Wall.y w + Wall.h w + margin)))
    walls.

Definition freshGuard (floor : Z) (g : Guard.t) : Prop :=
  List.length (Guard.path g) = 2%nat /\
  Guard.currentPathIndex g = 0%nat /\
  nth_error (Guard.path g) 0 = Some (Guard.pos g) /\
  Guard.speed g == 1.5 + inject_Z floor * 0.2.

Definition indexInBounds (g : Guard.t) : Prop :=
  (0 <= Guard.currentPathIndex g < List.length (Guard.path g))%nat.

Definition guardsInBounds (s : GameState) : Prop :=
  Forall indexInBounds (guards s).

(** * Concrete draws, floors and runs *)

Definition zeroDraws : nat -> Q := fun _ => 0.

Definition stateOf (r : Res (GameState * nat)) : GameState :=
  match r with Ok (s, _) => s | _ => GameA.initialState end.

(** Floor 1 as [initFloor] builds it when every draw is 0. *)
Definition floorOne : GameState :=
  Eval vm_compute in stateOf (GameA.initFloor 1 1 0 zeroDraws 0%nat).

(** The value a tick at [newPos] takes from a list of bills. *)
Fixpoint gain (newPos : Point.t) (ms : list Money.t) : Z :=
  match ms with
  | [] => 0
  | m :: ms' =>
      ((if GameA.collectible newPos m then Money.value m else 0) + gain newPos ms')%Z
  end.

Definition rightKey : GameA.Movement := GameA.press "KeyD" GameA.noMovement.
Definition downKey : GameA.Movement := GameA.press "KeyS" GameA.noMovement.
Definition walk (n : nat) (m : GameA.Movement) : list (Q * GameA.Movement) :=
  repeat (1 # 50, m) n.

(** A game from the mount effect on: floor 1 is generated, then the
    frames of [inputs] run. *)
Definition play (fuel : nat) (inputs : list (Q * GameA.Movement)) : Rand GameState :=
  s <- GameA.resetGame fuel ;; frames rationalMath fuel inputs s.

(** The first bill is drawn at (262, 80); all other draws are 0, which
    puts the guard at (200, 100). *)
Definition ambushDraws : nat -> Q :=
  fun n => match n with 0%nat => 222 # 520 | 1%nat => 1 # 8 | _ => 0 end.

(** Three frames down and 34 to the right: the player stands at
    (220, 65), the guard walks towards it. *)
Definition approach : GameState :=
  Eval vm_compute in
    stateOf (play 1 (walk 3 downKey ++ walk 34 rightKey) ambushDraws 0%nat).

(** A guard is placed at (428, 280); all other draws are 0. *)
Definition guardDraws : nat -> Q :=
  fun n => if Nat.eqb n 14 then 19 # 25 else if Nat.eqb n 15 then 9 # 10 else 0.

(** 91 frames to the right and 50 down: the player enters the door zone
    at (505, 300) and the terminal opens. *)
Definition doorWalk : list (Q * GameA.Movement) :=
  walk 91 rightKey ++ walk 50 downKey.

Definition atDoorGuarded : GameState :=
  Eval vm_compute in stateOf (play 1 doorWalk guardDraws 0%nat).

(** A wrong code: the player is put back by (40, 40), next to the guard. *)
Definition besideGuard : GameState :=
  Eval vm_compute in
    stateOf (GameA.handlePasswordSubmit 1 "0000" atDoorGuarded guardDraws 18%nat).

(** The frame that follows, 70 seconds after the last live frame. *)
Definition afterLongWait : GameState :=
  Eval vm_compute in stateOf (GameA.update rationalMath 1 70 GameA.noMovement besideGuard guardDraws 18%nat).



Definition tenthDraws : nat -> Q := fun _ => 1 # 10.

(** Floor 1 of the second revision when every draw is 1/10: the bills lie
    at (92, 72), the guard starts at (230, 120), the password is 1900. *)
Definition floorOneB : GameState :=
  Eval vm_compute in
    match GameB.freshGame 1 tenthDraws 0%nat with
    | Ok (s, _) => s
    | _ => GameA.initialState
    end.




(** The player's footprint overlaps no wall and lies in the interior. *)
Definition playerClear (s : GameState) : Prop :=
  GameA.collides (walls s) (Point.x (playerPos s)) (Point.y (playerPos s)) = false /\
  inInterior 30 (playerPos s).

Definition atDoor : GameState :=
  Eval vm_compute in stateOf (play 1 doorWalk zeroDraws 0%nat).

Definition insideWall : GameState :=
  Eval vm_compute in
    stateOf (GameA.handlePasswordSubmit 1 "0000" atDoor zeroDraws 18%nat).

Definition stillInside : GameState :=
  Eval vm_compute in
    stateOf (GameA.update rationalMath 1 (1 # 50) GameA.noMovement insideWall
               zeroDraws 18%nat).

Definition upLeftKeys : GameA.Movement :=
  GameA.press "KeyA" (GameA.press "KeyW" GameA.noMovement).

Definition committedOr (d : GameState) (t : GameA.Tick) : GameState :=
  match t with GameA.Committed s => s | _ => d end.

(** One frame up and to the left from the spawn point of [floorOne]: the
    seven bills at (40, 40) come within reach. *)
Definition firstLoot : GameState :=
  Eval vm_compute in
    committedOr floorOne (GameA.updater rationalMath (1 # 50) upLeftKeys floorOne).

Definition approachGuards : list Guard.t :=
  Eval vm_compute in
    match map_throw (GameA.patrol rationalMath) (guards approach) with
    | Some l => l
    | None => []
    end.

Definition cornerDraws : nat -> Q := fun n => if Nat.even n then 0 else 15 # 16.

(** In the second revision: the player stands on the guard's start. *)
Definition onGuardB : GameState :=
  Eval vm_compute in set_playerPos (Point.mk 230 120) floorOneB.

Definition onGuardGuardsB : list Guard.t :=
  Eval vm_compute in
    match map_throw (GameB.patrol rationalMath) (guards onGuardB) with
    | Some l => l
    | None => []
    end.

Definition approachGuard : Guard.t :=
  Eval vm_compute in nth 0 approachGuards (Guard.mk "" (Point.mk 0 0) [] 0 0).

(** The right code at the door of floor 1. *)
Definition secondFloor : GameState :=
  Eval vm_compute in
    stateOf (GameA.handlePasswordSubmit 1 "1000" atDoor cornerDraws 0%nat).

Definition firstBill : Money.t :=
  Eval vm_compute in nth 0 (money floorOne) (Money.mk "" (Point.mk 0 0) 0 false).

(** * Input handling of the first revision *)

(** [{ ...prev, [code]: v }] on the [movement] object. *)
Definition setKey (code : string) (v : bool) (m : GameA.Movement) : GameA.Movement :=
  fun c => if String.eqb c code then v else m c.

(** [handleKeyUp]: [setMovement(prev => ({ ...prev, [e.code]: false }))]. *)
Definition handleKeyUp (code : string) (prev : GameA.Movement) : GameA.Movement :=
  setKey code false prev.

(** [handleKeyDown]: the key is recorded as held; [KeyP] toggles the pause
    and [KeyR] restarts the game. *)
Definition handleKeyDown (fuel : nat) (code : string)
    (st : GameA.Movement * GameState) : Rand (GameA.Movement * GameState) :=
  let movement := GameA.press code (fst st) in
  let s := if String.eqb code "KeyP" then GameA.togglePause (snd st) else snd st in
  if String.eqb code "KeyR"
  then s' <- GameA.resetGame fuel ;; ret (movement, s')
  else ret (movement, s).

(** The [onMove] callback given to [VirtualControls]. *)
Definition onMove (dir : Direction) (prev : GameA.Movement) : GameA.Movement :=
  setKey "KeyD" (Direction_eqb dir RIGHT)
    (setKey "KeyA" (Direction_eqb dir LEFT)
       (setKey "KeyS" (Direction_eqb dir DOWN)
          (setKey "KeyW" (Direction_eqb dir UP) prev))).

(** The [onStop] callback: the whole object is replaced. *)
Definition onStop : GameA.Movement :=
  setKey "ArrowRight" false (setKey "ArrowLeft" false
    (setKey "ArrowDown" false (setKey "ArrowUp" false
      (setKey "KeyD" false (setKey "KeyA" false
        (setKey "KeyS" false (setKey "KeyW" false (fun _ => false)))))))).

(** [value.replace(/\D/g, '')], the [onChange] handler of the code input
    in both revisions. *)
Definition isDigit (c : ascii) : bool :=
  (48 <=? nat_of_ascii c)%nat && (nat_of_ascii c <=? 57)%nat.

Fixpoint stripNonDigits (value : string) : string :=
  match value with
  | EmptyString => EmptyString
  | String c rest =>
      if isDigit c then String c (stripNonDigits rest) else stripNonDigits rest
  end.

(** The submit button of the first revision is [disabled] while
    [inputCode.length < 4]. *)
Definition submitEnabled (inputCode : string) : bool :=
  negb (String.length inputCode <? 4)%nat.

(** The decimal digit [k] put in front of the numeral [u]. *)
Definition digitOf (k : nat) (u : Decimal.uint) : Decimal.uint :=
  match k with
  | 0 => Decimal.D0 u | 1 => Decimal.D1 u | 2 => Decimal.D2 u
  | 3 => Decimal.D3 u | 4 => Decimal.D4 u | 5 => Decimal.D5 u
  | 6 => Decimal.D6 u | 7 => Decimal.D7 u | 8 => Decimal.D8 u
  | _ => Decimal.D9 u
  end%nat.

(** A code of four characters, all of them digits. *)
Definition fourDigits (pw : string) : Prop :=
  String.length pw = 4%nat /\ stripNonDigits pw = pw.

(** * Commands and runs of the second revision

    The initialiser of [useState] and [resetGame] build a fresh game; the
    two intervals run the game loop and the timer; the pause key and
    button toggle [isPaused], the overlay's button resumes; the terminal
    has an abort and a submit button. *)
Definition togglePauseB (s : GameState) : GameState := set_isPaused (negb (isPaused s)) s.
Definition resumeB (s : GameState) : GameState := set_isPaused false s.
Definition abortTerminalB (s : GameState) : GameState := set_showTerminal false s.

Inductive reachableB (M : JSMath) : GameState -> Prop :=
| reachB_fresh : forall fuel rng k s k',
    unitDraws rng -> GameB.freshGame fuel rng k = Ok (s, k') -> reachableB M s
| reachB_loop : forall s fuel hasStarted moveDir rng k s' k',
    reachableB M s -> unitDraws rng ->
    GameB.gameLoop M fuel hasStarted moveDir s rng k = Ok (s', k') ->
    reachableB M s'
| reachB_timer : forall s hasStarted,
    reachableB M s -> reachableB M (GameB.timerTick hasStarted s)
| reachB_pause : forall s, reachableB M s -> reachableB M (togglePauseB s)
| reachB_resume : forall s, reachableB M s -> reachableB M (resumeB s)
| reachB_abort : forall s,
    reachableB M s -> showTerminal s = true -> reachableB M (abortTerminalB s)
| reachB_submit : forall s inputPassword,
    reachableB M s -> showTerminal s = true ->
    reachableB M (GameB.handlePasswordSubmit inputPassword s).

(** * Invariants *)

(** The state before the mount effect has run: nothing is generated. *)
Definition unmounted (s : GameState) : Prop :=
  walls s = [] /\ money s = [] /\ guards s = [] /\ password s = ""%string.

(** The content of the level is the one generated for its floor index. *)
Definition levelOf (s : GameState) : Prop :=
  walls s = GameA.generateWalls (currentFloor s) /\
  List.length (money s) = Z.to_nat (5 + currentFloor s * 2) /\
  List.length (guards s) = Z.to_nat (Z.min (1 + currentFloor s / 2) 4) /\
  fourDigits (password s).

(** What every reachable state of the first revision satisfies. *)
Definition wellFormedA (s : GameState) : Prop :=
  (1 <= currentFloor s)%Z /\
  (0 <= score s)%Z /\
  0 < timeLeft s /\
  doorPos s = Point.mk 550 350 /\
  Forall (fun m => Money.value m = (100 * currentFloor s)%Z) (money s) /\
  inInterior 30 (playerPos s) /\
  (showTerminal s = true ->
   near 40 (doorPos s) (GameA.centerX (playerPos s)) (GameA.centerY (playerPos s))
   = true) /\
  (unmounted s \/ levelOf s).

(** The single wall test of the second revision. *)
Definition collidesB (walls : list Wall.t) (nx ny : Q) : bool :=
  existsb (GameB.overlaps nx ny) walls.

(** The distance the game loop of the second revision compares with 30
    and 20, at the player's position. *)
Definition distToDoor (M : JSMath) (s : GameState) : Q :=
  Math_sqrt M
    ((Point.x (playerPos s) - Point.x (doorPos s))
     * (Point.x (playerPos s) - Point.x (doorPos s))
     + (Point.y (playerPos s) - Point.y (doorPos s))
       * (Point.y (playerPos s) - Point.y (doorPos s))).

(** What every reachable state of the second revision satisfies. *)
Definition wellFormedB (M : JSMath) (s : GameState) : Prop :=
  (1 <= currentFloor s)%Z /\
  (0 <= score s)%Z /\
  walls s = GameB.generateWalls (currentFloor s) /\
  inInterior 20 (playerPos s) /\
  collidesB (walls s) (Point.x (playerPos s)) (Point.y (playerPos s)) = false /\
  0 <= timeLeft s /\
  Forall indexInBounds (guards s) /\
  Forall (fun m => Money.value m = (100 * currentFloor s)%Z) (money s) /\
  (showTerminal s = true ->
   foundPassword s = false /\ Qltb (distToDoor M s) 30 = true).

(** A sequence of ticks of the game loop, each with its direction. *)
Fixpoint ticks (M : JSMath) (fuel : nat) (dirs : list Direction) (s : GameState)
  : Rand GameState :=
  match dirs with
  | [] => ret s
  | d :: dirs' => s' <- GameB.gameLoop M fuel true d s ;; ticks M fuel dirs' s'
  end.

(** Where and how [generateGuards] places a guard on [floor]. *)
Definition guardPlaced (floor : Z) (g : Guard.t) : Prop :=
  200 <= Point.x (Guard.pos g) /\ Point.x (Guard.pos g) < 500 /\
  100 <= Point.y (Guard.pos g) /\ Point.y (Guard.pos g) < 300 /\
  Guard.currentPathIndex g = 0%nat /\
  Guard.speed g = 1.5 + inject_Z floor * 0.2 /\
  exists pathWidth,
    100 <= pathWidth /\ pathWidth < 200 /\
    Guard.path g = [Guard.pos g;
                    Point.mk (Point.x (Guard.pos g) + pathWidth) (Point.y (Guard.pos g))].

(** Floor 7 of the first revision, on which the spawn point lies inside
    the obstacle at (65, 65). *)
Definition strandedAtSpawn (s : GameState) : Prop :=
  currentFloor s = 7%Z /\ walls s = GameA.generateWalls 7 /\
  playerPos s = Point.mk 50 50 /\ doorPos s = Point.mk 550 350 /\
  showTerminal s = false.

Definition floorSeven : GameState :=
  Eval vm_compute in stateOf (GameA.initFloor 1 7 1200 cornerDraws 0%nat).

Definition floorSevenLater : GameState :=
  Eval vm_compute in
    stateOf (frames rationalMath 1 (walk 2 rightKey ++ walk 2 upLeftKeys) floorSeven
               cornerDraws 51%nat).

(** The terminal of [atDoor] is closed with its close button and one
    frame runs with no key held. *)
Definition reopened : GameState :=
  Eval vm_compute in
    stateOf (GameA.update rationalMath 1 (1 # 50) GameA.noMovement
               (GameA.closeTerminal atDoor) zeroDraws 18%nat).

(** The single-axis intent of a direction of the virtual pad. *)
Definition padDx (d : Direction) : Q :=
  match d with LEFT => - GameA.SPEED | RIGHT => GameA.SPEED | _ => 0 end.
Definition padDy (d : Direction) : Q :=
  match d with UP => - GameA.SPEED | DOWN => GameA.SPEED | _ => 0 end.

(** Second revision, every draw 1/10: 80 ticks down and 126 to the right
    bring the player to (534, 350), where the terminal opens. *)
Definition atDoorB : GameState :=
  Eval vm_compute in
    stateOf ((s <- GameB.freshGame 1 ;;
              ticks rationalMath 1 (repeat DOWN 80 ++ repeat RIGHT 126) s)
               tenthDraws 0%nat).

(** The terminal is left with its abort button and one tick runs with no
    direction. *)
Definition reopenedB : GameState :=
  Eval vm_compute in
    stateOf (GameB.gameLoop rationalMath 1 true NONE (abortTerminalB atDoorB)
               tenthDraws 18%nat).

(** One tick down from the start of [floorOneB]. *)
Definition afterTickB : GameState :=
  Eval vm_compute in
    stateOf (GameB.gameLoop rationalMath 1 true DOWN floorOneB tenthDraws 18%nat).

(** * Basic facts *)

Lemma Qltb_lt (a b : Q) : Qltb a b = true <-> a < b.
Proof.
  unfold Qltb. rewrite negb_true_iff.
  split; intro H.
  - apply Qnot_le_lt. intro L. apply Qle_bool_iff in L. congruence.
  - destruct (Qle_bool b a) eqn:E; [|reflexivity].
    apply Qle_bool_iff in E. exfalso; lra.
Qed.

Lemma Qltb_ge (a b : Q) : Qltb a b = false <-> b <= a.
Proof.
  unfold Qltb. rewrite negb_false_iff. apply Qle_bool_iff.
Qed.

Lemma Qleb_le (a b : Q) : Qleb a b = true <-> a <= b.
Proof. apply Qle_bool_iff. Qed.

Lemma Qleb_gt (a b : Q) : Qleb a b = false <-> b < a.
Proof.
  unfold Qleb. split; intro H.
  - apply Qnot_le_lt. intro L. apply Qle_bool_iff in L. congruence.
  - destruct (Qle_bool a b) eqn:E; [|reflexivity].
    apply Qle_bool_iff in E. exfalso; lra.
Qed.

Lemma Math_max_spec (a b : Q) :
  (a <= b /\ Math_max a b = b) \/ (b < a /\ Math_max a b = a).
Proof.
  unfold Math_max. destruct (Qle_bool a b) eqn:E.
  - left. split; [now apply Qle_bool_iff|reflexivity].
  - right. split; [now apply Qleb_gt|reflexivity].
Qed.

Lemma Math_min_spec (a b : Q) :
  (a <= b /\ Math_min a b = a) \/ (b < a /\ Math_min a b = b).
Proof.
  unfold Math_min. destruct (Qle_bool a b) eqn:E.
  - left. split; [now apply Qle_bool_iff|reflexivity].
  - right. split; [now apply Qleb_gt|reflexivity].
Qed.

(** Case analysis on a boolean comparison, leaving the order fact. *)
Ltac cmp a b :=
  let E := fresh "E" in
  destruct (Qltb a b) eqn:E;
  [apply Qltb_lt in E | apply Qltb_ge in E].

(** * The wall generator *)

Lemma rem_is_mod (a b : Z) : (0 <= a)%Z -> (0 < b)%Z -> Z.rem a b = (a mod b)%Z.
Proof. intros. apply Z.rem_mod_nonneg; lia. Qed.

Lemma obstacle_spec (off floor i : Z) :
  (0 <= floor)%Z -> (0 <= i)%Z -> obstacle off floor i = spec_obstacle off floor i.
Proof.
  intros Hf Hi. unfold obstacle, spec_obstacle, CANVAS_WIDTH, CANVAS_HEIGHT.
  assert (0 <= floor * 12345 * (i + 1))%Z by (apply Z.mul_nonneg_nonneg; lia).
  assert (0 <= floor * 12345 * (i + 2))%Z by (apply Z.mul_nonneg_nonneg; lia).
  rewrite !rem_is_mod by lia. reflexivity.
Qed.

Lemma generateWalls_with_spec (off floor : Z) :
  (0 <= floor)%Z -> generateWalls_with off floor = spec_walls off floor.
Proof.
  intro Hf. unfold generateWalls_with, spec_walls, numObstacles.
  f_equal. apply map_ext_in. intros i _. apply obstacle_spec; lia.
Qed.

Lemma spec_walls_length (off floor : Z) :
  List.length (spec_walls off floor) = (4 + Z.to_nat (Z.min (3 + floor) 8))%nat.
Proof.
  unfold spec_walls. rewrite length_app, length_map, length_seq. reflexivity.
Qed.

Lemma spec_walls_obstacle (off floor : Z) (i : nat) :
  (Z.of_nat i < Z.min (3 + floor) 8)%Z ->
  nth_error (spec_walls off floor) (4 + i) = Some (spec_obstacle off floor (Z.of_nat i)).
Proof.
  intro Hi. unfold spec_walls.
  rewrite nth_error_app2 by (simpl; lia).
  replace (4 + i - _)%nat with i by (simpl; lia).
  rewrite nth_error_map, nth_error_seq.
  destruct (Nat.ltb_spec i (Z.to_nat (Z.min (3 + floor) 8))); [reflexivity|lia].
Qed.

Lemma spec_obstacle_size (off floor i : Z) :
  inject_Z off <= Wall.w (spec_obstacle off floor i) < inject_Z off + 100 /\
  inject_Z off <= Wall.h (spec_obstacle off floor i) < inject_Z off + 100.
Proof.
  unfold spec_obstacle; cbn [Wall.w Wall.h].
  pose proof (Z.mod_pos_bound (floor * 12345 * (i + 1)) 100 ltac:(lia)) as Hw.
  pose proof (Z.mod_pos_bound (floor * 12345 * (i + 2)) 100 ltac:(lia)) as Hh.
  rewrite !inject_Z_plus.
  change 100 with (inject_Z 100).
  repeat split;
    try (rewrite <- (Qplus_0_r (inject_Z off)) at 1; apply Qplus_le_r;
         change 0 with (inject_Z 0); rewrite <- Zle_Qle; lia);
    apply Qplus_lt_r; rewrite <- Zlt_Qlt; lia.
Qed.

(** C8 (amended).  For every floor >= 1 both revisions of [generateWalls]
    return the four boundary rectangles of thickness 10 framing the canvas
    followed by [min(3+floor, 8)] obstacles at
    [x = 50 + (floor*12345 + i*150) mod 450],
    [y = 50 + (floor*12345 + i*100) mod 250]; the sizes are
    [off + (seed*(i+1)) mod 100] and [off + (seed*(i+2)) mod 100] with
    [off = 20] (range 20..120) in the first revision and [off = 40]
    (range 40..140) in the second. *)
Theorem generateWalls_layout (floor : Z) :
  (1 <= floor)%Z ->
  GameA.generateWalls floor = spec_walls 20 floor /\
  GameB.generateWalls floor = spec_walls 40 floor /\
  (forall off, List.length (spec_walls off floor)
               = (4 + Z.to_nat (Z.min (3 + floor) 8))%nat) /\
  (forall off i, (Z.of_nat i < Z.min (3 + floor) 8)%Z ->
     nth_error (spec_walls off floor) (4 + i)
     = Some (spec_obstacle off floor (Z.of_nat i))) /\
  (forall i, 20 <= Wall.w (spec_obstacle 20 floor i) < 120 /\
             20 <= Wall.h (spec_obstacle 20 floor i) < 120) /\
  (forall i, 40 <= Wall.w (spec_obstacle 40 floor i) < 140 /\
             40 <= Wall.h (spec_obstacle 40 floor i) < 140).
Proof.
  intro Hf. repeat split.
  - apply generateWalls_with_spec; lia.
  - apply generateWalls_with_spec; lia.
  - intro off. apply spec_walls_length.
  - intros off i Hi. now apply spec_walls_obstacle.
  - pose proof (spec_obstacle_size 20 floor i) as [[H _] _]. exact H.
  - pose proof (spec_obstacle_size 20 floor i) as [[_ H] _].
    change (inject_Z 20) with 20 in H; change (inject_Z 40) with 40 in H; lra.
  - pose proof (spec_obstacle_size 20 floor i) as [_ [H _]]. exact H.
  - pose proof (spec_obstacle_size 20 floor i) as [_ [_ H]].
    change (inject_Z 20) with 20 in H; change (inject_Z 40) with 40 in H; lra.
  - pose proof (spec_obstacle_size 40 floor i) as [[H _] _]. exact H.
  - pose proof (spec_obstacle_size 40 floor i) as [[_ H] _].
    change (inject_Z 20) with 20 in H; change (inject_Z 40) with 40 in H; lra.
  - pose proof (spec_obstacle_size 40 floor i) as [_ [H _]]. exact H.
  - pose proof (spec_obstacle_size 40 floor i) as [_ [_ H]].
    change (inject_Z 20) with 20 in H; change (inject_Z 40) with 40 in H; lra.
Qed.

Lemma generateWalls_layout_witness :
  (1 <= 1)%Z /\
  GameA.generateWalls 1 = spec_walls 20 1 /\
  GameB.generateWalls 1 = spec_walls 40 1.
Proof.
  split; [lia|].
  pose proof (generateWalls_layout 1 ltac:(lia)) as [HA [HB _]].
  split; assumption.
Defined.

(** C8, as stated, fails on the second revision: the second obstacle of
    floor 1 is 130 wide, where offset 20 gives 110 and the stated range
    ends at 120. *)
Lemma generateWalls_revB_offset :
  nth_error (GameB.generateWalls 1) 5 = Some (Wall.mk 395 245 130 75) /\
  nth_error (spec_walls 20 1) 5 = Some (Wall.mk 395 245 110 55) /\
  GameB.generateWalls 1 <> spec_walls 20 1 /\
  ~ (130 <= 120).
Proof.
  repeat split; try reflexivity.
  - intro H. apply (f_equal (fun l => nth_error l 5)) in H.
    vm_compute in H. discriminate.
  - intro H. lra.
Qed.

(** * Player motion *)

Lemma Qltb_compat (a a' b b' : Q) : a == a' -> b == b' -> Qltb a b = Qltb a' b'.
Proof.
  intros Ha Hb. cmp a b; symmetry.
  - apply Qltb_lt. lra.
  - apply Qltb_ge. lra.
Qed.

Lemma existsb_pointwise {A} (f g : A -> bool) (l : list A) :
  (forall a, f a = g a) -> existsb f l = existsb g l.
Proof.
  intro H. induction l as [|a l IH]; simpl; [reflexivity|].
  now rewrite H, IH.
Qed.

Lemma hits_compat (size : Q) (walls : list Wall.t) (px px' py py' : Q) :
  px == px' -> py == py' -> hits size walls px py = hits size walls px' py'.
Proof.
  intros Hx Hy. unfold hits. apply existsb_pointwise. intro w.
  rewrite (Qltb_compat (Wall.x w) (Wall.x w) (px + size) (px' + size)) by lra.
  rewrite (Qltb_compat px px' (Wall.x w + Wall.w w) (Wall.x w + Wall.w w)) by lra.
  rewrite (Qltb_compat (Wall.y w) (Wall.y w) (py + size) (py' + size)) by lra.
  rewrite (Qltb_compat py py' (Wall.y w + Wall.h w) (Wall.y w + Wall.h w)) by lra.
  reflexivity.
Qed.

Lemma clamp_eqv (lo hi hi' v v' : Q) :
  hi == hi' -> v == v' ->
  Math_max lo (Math_min hi v) == Qmax lo (Qmin hi' v').
Proof.
  intros Hh Hv.
  destruct (Math_min_spec hi v) as [[? ->]|[? ->]];
  destruct (Q.min_spec hi' v') as [[? E1]|[? E1]];
  match goal with
  | |- Math_max ?a ?b == _ =>
      destruct (Math_max_spec a b) as [[? ->]|[? ->]]
  end;
  match goal with
  | |- _ == Qmax ?a ?b => destruct (Q.max_spec a b) as [[? E2]|[? E2]]
  end; lra.
Qed.

Lemma clamp_interior (lo hi v v' : Q) :
  lo <= v -> v <= hi -> v == v' -> Qmax lo (Qmin hi v) == v'.
Proof.
  intros.
  destruct (Q.min_spec hi v) as [[? E1]|[? E1]];
  destruct (Q.max_spec lo (Qmin hi v)) as [[? E2]|[? E2]]; lra.
Qed.

Lemma collides_hits (walls : list Wall.t) (nx ny : Q) :
  GameA.collides walls nx ny = hits 30 walls nx ny.
Proof. reflexivity. Qed.

Lemma movePlayer_revA (walls : list Wall.t) (p : Point.t) (dx dy : Q) :
  Point_eqv (GameA.movePlayer walls p dx dy) (spec_move 30 walls p dx dy).
Proof.
  unfold GameA.movePlayer, GameA.resolve, spec_move. cbv zeta.
  change (GameA.collides walls) with (hits 30 walls).
  destruct (hits 30 walls (Point.x p + dx) (Point.y p)) eqn:Hx;
  destruct (hits 30 walls (Point.x p) (Point.y p + dy)) eqn:Hy; cbn [negb andb];
  rewrite ?Hx, ?Hy;
  try destruct (hits 30 walls (Point.x p) (Point.y p)) eqn:H0;
  try destruct (hits 30 walls (Point.x p + dx) (Point.y p + dy)) eqn:Hxy;
  unfold GameA.clamp, spec_clamp, Point_eqv; cbn [Point.x Point.y];
  split; apply clamp_eqv; reflexivity.
Qed.

Ltac norm_hits x0 y0 :=
  repeat match goal with
  | |- context [hits ?s ?ws (x0 + 0) ?b] =>
      rewrite (hits_compat s ws (x0 + 0) x0 b b) by lra
  | |- context [hits ?s ?ws ?a (y0 + 0)] =>
      rewrite (hits_compat s ws a a (y0 + 0) y0) by lra
  end.

Lemma movePlayer_revB (walls : list Wall.t) (p : Point.t) (d : Direction) :
  inInterior 20 p ->
  Point_eqv (GameB.movePlayer walls p d) (spec_move 20 walls p (dirDx d) (dirDy d)).
Proof.
  intros (Hx1 & Hx2 & Hy1 & Hy2).
  assert (Hov : forall a b, existsb (GameB.overlaps a b) walls = hits 20 walls a b)
    by reflexivity.
  unfold GameB.movePlayer, spec_move. cbv zeta. rewrite Hov.
  set (x0 := Point.x p) in *. set (y0 := Point.y p) in *.
  destruct d; cbn [Direction_eqb dirDx dirDy]; unfold Qminus;
  norm_hits x0 y0;
  repeat match goal with
  | |- context [hits 20 walls ?a ?b] => destruct (hits 20 walls a b) eqn:?
  end;
  cbn [negb andb]; unfold spec_clamp, Point_eqv; cbn [Point.x Point.y];
  split;
  first [ apply clamp_eqv; first [reflexivity | lra]
        | symmetry; apply clamp_interior; lra ].
Qed.

(** The position written by a frame that runs to its final [return]. *)
Lemma updater_committed_pos (M : JSMath) (dt : Q) (movement : GameA.Movement)
    (prev s' : GameState) :
  GameA.updater M dt movement prev = GameA.Committed s' ->
  playerPos s' = GameA.movePlayer (walls prev) (playerPos prev)
                   (GameA.intentDx movement) (GameA.intentDy movement).
Proof.
  unfold GameA.updater. intro H.
  destruct (Qleb (Qred (timeLeft prev - dt)) 0); [discriminate|].
  destruct (GameA.collectMoney _ (money prev) (score prev)) as [newMoney newScore].
  destruct (map_throw (GameA.patrol M) (guards prev)) as [newGuards|]; [|discriminate].
  destruct (existsb _ newGuards); [discriminate|].
  injection H as <-. reflexivity.
Qed.

Lemma movePlayer_revB_interior (walls : list Wall.t) (p : Point.t) (d : Direction) :
  inInterior 20 p -> inInterior 20 (GameB.movePlayer walls p d).
Proof.
  intros (Hx1 & Hx2 & Hy1 & Hy2). unfold GameB.movePlayer. cbv zeta.
  match goal with |- context [existsb ?f walls] => destruct (existsb f walls) end;
  cbn [negb]; unfold inInterior; cbn [Point.x Point.y].
  - repeat split; assumption.
  - repeat match goal with
    | |- context [Math_min ?a ?b] =>
        let E := fresh in
        destruct (Math_min_spec a b) as [[? E]|[? E]]; rewrite E in *; clear E
    | |- context [Math_max ?a ?b] =>
        let E := fresh in
        destruct (Math_max_spec a b) as [[? E]|[? E]]; rewrite E in *; clear E
    end;
    change (inject_Z CANVAS_WIDTH) with 600 in *;
    change (inject_Z CANVAS_HEIGHT) with 400 in *;
    change GameB.PLAYER_SIZE with 20 in *;
    repeat split; lra.
Qed.

(** C5.  Player motion is resolved axis-separately.  In the first revision
    the position written by a committed frame is, for every wall list,
    position and pair of axis deltas, the one the stated procedure yields
    (each axis tested alone and reverted on overlap, the combined position
    tested and the original kept if it overlaps although both axes passed,
    then the clamp).  The second revision moves along one axis per tick and
    tests the moved position once; from every position inside the interior,
    which its moves never leave, it yields the same position as the stated
    procedure. *)
Theorem motion_axis_separated :
  (forall M dt movement prev s',
      GameA.updater M dt movement prev = GameA.Committed s' ->
      Point_eqv (playerPos s')
        (spec_move 30 (walls prev) (playerPos prev)
           (GameA.intentDx movement) (GameA.intentDy movement))) /\
  (forall walls p dx dy,
      Point_eqv (GameA.movePlayer walls p dx dy) (spec_move 30 walls p dx dy)) /\
  (forall walls p d,
      inInterior 20 p ->
      Point_eqv (GameB.movePlayer walls p d)
        (spec_move 20 walls p (dirDx d) (dirDy d)) /\
      inInterior 20 (GameB.movePlayer walls p d)).
Proof.
  split; [|split].
  - intros M dt movement prev s' H.
    rewrite (updater_committed_pos M dt movement prev s' H).
    apply movePlayer_revA.
  - apply movePlayer_revA.
  - intros walls p d Hp. split.
    + now apply movePlayer_revB.
    + now apply movePlayer_revB_interior.
Qed.

(** * Random computations *)

Lemma bind_Ok {A B} (c : Rand A) (f : A -> Rand B) rng k r :
  bind c f rng k = Ok r ->
  exists a k1, c rng k = Ok (a, k1) /\ f a rng k1 = Ok r.
Proof.
  unfold bind. destruct (c rng k) as [[a k1]| |]; try discriminate.
  intro H. now exists a, k1.
Qed.

Lemma bind_Ok_intro {A B} (c : Rand A) (f : A -> Rand B) rng k a k1 r :
  c rng k = Ok (a, k1) -> f a rng k1 = r -> bind c f rng k = r.
Proof. unfold bind. now intros -> ->. Qed.

Lemma for_push_length {A} (body : nat -> Rand A) n i rng k l k' :
  for_push body i n rng k = Ok (l, k') -> List.length l = n.
Proof.
  revert i k l k'. induction n as [|n IH]; intros i k l k' H; simpl in H.
  - injection H as <- _. reflexivity.
  - apply bind_Ok in H as (a & k1 & _ & H).
    apply bind_Ok in H as (rest & k2 & Hrest & H).
    injection H as <- _. simpl. f_equal. eapply IH, Hrest.
Qed.

Lemma for_push_Forall {A} (P : A -> Prop) (body : nat -> Rand A) :
  (forall i rng k a k', body i rng k = Ok (a, k') -> P a) ->
  forall n i rng k l k', for_push body i n rng k = Ok (l, k') -> Forall P l.
Proof.
  intros HP. induction n as [|n IH]; intros i rng k l k' H; simpl in H.
  - injection H as <- _. constructor.
  - apply bind_Ok in H as (a & k1 & Ha & H).
    apply bind_Ok in H as (rest & k2 & Hrest & H).
    injection H as <- _. constructor; [eapply HP, Ha | eapply IH, Hrest].
Qed.

Lemma for_push_total {A} (body : nat -> Rand A) (rng : nat -> Q) :
  (forall i k, exists a k', body i rng k = Ok (a, k')) ->
  forall n i k, exists l k', for_push body i n rng k = Ok (l, k').
Proof.
  intros Hb. induction n as [|n IH]; intros i k; simpl.
  - now exists [], k.
  - destruct (Hb i k) as (a & k1 & Ha).
    destruct (IH (S i) k1) as (rest & k2 & Hrest).
    exists (a :: rest), k2.
    eapply bind_Ok_intro; [exact Ha|].
    eapply bind_Ok_intro; [exact Hrest|]. reflexivity.
Qed.

(** ** The sampling loop of [generateMoney] *)

Lemma drawPos_eq rng k : drawPos rng k = Ok (drawnAt rng k, S (S k)).
Proof. reflexivity. Qed.

Lemma samplePos_step margin walls fuel rng k :
  samplePos margin walls (S fuel) rng k =
  if validPos margin walls (drawnAt rng k) then Ok (drawnAt rng k, S (S k))
  else samplePos margin walls fuel rng (S (S k)).
Proof.
  simpl. unfold bind at 1. rewrite drawPos_eq.
  destruct (validPos margin walls (drawnAt rng k)); reflexivity.
Qed.

Lemma samplePos_mono margin walls fuel fuel' rng k r :
  samplePos margin walls fuel rng k = Ok r -> (fuel <= fuel')%nat ->
  samplePos margin walls fuel' rng k = Ok r.
Proof.
  revert fuel' k. induction fuel as [|fuel IH]; intros fuel' k H Hle.
  - discriminate.
  - destruct fuel' as [|fuel']; [lia|].
    rewrite samplePos_step in *.
    destruct (validPos margin walls (drawnAt rng k)); [exact H|].
    apply IH; [exact H|lia].
Qed.

Lemma samplePos_valid margin walls fuel rng k pos k' :
  samplePos margin walls fuel rng k = Ok (pos, k') ->
  validPos margin walls pos = true /\
  exists j, pos = drawnAt rng (k + 2 * j) /\ k' = (k + 2 * j + 2)%nat /\
            forall j', (j' < j)%nat ->
              validPos margin walls (drawnAt rng (k + 2 * j')) = false.
Proof.
  revert k. induction fuel as [|fuel IH]; intros k H; [discriminate|].
  rewrite samplePos_step in H.
  destruct (validPos margin walls (drawnAt rng k)) eqn:V.
  - injection H as <- <-. split; [exact V|].
    exists 0%nat. replace (k + 2 * 0)%nat with k by lia.
    repeat split; [lia|]. intros j' Hj. exfalso. lia.
  - apply IH in H as (Hv & j & -> & -> & Hrej). split; [exact Hv|].
    exists (S j). repeat split.
    + f_equal. lia.
    + lia.
    + intros j' Hj. destruct j' as [|j'].
      * replace (k + 2 * 0)%nat with k by lia. exact V.
      * replace (k + 2 * S j')%nat with (S (S k) + 2 * j')%nat by lia.
        apply Hrej. lia.
Qed.

Lemma samplePos_terminates margin walls rng j : forall k,
  validPos margin walls (drawnAt rng (k + 2 * j)) = true ->
  exists pos k', samplePos margin walls (S j) rng k = Ok (pos, k').
Proof.
  induction j as [|j IH]; intros k V; rewrite samplePos_step.
  - replace (k + 2 * 0)%nat with k in V by lia. rewrite V. eauto.
  - destruct (validPos margin walls (drawnAt rng k)); [eauto|].
    apply IH. replace (S (S k) + 2 * j)%nat with (k + 2 * S j)%nat by lia.
    exact V.
Qed.

(** No draw is ever accepted: the loop does not end, whatever the fuel. *)
Lemma samplePos_starves margin walls rng :
  (forall n, validPos margin walls (drawnAt rng n) = false) ->
  forall fuel k, samplePos margin walls fuel rng k = OutOfFuel.
Proof.
  intros Hrej. induction fuel as [|fuel IH]; intro k; [reflexivity|].
  rewrite samplePos_step, Hrej. apply IH.
Qed.

Lemma generateMoney_with_unfold margin fuel floor walls :
  generateMoney_with margin fuel floor walls =
  for_push (bill margin walls fuel floor) 0 (Z.to_nat (5 + floor * 2)).
Proof. reflexivity. Qed.

Lemma bills_mono margin walls floor fuel fuel' rng :
  (fuel <= fuel')%nat ->
  forall n i k r,
    for_push (bill margin walls fuel floor) i n rng k = Ok r ->
    for_push (bill margin walls fuel' floor) i n rng k = Ok r.
Proof.
  intros Hle. induction n as [|n IH]; intros i k r H; simpl in *; [exact H|].
  apply bind_Ok in H as (a & k1 & Ha & H).
  apply bind_Ok in H as (rest & k2 & Hrest & H).
  unfold bill in Ha. apply bind_Ok in Ha as (pos & k0 & Hpos & Ha).
  eapply bind_Ok_intro.
  - unfold bill. eapply bind_Ok_intro.
    + eapply samplePos_mono; [exact Hpos|exact Hle].
    + exact Ha.
  - eapply bind_Ok_intro; [apply IH, Hrest|exact H].
Qed.

Lemma bills_terminate margin walls floor rng k :
  eventuallyValid margin walls rng k ->
  forall n i a, exists fuel l k',
    for_push (bill margin walls fuel floor) i n rng (k + 2 * a)%nat = Ok (l, k').
Proof.
  intros Hev. induction n as [|n IH]; intros i a.
  - exists 0%nat, [], (k + 2 * a)%nat. reflexivity.
  - destruct (Hev a) as (j & V).
    replace (k + 2 * (a + j))%nat with (k + 2 * a + 2 * j)%nat in V by lia.
    destruct (samplePos_terminates margin walls rng j _ V) as (pos & k1 & Hpos).
    pose proof (samplePos_valid _ _ _ _ _ _ _ Hpos) as (_ & j' & _ & Hk1 & _).
    assert (Ea : k1 = (k + 2 * (a + j' + 1))%nat) by lia.
    destruct (IH (S i) (a + j' + 1)%nat) as (fuel & rest & k2 & Hrest).
    rewrite <- Ea in Hrest.
    exists (Nat.max (S j) fuel). eexists. exists k2. cbn [for_push].
    eapply bind_Ok_intro.
    + unfold bill. eapply bind_Ok_intro.
      * eapply samplePos_mono; [exact Hpos|lia].
      * reflexivity.
    + eapply bind_Ok_intro.
      * eapply bills_mono; [|exact Hrest]. lia.
      * reflexivity.
Qed.

Lemma bill_placed margin walls fuel floor i rng k m k' :
  bill margin walls fuel floor i rng k = Ok (m, k') ->
  validPos margin walls (Money.pos m) = true /\
  Money.value m = (100 * floor)%Z /\ Money.collected m = false.
Proof.
  unfold bill. intro H. apply bind_Ok in H as (pos & k0 & Hpos & H).
  injection H as <- _. cbn. apply samplePos_valid in Hpos as [V _]. auto.
Qed.

Lemma freeBox_valid margin walls a b c d :
  freeBox margin walls a b c d = true ->
  forall pos, a <= Point.x pos <= b -> c <= Point.y pos <= d ->
    validPos margin walls pos = true.
Proof.
  intros Hfree pos [Hxa Hxb] [Hyc Hyd].
  unfold validPos. apply negb_true_iff.
  destruct (existsb (inMargin margin pos) walls) eqn:E; [|reflexivity].
  apply existsb_exists in E as (w & Hin & Hw).
  unfold freeBox in Hfree. rewrite forallb_forall in Hfree.
  specialize (Hfree w Hin). apply negb_true_iff in Hfree.
  unfold inMargin, Qgtb in Hw.
  apply andb_prop in Hw as [Hw H4]. apply andb_prop in Hw as [Hw H3].
  apply andb_prop in Hw as [H1 H2].
  apply Qltb_lt in H1, H2, H3, H4.
  unfold Qgtb in Hfree.
  assert (E1 : Qltb (Wall.x w - margin) b = true) by (apply Qltb_lt; lra).
  assert (E2 : Qltb a (Wall.x w + Wall.w w + margin) = true)
    by (apply Qltb_lt; lra).
  assert (E3 : Qltb (Wall.y w - margin) d = true) by (apply Qltb_lt; lra).
  assert (E4 : Qltb c (Wall.y w + Wall.h w + margin) = true)
    by (apply Qltb_lt; lra).
  rewrite E1, E2, E3, E4 in Hfree. discriminate.
Qed.

Lemma obstacle_period (off f i : Z) :
  (0 <= f)%Z -> (0 <= i)%Z -> obstacle off (f + 300) i = obstacle off f i.
Proof.
  intros Hf Hi. rewrite !obstacle_spec by lia. unfold spec_obstacle.
  replace ((f + 300) * 12345 + i * 150)%Z
    with (f * 12345 + i * 150 + 8230 * (600 - 150))%Z by lia.
  replace ((f + 300) * 12345 + i * 100)%Z
    with (f * 12345 + i * 100 + 14814 * (400 - 150))%Z by lia.
  replace ((f + 300) * 12345 * (i + 1))%Z
    with (f * 12345 * (i + 1) + (37035 * (i + 1)) * 100)%Z by lia.
  replace ((f + 300) * 12345 * (i + 2))%Z
    with (f * 12345 * (i + 2) + (37035 * (i + 2)) * 100)%Z by lia.
  rewrite !Z.mod_add by lia. reflexivity.
Qed.

Lemma generateWalls_period (off f : Z) :
  (5 <= f)%Z -> generateWalls_with off (f + 300) = generateWalls_with off f.
Proof.
  intro Hf. unfold generateWalls_with, numObstacles.
  replace (Z.min (3 + (f + 300)) 8) with 8%Z by lia.
  replace (Z.min (3 + f) 8) with 8%Z by lia.
  f_equal. apply map_ext. intro i. apply obstacle_period; lia.
Qed.

Lemma generateWalls_periods (off f : Z) (n : nat) :
  (5 <= f)%Z ->
  generateWalls_with off (f + 300 * Z.of_nat n) = generateWalls_with off f.
Proof.
  intro Hf. induction n as [|n IH].
  - f_equal. lia.
  - replace (f + 300 * Z.of_nat (S n))%Z with (f + 300 * Z.of_nat n + 300)%Z by lia.
    rewrite generateWalls_period by lia. exact IH.
Qed.

(** Every layout is one of the first 304. *)
Lemma generateWalls_representative (off floor : Z) :
  (1 <= floor)%Z ->
  exists f, (1 <= f <= 304)%nat /\
            generateWalls_with off floor = generateWalls_with off (Z.of_nat f).
Proof.
  intro Hf. destruct (Z_lt_le_dec floor 305) as [Hs|Hl].
  - exists (Z.to_nat floor). split; [lia|]. f_equal. lia.
  - pose proof (Z.mod_pos_bound (floor - 5) 300 ltac:(lia)) as Hm.
    pose proof (Z.div_mod (floor - 5) 300 ltac:(lia)) as Hd.
    assert (0 <= (floor - 5) / 300)%Z by (apply Z.div_pos; lia).
    exists (Z.to_nat (5 + (floor - 5) mod 300)). split; [lia|].
    replace floor
      with (Z.of_nat (Z.to_nat (5 + (floor - 5) mod 300))
            + 300 * Z.of_nat (Z.to_nat ((floor - 5) / 300)))%Z at 1 by lia.
    apply generateWalls_periods. lia.
Qed.

Lemma corner_free_first_floors :
  forallb (fun f => freeBox 15 (GameA.generateWalls (Z.of_nat f)) 40 50 335 360)
          (seq 1 304) = true.
Proof. vm_compute. reflexivity. Qed.

Lemma corner_free (floor : Z) :
  (1 <= floor)%Z -> freeBox 15 (GameA.generateWalls floor) 40 50 335 360 = true.
Proof.
  intro Hf. unfold GameA.generateWalls.
  destruct (generateWalls_representative 20 floor Hf) as (f & Hr & ->).
  pose proof corner_free_first_floors as H. rewrite forallb_forall in H.
  apply (H f). apply in_seq. lia.
Qed.

Lemma generateMoney_mono margin floor walls fuel fuel' rng k r :
  generateMoney_with margin fuel floor walls rng k = Ok r -> (fuel <= fuel')%nat ->
  generateMoney_with margin fuel' floor walls rng k = Ok r.
Proof.
  rewrite !generateMoney_with_unfold. intros H Hle.
  eapply bills_mono; eassumption.
Qed.

Lemma generateMoney_placed margin floor walls fuel rng k ms k' :
  generateMoney_with margin fuel floor walls rng k = Ok (ms, k') ->
  List.length ms = Z.to_nat (5 + floor * 2) /\
  Forall (fun m => validPos margin walls (Money.pos m) = true /\
                   Money.value m = (100 * floor)%Z /\
                   Money.collected m = false) ms.
Proof.
  rewrite generateMoney_with_unfold. intro H. split.
  - eapply for_push_length, H.
  - eapply for_push_Forall; [|exact H].
    intros i rng0 k0 a k0' Ha. eapply bill_placed, Ha.
Qed.

Lemma generateMoney_total margin floor walls rng k :
  eventuallyValid margin walls rng k ->
  exists fuel ms k', generateMoney_with margin fuel floor walls rng k = Ok (ms, k').
Proof.
  intro Hev.
  destruct (bills_terminate margin walls floor rng k Hev
              (Z.to_nat (5 + floor * 2)) 0%nat 0%nat) as (fuel & ms & k' & H).
  replace (k + 2 * 0)%nat with k in H by lia.
  exists fuel, ms, k'. rewrite generateMoney_with_unfold. exact H.
Qed.

Lemma generateMoney_starves margin floor walls rng :
  (1 <= floor)%Z ->
  (forall n, validPos margin walls (drawnAt rng n) = false) ->
  forall fuel k, generateMoney_with margin fuel floor walls rng k = OutOfFuel.
Proof.
  intros Hf Hrej fuel k. rewrite generateMoney_with_unfold.
  destruct (Z.to_nat (5 + floor * 2)) as [|n] eqn:E; [lia|].
  cbn [for_push]. unfold bind at 1. unfold bill at 1. unfold bind at 1.
  now rewrite samplePos_starves.
Qed.

Lemma cornerDraws_unit : unitDraws cornerDraws.
Proof. intro n. unfold cornerDraws. destruct (Nat.even n); split; lra. Qed.

(** Read from an even cursor these draws give the point (40, 340), which
    every floor accepts. *)
Lemma cornerDraws_valid floor k :
  (1 <= floor)%Z -> Nat.even k = true ->
  eventuallyValid 15 (GameA.generateWalls floor) cornerDraws k.
Proof.
  intros Hf Hk i. exists 0%nat.
  assert (E : Nat.even (k + 2 * (i + 0)) = true).
  { rewrite Nat.even_add, Hk, Nat.even_mul. reflexivity. }
  apply (freeBox_valid 15 _ 40 50 335 360 (corner_free floor Hf));
    unfold drawnAt, cornerDraws; cbn [Point.x Point.y];
    rewrite ?Nat.even_succ, <- ?Nat.negb_even, E; cbn [negb];
    change (inject_Z (CANVAS_WIDTH - 80)) with 520;
    change (inject_Z (CANVAS_HEIGHT - 80)) with 320; lra.
Qed.

(** C9.  For every floor >= 1 and the walls generated for it, the draws
    with [x] in [[40, 50]] and [y] in [[335, 360)] are accepted: a valid
    point exists and each round of the loop has a positive chance to draw
    one.  Whenever valid points are eventually sampled, [generateMoney]
    ends with enough rounds allowed (and with any larger number it returns
    the same list): it returns [5 + 2*floor] bills, each placed on an
    accepted point, worth [100*floor] and uncollected.  Without a retry
    bound this is also necessary: if no draw is ever accepted, no number of
    rounds suffices.  Draws in [0, 1) on which valid points are eventually
    sampled exist for every floor. *)
Theorem generateMoney_terminates (floor : Z) :
  (1 <= floor)%Z ->
  (forall rng n, 0 <= rng n <= 1 # 52 -> 59 # 64 <= rng (S n) < 1 ->
     validPos 15 (GameA.generateWalls floor) (drawnAt rng n) = true) /\
  (forall rng k, eventuallyValid 15 (GameA.generateWalls floor) rng k ->
     exists fuel ms k',
       GameA.generateMoney fuel floor (GameA.generateWalls floor) rng k = Ok (ms, k') /\
       (forall fuel', (fuel <= fuel')%nat ->
          GameA.generateMoney fuel' floor (GameA.generateWalls floor) rng k
          = Ok (ms, k')) /\
       List.length ms = Z.to_nat (5 + 2 * floor) /\
       Forall (fun m => validPos 15 (GameA.generateWalls floor) (Money.pos m) = true /\
                        Money.value m = (100 * floor)%Z /\
                        Money.collected m = false) ms) /\
  (forall rng,
     (forall n, validPos 15 (GameA.generateWalls floor) (drawnAt rng n) = false) ->
     forall fuel k,
       GameA.generateMoney fuel floor (GameA.generateWalls floor) rng k = OutOfFuel) /\
  (unitDraws cornerDraws /\
   forall k, Nat.even k = true ->
     eventuallyValid 15 (GameA.generateWalls floor) cornerDraws k).
Proof.
  intro Hf. split; [|split; [|split]].
  - intros rng n [H1 H2] [H3 H4].
    apply (freeBox_valid 15 _ 40 50 335 360 (corner_free floor Hf));
      unfold drawnAt; cbn [Point.x Point.y];
      change (inject_Z (CANVAS_WIDTH - 80)) with 520;
      change (inject_Z (CANVAS_HEIGHT - 80)) with 320; lra.
  - intros rng k Hev.
    destruct (generateMoney_total 15 floor _ rng k Hev) as (fuel & ms & k' & H).
    exists fuel, ms, k'. split; [exact H|]. split.
    + intros fuel' Hle. eapply generateMoney_mono; eassumption.
    + apply generateMoney_placed in H as [Hlen Hall].
      split; [|exact Hall]. rewrite Hlen. f_equal. lia.
  - intros rng Hrej fuel k. now apply generateMoney_starves.
  - split; [exact cornerDraws_unit|]. intros k Hk. now apply cornerDraws_valid.
Qed.

(** * Guards and floors as generated *)

Lemma generateGuards_fresh cap floor walls rng k gs k' :
  generateGuards_with cap floor walls rng k = Ok (gs, k') ->
  List.length gs = Z.to_nat (Z.min (1 + floor / 2) cap) /\
  Forall (freshGuard floor) gs.
Proof.
  unfold generateGuards_with. intro H. split.
  - eapply for_push_length, H.
  - eapply for_push_Forall; [|exact H].
    intros i rng0 k0 a k0' Ha. cbv beta in Ha.
    unfold bind, Math_random, ret in Ha. injection Ha as <- _.
    repeat split; reflexivity.
Qed.

Lemma generateGuards_total cap floor walls rng k :
  exists gs k', generateGuards_with cap floor walls rng k = Ok (gs, k').
Proof.
  unfold generateGuards_with. apply for_push_total.
  intros i k0. eexists. eexists. reflexivity.
Qed.

(** What [initFloor] builds when its money loop ends. *)
Lemma initFloor_built fuel floor prevScore rng k s' k' :
  GameA.initFloor fuel floor prevScore rng k = Ok (s', k') ->
  exists newMoney newGuards newPassword k1 k2,
    GameA.generateMoney fuel floor (GameA.generateWalls floor) rng k = Ok (newMoney, k1) /\
    GameA.generateGuards floor (GameA.generateWalls floor) rng k1 = Ok (newGuards, k2) /\
    generatePassword rng k2 = Ok (newPassword, k') /\
    s' = mkGameState (Point.mk 50 50) floor prevScore newMoney
           (GameA.generateWalls floor) newGuards newPassword false
           (Point.mk 550 350) false false false "" 60.
Proof.
  unfold GameA.initFloor. intro H.
  apply bind_Ok in H as (m & k1 & Hm & H).
  apply bind_Ok in H as (g & k2 & Hg & H).
  apply bind_Ok in H as (pw & k3 & Hp & H).
  injection H as <- <-.
  exists m, g, pw, k1, k2. repeat split; assumption.
Qed.

Lemma initFloor_total floor prevScore rng k :
  eventuallyValid 15 (GameA.generateWalls floor) rng k ->
  exists fuel s' k',
    GameA.initFloor fuel floor prevScore rng k = Ok (s', k') /\
    forall fuel', (fuel <= fuel')%nat ->
      GameA.initFloor fuel' floor prevScore rng k = Ok (s', k').
Proof.
  intro Hev.
  destruct (generateMoney_total 15 floor _ rng k Hev) as (fuel & ms & k1 & Hm).
  destruct (generateGuards_total 4 floor (GameA.generateWalls floor) rng k1)
    as (gs & k2 & Hg).
  exists fuel. eexists. eexists. split.
  - unfold GameA.initFloor.
    eapply bind_Ok_intro; [exact Hm|].
    eapply bind_Ok_intro; [exact Hg|].
    eapply bind_Ok_intro; [reflexivity|]. reflexivity.
  - intros fuel' Hle. unfold GameA.initFloor.
    eapply bind_Ok_intro; [eapply generateMoney_mono; eassumption|].
    eapply bind_Ok_intro; [exact Hg|].
    eapply bind_Ok_intro; [reflexivity|]. reflexivity.
Qed.

Lemma freshGuard_inBounds floor g : freshGuard floor g -> indexInBounds g.
Proof. intros (Hl & Hi & _). unfold indexInBounds. lia. Qed.


Lemma patrol_inBounds (M : JSMath) (g g' : Guard.t) :
  GameA.patrol M g = Some g' -> indexInBounds g'.
Proof.
  unfold GameA.patrol, indexInBounds. intro H.
  destruct (nth_error (Guard.path g) (Guard.currentPathIndex g)) as [target|] eqn:T;
    [|discriminate].
  assert (Hlt : (Guard.currentPathIndex g < List.length (Guard.path g))%nat)
    by (apply nth_error_Some; congruence).
  cbv zeta in H.
  match type of H with
  | (if ?c then _ else _) = _ => destruct c
  end; injection H as <-; cbn [Guard.currentPathIndex Guard.path].
  - split; [lia|]. apply Nat.mod_upper_bound. lia.
  - lia.
Qed.

Lemma patrol_defined (M : JSMath) (g : Guard.t) :
  indexInBounds g -> exists g', GameA.patrol M g = Some g'.
Proof.
  unfold indexInBounds, GameA.patrol. intros [_ Hlt].
  destruct (nth_error (Guard.path g) (Guard.currentPathIndex g)) as [target|] eqn:T.
  - cbv zeta. match goal with |- context [if ?c then _ else _] => destruct c end; eauto.
  - apply nth_error_None in T. lia.
Qed.

Lemma map_throw_Forall {A B} (f : A -> option B) (P : B -> Prop) :
  (forall a b, f a = Some b -> P b) ->
  forall l l', map_throw f l = Some l' -> Forall P l'.
Proof.
  intro HP. induction l as [|a l IH]; intros l' H; simpl in H.
  - injection H as <-. constructor.
  - destruct (f a) as [b|] eqn:Fa; [|discriminate].
    destruct (map_throw f l) as [bs|]; [|discriminate].
    injection H as <-. constructor; [eapply HP, Fa | now apply IH].
Qed.

Lemma map_throw_defined {A B} (f : A -> option B) (P : A -> Prop) :
  (forall a, P a -> exists b, f a = Some b) ->
  forall l, Forall P l -> exists l', map_throw f l = Some l'.
Proof.
  intros Hf l Hl. induction Hl as [|a l Ha _ IH]; simpl.
  - eauto.
  - destruct (Hf a Ha) as (b & ->). destruct IH as (bs & ->). eauto.
Qed.

(** ** The four ways a frame can end *)

Lemma updater_inv (M : JSMath) (dt : Q) (movement : GameA.Movement) (prev : GameState) :
  let newPos := GameA.movePlayer (walls prev) (playerPos prev)
                  (GameA.intentDx movement) (GameA.intentDy movement) in
  match GameA.updater M dt movement prev with
  | GameA.TimedOut penScore =>
      timeLeft prev - dt <= 0 /\
      penScore = Z.max 0 (score prev - 500)
  | GameA.Caught =>
      0 < timeLeft prev - dt /\
      exists newGuards,
        map_throw (GameA.patrol M) (guards prev) = Some newGuards /\
        existsb (GameA.caughtBy newPos) newGuards = true
  | GameA.Committed s' =>
      0 < timeLeft prev - dt /\
      exists newGuards,
        map_throw (GameA.patrol M) (guards prev) = Some newGuards /\
        existsb (GameA.caughtBy newPos) newGuards = false /\
        playerPos s' = newPos /\
        money s' = fst (GameA.collectMoney newPos (money prev) (score prev)) /\
        score s' = snd (GameA.collectMoney newPos (money prev) (score prev)) /\
        guards s' = newGuards /\
        timeLeft s' = Qred (timeLeft prev - dt) /\
        currentFloor s' = currentFloor prev /\ walls s' = walls prev /\
        password s' = password prev /\ doorPos s' = doorPos prev /\
        isPaused s' = isPaused prev /\ isGameOver s' = isGameOver prev /\
        lastPasswordFound s' = lastPasswordFound prev /\
        (foundPassword prev = true -> foundPassword s' = true) /\
        (showTerminal prev = true -> showTerminal s' = true)
  | GameA.Crashed =>
      0 < timeLeft prev - dt /\
      map_throw (GameA.patrol M) (guards prev) = None
  end.
Proof.
  intro newPos. unfold GameA.updater. fold newPos.
  destruct (Qleb (Qred (timeLeft prev - dt)) 0) eqn:T.
  - apply Qleb_le in T. rewrite Qred_correct in T. split; [exact T|reflexivity].
  - apply Qleb_gt in T. rewrite Qred_correct in T.
    destruct (GameA.collectMoney newPos (money prev) (score prev))
      as [newMoney newScore] eqn:C.
    destruct (map_throw (GameA.patrol M) (guards prev)) as [newGuards|];
      [|split; [exact T|reflexivity]].
    destruct (existsb (GameA.caughtBy newPos) newGuards) eqn:E.
    + split; [exact T|]. exists newGuards. split; [reflexivity|exact E].
    + split; [exact T|]. exists newGuards. cbn.
      repeat split; try reflexivity; try exact E.
      * intros ->. reflexivity.
      * intros ->. now destruct (near 40 _ _ _).
Qed.

Lemma update_frozen (M : JSMath) fuel dt movement s rng k :
  live s = false -> GameA.update M fuel dt movement s rng k = Ok (s, k).
Proof.
  unfold live, GameA.update. intro H. apply negb_false_iff in H.
  now rewrite H.
Qed.

Lemma update_live (M : JSMath) fuel dt movement s :
  live s = true ->
  GameA.update M fuel dt movement s =
  match GameA.updater M dt movement s with
  | GameA.TimedOut penScore => GameA.initFloor fuel (currentFloor s) penScore
  | GameA.Caught => ret (set_isGameOver true s)
  | GameA.Committed s' => ret s'
  | GameA.Crashed => throw
  end.
Proof.
  unfold live, GameA.update. intro H. apply negb_true_iff in H.
  now rewrite H.
Qed.

Lemma initFloor_guardsInBounds fuel floor prevScore rng k s' k' :
  GameA.initFloor fuel floor prevScore rng k = Ok (s', k') -> guardsInBounds s'.
Proof.
  intro H. apply initFloor_built in H as (m & g & pw & k1 & k2 & _ & Hg & _ & ->).
  unfold guardsInBounds; cbn [guards].
  apply generateGuards_fresh in Hg as [_ Hg].
  eapply Forall_impl; [|exact Hg]. intros a. apply freshGuard_inBounds.
Qed.

Lemma update_guardsInBounds (M : JSMath) fuel dt movement s rng k s' k' :
  guardsInBounds s ->
  GameA.update M fuel dt movement s rng k = Ok (s', k') -> guardsInBounds s'.
Proof.
  intros Hs H. destruct (live s) eqn:L.
  - rewrite update_live in H by exact L.
    pose proof (updater_inv M dt movement s) as Inv. cbv zeta in Inv.
    destruct (GameA.updater M dt movement s) as [pen| |c|].
    + eapply initFloor_guardsInBounds, H.
    + injection H as <- _. exact Hs.
    + injection H as <- _.
      destruct Inv as (_ & newGuards & Hmap & _ & _ & _ & _ & Hg & _).
      unfold guardsInBounds. rewrite Hg.
      eapply map_throw_Forall; [|exact Hmap].
      intros a b. apply patrol_inBounds.
    + discriminate.
  - rewrite update_frozen in H by exact L. injection H as <- _. exact Hs.
Qed.

Lemma reachable_guardsInBounds (M : JSMath) (s : GameState) :
  reachable M s -> guardsInBounds s.
Proof.
  induction 1 as [ | s fuel rng k s' k' _ IH _ H
                   | s fuel dt mv rng k s' k' _ IH _ H
                   | s _ IH
                   | s fuel code rng k s' k' _ IH _ _ _ H
                   | s _ IH _ _ ].
  - constructor.
  - eapply initFloor_guardsInBounds, H.
  - eapply update_guardsInBounds; eassumption.
  - exact IH.
  - unfold GameA.handlePasswordSubmit in H.
    destruct (String.eqb code (password s)).
    + eapply initFloor_guardsInBounds, H.
    + injection H as <- _. exact IH.
  - exact IH.
Qed.

(** In a reachable state no frame throws. *)
Lemma reachable_never_throws (M : JSMath) (s : GameState) fuel dt movement rng k :
  reachable M s -> GameA.update M fuel dt movement s rng k <> Thrown.
Proof.
  intros Hr. pose proof (reachable_guardsInBounds M s Hr) as Hg.
  destruct (live s) eqn:L.
  - rewrite update_live by exact L.
    pose proof (updater_inv M dt movement s) as Inv. cbv zeta in Inv.
    destruct (GameA.updater M dt movement s) as [pen| |c|]; try discriminate.
    + unfold GameA.initFloor. intro H.
      unfold bind in H.
      destruct (GameA.generateMoney fuel (currentFloor s) _ rng k) as [[m k1]| |] eqn:Hm.
      * destruct (generateGuards_total 4 (currentFloor s)
                    (GameA.generateWalls (currentFloor s)) rng k1) as (gs & k2 & Hgs).
        unfold GameA.generateGuards in H. rewrite Hgs in H. discriminate.
      * discriminate.
      * unfold GameA.generateMoney in Hm. rewrite generateMoney_with_unfold in Hm.
        clear - Hm. revert Hm. generalize 0%nat at 1. generalize k.
        induction (Z.to_nat (5 + currentFloor s * 2)) as [|n IH]; intros k0 i Hm;
          [discriminate|].
        cbn [for_push] in Hm. unfold bind at 1 in Hm.
        destruct (bill 15 _ fuel (currentFloor s) i rng k0) as [[a k1]| |] eqn:Hb.
        -- unfold bind at 1 in Hm.
           destruct (for_push _ (S i) n rng k1) as [[r k2]| |] eqn:Hr;
             try discriminate. eapply IH, Hr.
        -- discriminate.
        -- unfold bill, bind in Hb.
           destruct (samplePos 15 _ fuel rng k0) as [[p k1]| |] eqn:Hp;
             try discriminate.
           clear - Hp. revert k0 Hp.
           induction fuel as [|fuel IHf]; intros k0 Hp; [discriminate|].
           rewrite samplePos_step in Hp.
           destruct (validPos _ _ _); [discriminate|]. eapply IHf, Hp.
    + destruct Inv as [_ Hnone].
      destruct (map_throw_defined (GameA.patrol M) indexInBounds
                  (patrol_defined M) (guards s) Hg) as (l & Hl).
      congruence.
  - rewrite update_frozen by exact L. discriminate.
Qed.

Lemma zeroDraws_unit : unitDraws zeroDraws.
Proof. intro n. unfold zeroDraws. split; lra. Qed.

Lemma floorOne_built : GameA.resetGame 1 zeroDraws 0%nat = Ok (floorOne, 18%nat).
Proof. vm_compute. reflexivity. Qed.

Lemma floorOne_reachable (M : JSMath) : reachable M floorOne.
Proof.
  eapply reach_reset; [apply reach_initial | apply zeroDraws_unit | apply floorOne_built].
Qed.

Lemma zeroDraws_valid_floorOne k :
  eventuallyValid 15 (GameA.generateWalls 1) zeroDraws k.
Proof. intro i. exists 0%nat. vm_compute. reflexivity. Qed.



(** * Capture *)

Lemma caughtBy_iff (newPos : Point.t) (g : Guard.t) :
  GameA.caughtBy newPos g = true <->
  Qabs (Point.x (Guard.pos g) - (Point.x newPos + 15)) < 25 /\
  Qabs (Point.y (Guard.pos g) - (Point.y newPos + 15)) < 25.
Proof.
  unfold GameA.caughtBy, near, GameA.centerX, GameA.centerY.
  rewrite andb_true_iff, !Qltb_lt.
  assert (E : GameA.PLAYER_SIZE / 2 == 15) by reflexivity.
  rewrite !E. reflexivity.
Qed.

Lemma update_caught (M : JSMath) fuel dt movement s rng k newGuards :
  live s = true ->
  0 < timeLeft s - dt ->
  map_throw (GameA.patrol M) (guards s) = Some newGuards ->
  existsb (GameA.caughtBy
             (GameA.movePlayer (walls s) (playerPos s)
                (GameA.intentDx movement) (GameA.intentDy movement)))
          newGuards = true ->
  GameA.update M fuel dt movement s rng k = Ok (set_isGameOver true s, k).
Proof.
  intros L T Hmap Hc. rewrite update_live by exact L.
  unfold GameA.updater.
  assert (T' : Qleb (Qred (timeLeft s - dt)) 0 = false)
    by (apply Qleb_gt; now rewrite Qred_correct).
  rewrite T'.
  destruct (GameA.collectMoney _ (money s) (score s)) as [newMoney newScore].
  rewrite Hmap, Hc. reflexivity.
Qed.

Lemma gameLoop_caught (M : JSMath) fuel hasStarted moveDir s rng k newGuards :
  GameB.running hasStarted s = true ->
  map_throw (GameB.patrol M) (guards s) = Some newGuards ->
  existsb (GameB.caughtBy
             (Point.x (GameB.movePlayer (walls s) (playerPos s) moveDir))
             (Point.y (GameB.movePlayer (walls s) (playerPos s) moveDir)))
          newGuards = true ->
  GameB.gameLoop M fuel hasStarted moveDir s rng k = Ok (set_isGameOver true s, k).
Proof.
  intros R Hmap Hc. unfold GameB.gameLoop. rewrite R.
  unfold GameB.loopUpdater. cbv zeta.
  destruct (GameB.collectMoney _ _ (money s) (score s)) as [newMoney newScore].
  rewrite Hmap, Hc. reflexivity.
Qed.

(** The state left by a capture differs from the previous one in
    [isGameOver] only. *)
Lemma set_isGameOver_frame (s : GameState) :
  let s' := set_isGameOver true s in
  isGameOver s' = true /\
  playerPos s' = playerPos s /\ currentFloor s' = currentFloor s /\
  score s' = score s /\ money s' = money s /\ walls s' = walls s /\
  guards s' = guards s /\ password s' = password s /\
  foundPassword s' = foundPassword s /\ doorPos s' = doorPos s /\
  isPaused s' = isPaused s /\ showTerminal s' = showTerminal s /\
  lastPasswordFound s' = lastPasswordFound s /\ timeLeft s' = timeLeft s.
Proof. cbn. repeat split; reflexivity. Qed.

(** C10.  On a tick where a capture occurs the returned state is the
    previous state with only [isGameOver] set: the player's move, the
    collections and score gains, the guards' moves and the timer decrement
    computed in that tick are discarded.  Both revisions. *)
Theorem capture_is_atomic (M : JSMath) :
  (forall fuel dt movement s rng k newGuards,
     live s = true ->
     0 < timeLeft s - dt ->
     map_throw (GameA.patrol M) (guards s) = Some newGuards ->
     existsb (GameA.caughtBy
                (GameA.movePlayer (walls s) (playerPos s)
                   (GameA.intentDx movement) (GameA.intentDy movement)))
             newGuards = true ->
     GameA.update M fuel dt movement s rng k = Ok (set_isGameOver true s, k)) /\
  (forall fuel hasStarted moveDir s rng k newGuards,
     GameB.running hasStarted s = true ->
     map_throw (GameB.patrol M) (guards s) = Some newGuards ->
     existsb (GameB.caughtBy
                (Point.x (GameB.movePlayer (walls s) (playerPos s) moveDir))
                (Point.y (GameB.movePlayer (walls s) (playerPos s) moveDir)))
             newGuards = true ->
     GameB.gameLoop M fuel hasStarted moveDir s rng k
     = Ok (set_isGameOver true s, k)) /\
  (forall s,
     let s' := set_isGameOver true s in
     isGameOver s' = true /\
     playerPos s' = playerPos s /\ currentFloor s' = currentFloor s /\
     score s' = score s /\ money s' = money s /\ walls s' = walls s /\
     guards s' = guards s /\ password s' = password s /\
     foundPassword s' = foundPassword s /\ doorPos s' = doorPos s /\
     isPaused s' = isPaused s /\ showTerminal s' = showTerminal s /\
     lastPasswordFound s' = lastPasswordFound s /\ timeLeft s' = timeLeft s).
Proof.
  split; [|split].
  - intros. now apply update_caught with (newGuards := newGuards).
  - intros. now apply gameLoop_caught with (newGuards := newGuards).
  - apply set_isGameOver_frame.
Qed.

(** * Collection *)

Lemma collectMoney_score newPos ms sc :
  snd (GameA.collectMoney newPos ms sc) = (sc + gain newPos ms)%Z.
Proof.
  revert sc. induction ms as [|m ms IH]; intro sc; simpl.
  - lia.
  - destruct (GameA.collectible newPos m).
    + specialize (IH (sc + Money.value m)%Z).
      destruct (GameA.collectMoney newPos ms (sc + Money.value m)%Z). simpl in *. lia.
    + specialize (IH sc).
      destruct (GameA.collectMoney newPos ms sc). simpl in *. lia.
Qed.

Lemma collectMoney_list newPos ms sc :
  fst (GameA.collectMoney newPos ms sc) =
  map (fun m => if GameA.collectible newPos m then Money.collect m else m) ms.
Proof.
  revert sc. induction ms as [|m ms IH]; intro sc; simpl; [reflexivity|].
  destruct (GameA.collectible newPos m).
  - specialize (IH (sc + Money.value m)%Z).
    destruct (GameA.collectMoney newPos ms (sc + Money.value m)%Z). simpl in *.
    now rewrite IH.
  - specialize (IH sc).
    destruct (GameA.collectMoney newPos ms sc). simpl in *. now rewrite IH.
Qed.

Lemma collectMoney_nth newPos ms sc i m :
  nth_error ms i = Some m ->
  nth_error (fst (GameA.collectMoney newPos ms sc)) i =
  Some (if GameA.collectible newPos m then Money.collect m else m).
Proof.
  intro H. rewrite collectMoney_list, nth_error_map, H. reflexivity.
Qed.

Lemma collectible_collected newPos m :
  Money.collected m = true -> GameA.collectible newPos m = false.
Proof. unfold GameA.collectible. now intros ->. Qed.

Lemma near_compat tol a cx cx' cy cy' :
  cx == cx' -> cy == cy' -> near tol a cx cy = near tol a cx' cy'.
Proof.
  intros Hx Hy. unfold near. f_equal; apply Qltb_compat; try reflexivity.
  - now rewrite Hx.
  - now rewrite Hy.
Qed.

Lemma collectible_compat p p' m :
  Point_eqv p p' -> GameA.collectible p m = GameA.collectible p' m.
Proof.
  intros [Hx Hy]. unfold GameA.collectible. f_equal.
  apply near_compat; unfold GameA.centerX, GameA.centerY; [now rewrite Hx|now rewrite Hy].
Qed.

(** Collecting again from the same place changes nothing. *)
Lemma collectMoney_again p p' ms sc sc' :
  Point_eqv p' p ->
  GameA.collectMoney p' (fst (GameA.collectMoney p ms sc)) sc'
  = (fst (GameA.collectMoney p ms sc), sc').
Proof.
  intro Hp. rewrite collectMoney_list. clear sc.
  revert sc'. induction ms as [|m ms IH]; intro sc'; simpl; [reflexivity|].
  rewrite (collectible_compat p' p) by exact Hp.
  destruct (GameA.collectible p m) eqn:C.
  - rewrite (collectible_collected p (Money.collect m)) by reflexivity.
    now rewrite IH.
  - rewrite C. now rewrite IH.
Qed.

Lemma gain_single newPos ms i m :
  nth_error ms i = Some m ->
  GameA.collectible newPos m = true ->
  (forall j m', j <> i -> nth_error ms j = Some m' ->
                GameA.collectible newPos m' = false) ->
  gain newPos ms = Money.value m.
Proof.
  revert i. induction ms as [|a ms IH]; intros i Hi Hc Hothers.
  - destruct i; discriminate.
  - destruct i as [|i]; simpl in *.
    + injection Hi as ->. rewrite Hc.
      assert (gain newPos ms = 0%Z) as ->; [|lia].
      clear - Hothers. induction ms as [|b ms IH]; simpl; [reflexivity|].
      rewrite (Hothers 1%nat b) by (try discriminate; reflexivity).
      rewrite IH; [reflexivity|].
      intros j m' Hj Hn. destruct j as [|j]; [congruence|].
      apply (Hothers (S (S j)) m'); [discriminate|exact Hn].
    + rewrite (Hothers 0%nat a) by (try discriminate; reflexivity).
      rewrite (IH i Hi Hc); [lia|].
      intros j m' Hj Hn. apply (Hothers (S j) m'); [congruence|exact Hn].
Qed.

(** C6 (amended).  On a live tick that neither times out nor ends in a
    capture, every uncollected bill within 25 of the player's new centre on
    both axes becomes collected, keeping its id, position and value, every
    other bill is unchanged, and the score grows by the values of the bills
    collected (by exactly its value when a single bill is).  A second such
    tick at the same position changes neither the bills nor the score.
    Within a floor instance, that is over every frame that does not time
    out, a collected bill stays collected. *)
Theorem money_collected_once (M : JSMath) :
  (forall dt movement s s',
     live s = true ->
     GameA.updater M dt movement s = GameA.Committed s' ->
     (forall i m, nth_error (money s) i = Some m ->
        Money.collected m = false ->
        near 25 (Money.pos m) (GameA.centerX (playerPos s'))
                (GameA.centerY (playerPos s')) = true ->
        nth_error (money s') i
        = Some (Money.mk (Money.id m) (Money.pos m) (Money.value m) true)) /\
     (forall i m, nth_error (money s) i = Some m ->
        Money.collected m = true \/
        near 25 (Money.pos m) (GameA.centerX (playerPos s'))
                (GameA.centerY (playerPos s')) = false ->
        nth_error (money s') i = Some m) /\
     score s' = (score s + gain (playerPos s') (money s))%Z /\
     (forall i m, nth_error (money s) i = Some m ->
        GameA.collectible (playerPos s') m = true ->
        (forall j m', j <> i -> nth_error (money s) j = Some m' ->
                      GameA.collectible (playerPos s') m' = false) ->
        score s' = (score s + Money.value m)%Z) /\
     (forall dt' movement' s'',
        GameA.updater M dt' movement' s' = GameA.Committed s'' ->
        Point_eqv (playerPos s'') (playerPos s') ->
        money s'' = money s' /\ score s'' = score s')) /\
  (forall fuel dt movement s rng k s' k',
     GameA.update M fuel dt movement s rng k = Ok (s', k') ->
     live s = false \/ 0 < timeLeft s - dt ->
     forall i m, nth_error (money s) i = Some m -> Money.collected m = true ->
                 nth_error (money s') i = Some m).
Proof.
  split.
  - intros dt movement s s' L H.
    pose proof (updater_inv M dt movement s) as Inv. cbv zeta in Inv. rewrite H in Inv.
    destruct Inv as (_ & newGuards & _ & _ & Hpos & Hmoney & Hscore & _).
    rewrite <- Hpos in Hmoney, Hscore.
    repeat split.
    + intros i m Hi Hc Hn. rewrite Hmoney, (collectMoney_nth _ _ _ _ _ Hi).
      unfold GameA.collectible. now rewrite Hc, Hn.
    + intros i m Hi Hor. rewrite Hmoney, (collectMoney_nth _ _ _ _ _ Hi).
      unfold GameA.collectible.
      destruct Hor as [-> | ->]; [reflexivity|].
      now rewrite andb_false_r.
    + rewrite Hscore. apply collectMoney_score.
    + intros i m Hi Hc Hothers. rewrite Hscore, collectMoney_score.
      f_equal. eapply gain_single; eassumption.
    + pose proof (updater_inv M dt' movement' s') as Inv'. cbv zeta in Inv'.
      rewrite H0 in Inv'.
      destruct Inv' as (_ & g' & _ & _ & Hpos' & Hmoney' & _).
      rewrite <- Hpos', Hmoney in Hmoney'.
      rewrite Hmoney', Hmoney. now rewrite collectMoney_again.
    + pose proof (updater_inv M dt' movement' s') as Inv'. cbv zeta in Inv'.
      rewrite H0 in Inv'.
      destruct Inv' as (_ & g' & _ & _ & Hpos' & _ & Hscore' & _).
      rewrite <- Hpos', Hmoney in Hscore'.
      rewrite Hscore'. now rewrite collectMoney_again.
  - intros fuel dt movement s rng k s' k' H Hor i m Hi Hc.
    destruct (live s) eqn:L.
    + destruct Hor as [?|T]; [discriminate|].
      rewrite update_live in H by exact L.
      pose proof (updater_inv M dt movement s) as Inv. cbv zeta in Inv.
      destruct (GameA.updater M dt movement s) as [pen| |c|].
      * exfalso. destruct Inv as [Inv _]. lra.
      * injection H as <- _. exact Hi.
      * injection H as <- _.
        destruct Inv as (_ & g' & _ & _ & _ & Hmoney & _).
        rewrite Hmoney, (collectMoney_nth _ _ _ _ _ Hi).
        now rewrite collectible_collected.
      * discriminate.
    + rewrite update_frozen in H by exact L. injection H as <- _. exact Hi.
Qed.

(** * Concrete runs on floor 1 *)

Lemma frames_reachable (M : JSMath) fuel rng inputs : forall s k s' k',
  unitDraws rng -> reachable M s ->
  frames M fuel inputs s rng k = Ok (s', k') -> reachable M s'.
Proof.
  induction inputs as [|[dt m] inputs IH]; intros s k s' k' Hu Hr H; simpl in H.
  - injection H as <- _. exact Hr.
  - apply bind_Ok in H as (s1 & k1 & H1 & H).
    eapply IH; [exact Hu| |exact H].
    eapply reach_update; eassumption.
Qed.

Lemma play_reachable fuel inputs rng k s' k' :
  unitDraws rng -> play fuel inputs rng k = Ok (s', k') -> reachable rationalMath s'.
Proof.
  intros Hu H. unfold play in H. apply bind_Ok in H as (s0 & k0 & H0 & H).
  eapply frames_reachable; [exact Hu| |exact H].
  eapply reach_reset; [apply reach_initial|exact Hu|exact H0].
Qed.

Lemma ambushDraws_unit : unitDraws ambushDraws.
Proof. intro n. destruct n as [|[|n]]; simpl; split; lra. Qed.

Lemma approach_run :
  play 1 (walk 3 downKey ++ walk 34 rightKey) ambushDraws 0%nat = Ok (approach, 18%nat).
Proof. vm_compute. reflexivity. Qed.

Lemma approach_reachable : reachable rationalMath approach.
Proof. exact (play_reachable _ _ _ _ _ _ ambushDraws_unit approach_run). Qed.

(** C6, as stated, fails on a tick that ends in a capture.  In the
    reachable state [approach] the next step to the right brings the
    first bill, still uncollected, within 25 of the player's new centre on
    both axes, and the guard too: the frame returns the previous state with
    [isGameOver] set, the bill uncollected and the score unchanged. *)
Lemma collection_lost_on_capture :
  reachable rationalMath approach /\ live approach = true /\
  exists m s' k',
    nth_error (money approach) 0 = Some m /\
    Point_eqv (Money.pos m) (Point.mk 262 80) /\
    Money.collected m = false /\
    near 25 (Money.pos m)
      (GameA.centerX (GameA.movePlayer (walls approach) (playerPos approach)
                        (GameA.intentDx rightKey) (GameA.intentDy rightKey)))
      (GameA.centerY (GameA.movePlayer (walls approach) (playerPos approach)
                        (GameA.intentDx rightKey) (GameA.intentDy rightKey)))
    = true /\
    GameA.update rationalMath 1 (1 # 50) rightKey approach ambushDraws 18%nat
    = Ok (s', k') /\
    isGameOver s' = true /\
    nth_error (money s') 0 = Some m /\
    score s' = score approach.
Proof.
  split; [exact approach_reachable|]. split; [vm_compute; reflexivity|].
  exists (Money.mk "money-0" (Point.mk (136240 # 520) (640 # 8)) 100 false).
  exists (set_isGameOver true approach), 18%nat.
  split; [vm_compute; reflexivity|].
  split; [split; reflexivity|].
  do 5 (split; [vm_compute; reflexivity|]). vm_compute; reflexivity.
Qed.

Lemma frames_frozen (M : JSMath) fuel inputs s rng k :
  live s = false -> frames M fuel inputs s rng k = Ok (s, k).
Proof.
  intro L. induction inputs as [|[dt m] inputs IH]; simpl; [reflexivity|].
  eapply bind_Ok_intro; [apply update_frozen, L|exact IH].
Qed.

Lemma resetGame_built fuel rng k s' k' :
  GameA.resetGame fuel rng k = Ok (s', k') ->
  currentFloor s' = 1%Z /\ score s' = 0%Z /\ isGameOver s' = false /\
  live s' = true /\ timeLeft s' = 60.
Proof.
  unfold GameA.resetGame. intro H.
  apply initFloor_built in H as (m & g & pw & k1 & k2 & _ & _ & _ & ->).
  repeat split.
Qed.

(** C3 (amended).  If on a live tick whose timer does not run out some
    guard, after its patrol step, lies within 25 of the player's new centre
    on both axes, then the tick sets [isGameOver]; from then on every
    frame, whatever its elapsed time and movement, leaves the state
    unchanged.  Restart ends (when valid points are eventually sampled) and
    re-enters floor 1 with score 0, not over and live. *)
Theorem capture_freezes_until_restart (M : JSMath) :
  (forall dt movement s newGuards g,
     live s = true ->
     0 < timeLeft s - dt ->
     map_throw (GameA.patrol M) (guards s) = Some newGuards ->
     In g newGuards ->
     (let newPos := GameA.movePlayer (walls s) (playerPos s)
                      (GameA.intentDx movement) (GameA.intentDy movement) in
      Qabs (Point.x (Guard.pos g) - (Point.x newPos + 15)) < 25 /\
      Qabs (Point.y (Guard.pos g) - (Point.y newPos + 15)) < 25) ->
     let s1 := set_isGameOver true s in
     (forall fuel rng k, GameA.update M fuel dt movement s rng k = Ok (s1, k)) /\
     isGameOver s1 = true /\
     (forall fuel inputs rng k, frames M fuel inputs s1 rng k = Ok (s1, k))) /\
  (forall rng k,
     eventuallyValid 15 (GameA.generateWalls 1) rng k ->
     exists fuel s' k', GameA.resetGame fuel rng k = Ok (s', k')) /\
  (forall fuel rng k s' k',
     GameA.resetGame fuel rng k = Ok (s', k') ->
     currentFloor s' = 1%Z /\ score s' = 0%Z /\ isGameOver s' = false /\
     live s' = true /\ timeLeft s' = 60).
Proof.
  split; [|split].
  - intros dt movement s newGuards g L T Hmap Hin Hnear s1.
    assert (Hc : existsb (GameA.caughtBy
                            (GameA.movePlayer (walls s) (playerPos s)
                               (GameA.intentDx movement) (GameA.intentDy movement)))
                         newGuards = true).
    { apply existsb_exists. exists g. split; [exact Hin|].
      apply caughtBy_iff. exact Hnear. }
    split; [|split].
    + intros fuel rng k. now apply update_caught with (newGuards := newGuards).
    + reflexivity.
    + intros fuel inputs rng k. apply frames_frozen.
      unfold live, s1. cbn. now rewrite orb_true_r.
  - intros rng k Hev.
    destruct (initFloor_total 1 0 rng k Hev) as (fuel & s' & k' & H & _).
    exists fuel, s', k'. exact H.
  - apply resetGame_built.
Qed.

Lemma guardDraws_unit : unitDraws guardDraws.
Proof.
  intro n. unfold guardDraws.
  destruct (Nat.eqb n 14); [split; lra|].
  destruct (Nat.eqb n 15); split; lra.
Qed.

Lemma atDoorGuarded_run : play 1 doorWalk guardDraws 0%nat = Ok (atDoorGuarded, 18%nat).
Proof. vm_compute. reflexivity. Qed.

Lemma besideGuard_run :
  GameA.handlePasswordSubmit 1 "0000" atDoorGuarded guardDraws 18%nat
  = Ok (besideGuard, 18%nat).
Proof. vm_compute. reflexivity. Qed.

Lemma besideGuard_reachable : reachable rationalMath besideGuard.
Proof.
  eapply reach_submit.
  - exact (play_reachable _ _ _ _ _ _ guardDraws_unit atDoorGuarded_run).
  - exact guardDraws_unit.
  - vm_compute. reflexivity.
  - vm_compute. reflexivity.
  - exact besideGuard_run.
Qed.


(** C3, as stated, fails when the timer runs out on the same tick.  In the
    reachable state [besideGuard] the floor is live and the guard is
    within 25 of the player's centre on both axes, before the tick and at
    the positions the tick would compute.  The first frame after the
    terminal closes is charged the 70 seconds the terminal was open: the
    timer branch regenerates the floor and [isGameOver] stays false. *)
Lemma capture_preempted_by_timeout :
  reachable rationalMath besideGuard /\ live besideGuard = true /\
  existsb (GameA.caughtBy (playerPos besideGuard)) (guards besideGuard) = true /\
  match map_throw (GameA.patrol rationalMath) (guards besideGuard) with
  | Some newGuards =>
      existsb (GameA.caughtBy
                 (GameA.movePlayer (walls besideGuard) (playerPos besideGuard)
                    (GameA.intentDx GameA.noMovement)
                    (GameA.intentDy GameA.noMovement)))
              newGuards
  | None => false
  end = true /\
  GameA.update rationalMath 1 70 GameA.noMovement besideGuard guardDraws 18%nat
  = Ok (afterLongWait, 36%nat) /\
  isGameOver afterLongWait = false /\
  currentFloor afterLongWait = 1%Z /\
  timeLeft afterLongWait = 60.
Proof.
  split; [exact besideGuard_reachable|].
  do 6 (split; [vm_compute; reflexivity|]).
  vm_compute; reflexivity.
Qed.

(** * Timeout *)





(** * Password submission *)

Lemma nextFloor_revB_built fuel prev rng k s' k' :
  GameB.nextFloor fuel prev rng k = Ok (s', k') ->
  currentFloor s' = (currentFloor prev + 1)%Z /\
  score s' = score prev /\
  timeLeft s' = INITIAL_TIME_PER_FLOOR /\
  walls s' = GameB.generateWalls (currentFloor prev + 1) /\
  foundPassword s' = false /\
  showTerminal s' = showTerminal prev.
Proof.
  unfold GameB.nextFloor. cbv zeta. intro H.
  apply bind_Ok in H as (m & k1 & _ & H).
  apply bind_Ok in H as (g & k2 & _ & H).
  apply bind_Ok in H as (pw & k3 & _ & H).
  injection H as <- _. cbn. repeat split.
Qed.




(** * The player and the walls *)

Lemma intentDx_cases (movement : GameA.Movement) :
  GameA.intentDx movement = 0 \/ GameA.intentDx movement = 0 - 5 \/
  GameA.intentDx movement = 0 + 5 \/ GameA.intentDx movement = 0 - 5 + 5.
Proof.
  unfold GameA.intentDx. cbv zeta.
  destruct (movement "ArrowLeft"%string || movement "KeyA"%string);
  destruct (movement "ArrowRight"%string || movement "KeyD"%string); auto.
Qed.

Lemma intentDy_cases (movement : GameA.Movement) :
  GameA.intentDy movement = 0 \/ GameA.intentDy movement = 0 - 5 \/
  GameA.intentDy movement = 0 + 5 \/ GameA.intentDy movement = 0 - 5 + 5.
Proof.
  unfold GameA.intentDy. cbv zeta.
  destruct (movement "ArrowUp"%string || movement "KeyW"%string);
  destruct (movement "ArrowDown"%string || movement "KeyS"%string); auto.
Qed.

Lemma overlaps_false (nx ny : Q) (w : Wall.t) :
  GameA.overlaps nx ny w = false ->
  ~ (Wall.x w < nx + 30 /\ nx < Wall.x w + Wall.w w /\
     Wall.y w < ny + 30 /\ ny < Wall.y w + Wall.h w).
Proof.
  unfold GameA.overlaps, Qgtb. intros H (H1 & H2 & H3 & H4).
  apply Qltb_lt in H1, H2, H3, H4.
  change GameA.PLAYER_SIZE with 30 in H.
  rewrite H1, H2, H3, H4 in H. discriminate.
Qed.

Lemma collides_false_In walls nx ny w :
  GameA.collides walls nx ny = false -> In w walls -> GameA.overlaps nx ny w = false.
Proof.
  unfold GameA.collides. intros H Hin.
  destruct (GameA.overlaps nx ny w) eqn:E; [|reflexivity].
  assert (existsb (GameA.overlaps nx ny) walls = true)
    by (apply existsb_exists; eauto).
  congruence.
Qed.

(** A position within one step of the interior that overlaps none of the
    four boundary walls lies in the interior. *)
Lemma clear_of_boundaries walls nx ny :
  incl boundaries walls ->
  GameA.collides walls nx ny = false ->
  5 <= nx <= 565 -> 5 <= ny <= 365 ->
  10 <= nx <= 560 /\ 10 <= ny <= 360.
Proof.
  intros Hb Hc Hx Hy.
  assert (Hw : forall w, In w boundaries -> GameA.overlaps nx ny w = false).
  { intros w Hin. eapply collides_false_In; [exact Hc|]. now apply Hb. }
  pose proof (overlaps_false _ _ _ (Hw _ (or_introl eq_refl))) as Top.
  pose proof (overlaps_false _ _ _ (Hw _ (or_intror (or_introl eq_refl)))) as Bottom.
  pose proof (overlaps_false _ _ _
                (Hw _ (or_intror (or_intror (or_introl eq_refl))))) as Left.
  pose proof (overlaps_false _ _ _
                (Hw _ (or_intror (or_intror (or_intror (or_introl eq_refl)))))) as Right.
  cbn [Wall.x Wall.y Wall.w Wall.h] in Top, Bottom, Left, Right.
  change (inject_Z CANVAS_WIDTH) with 600 in *.
  change (inject_Z CANVAS_HEIGHT) with 400 in *.
  change (inject_Z (CANVAS_WIDTH - 10)) with 590 in *.
  change (inject_Z (CANVAS_HEIGHT - 10)) with 390 in *.
  repeat split.
  - apply Qnot_lt_le. intro. apply Left. lra.
  - apply Qnot_lt_le. intro. apply Right. lra.
  - apply Qnot_lt_le. intro. apply Top. lra.
  - apply Qnot_lt_le. intro. apply Bottom. lra.
Qed.

Lemma collides_compat walls a a' b b' :
  a == a' -> b == b' -> GameA.collides walls a b = GameA.collides walls a' b'.
Proof. intros. rewrite !collides_hits. now apply hits_compat. Qed.

Lemma clamp_in_range (p : Point.t) :
  10 <= Point.x p <= 560 -> 10 <= Point.y p <= 360 ->
  Point_eqv (GameA.clamp p) p.
Proof.
  intros Hx Hy. unfold GameA.clamp, Point_eqv. cbn [Point.x Point.y].
  change (inject_Z CANVAS_WIDTH - GameA.PLAYER_SIZE - 10) with (600 - 30 - 10).
  change (inject_Z CANVAS_HEIGHT - GameA.PLAYER_SIZE - 10) with (400 - 30 - 10).
  split.
  - destruct (Math_min_spec (600 - 30 - 10) (Point.x p)) as [[? ->]|[? ->]];
    match goal with
    | |- Math_max ?a ?b == _ => destruct (Math_max_spec a b) as [[? ->]|[? ->]]
    end; lra.
  - destruct (Math_min_spec (400 - 30 - 10) (Point.y p)) as [[? ->]|[? ->]];
    match goal with
    | |- Math_max ?a ?b == _ => destruct (Math_max_spec a b) as [[? ->]|[? ->]]
    end; lra.
Qed.

(** Collision resolution is sound from a clear position: when the walls
    include the four boundary walls, the position a frame computes is
    clear again. *)
Lemma movePlayer_keeps_clear walls p (movement : GameA.Movement) :
  incl boundaries walls ->
  GameA.collides walls (Point.x p) (Point.y p) = false ->
  inInterior 30 p ->
  let p' := GameA.movePlayer walls p (GameA.intentDx movement) (GameA.intentDy movement) in
  GameA.collides walls (Point.x p') (Point.y p') = false /\ inInterior 30 p'.
Proof.
  intros Hb Hc (Hx1 & Hx2 & Hy1 & Hy2) p'.
  set (r := GameA.resolve walls p (GameA.intentDx movement) (GameA.intentDy movement)).
  assert (Hr : GameA.collides walls (Point.x r) (Point.y r) = false /\
               5 <= Point.x r <= 565 /\ 5 <= Point.y r <= 365).
  { unfold r, GameA.resolve. cbv zeta.
    destruct (intentDx_cases movement) as [->|[->|[->| ->]]];
    destruct (intentDy_cases movement) as [->|[->|[->| ->]]];
    repeat match goal with
    | |- context [if GameA.collides walls ?a ?b then _ else _] =>
        let E := fresh "E" in destruct (GameA.collides walls a b) eqn:E
    end; cbn [Point.x Point.y];
    (split; [assumption|lra]). }
  destruct Hr as (Hrc & Hrx & Hry).
  destruct (clear_of_boundaries walls _ _ Hb Hrc Hrx Hry) as [Hx Hy].
  destruct (clamp_in_range r Hx Hy) as [Ex Ey].
  unfold p', GameA.movePlayer. fold r. split.
  - rewrite (collides_compat walls _ (Point.x r) _ (Point.y r)) by assumption.
    exact Hrc.
  - unfold inInterior. rewrite Ex, Ey. lra.
Qed.

Lemma generateWalls_has_boundaries floor : incl boundaries (GameA.generateWalls floor).
Proof.
  unfold GameA.generateWalls, generateWalls_with. apply incl_appl, incl_refl.
Qed.

Lemma atDoor_run : play 1 doorWalk zeroDraws 0%nat = Ok (atDoor, 18%nat).
Proof. vm_compute. reflexivity. Qed.

Lemma insideWall_run :
  GameA.handlePasswordSubmit 1 "0000" atDoor zeroDraws 18%nat = Ok (insideWall, 18%nat).
Proof. vm_compute. reflexivity. Qed.

Lemma insideWall_reachable : reachable rationalMath insideWall.
Proof.
  eapply reach_submit.
  - exact (play_reachable _ _ _ _ _ _ zeroDraws_unit atDoor_run).
  - exact zeroDraws_unit.
  - reflexivity.
  - reflexivity.
  - exact insideWall_run.
Qed.

Lemma insideWall_stuck (movement : GameA.Movement) :
  GameA.movePlayer (walls insideWall) (playerPos insideWall)
    (GameA.intentDx movement) (GameA.intentDy movement)
  = playerPos insideWall.
Proof.
  destruct (intentDx_cases movement) as [->|[->|[->| ->]]];
  destruct (intentDy_cases movement) as [->|[->|[->| ->]]];
  vm_compute; reflexivity.
Qed.

(** C1 fails in the code.  On floor 1 the player walks, clear of every
    wall, to (505, 300), where the terminal opens.  A wrong code puts the
    player at (465, 260) without any collision test, inside the obstacle
    at (395, 245) of size 110 x 55.  From there every frame that runs to
    its end, whatever the elapsed time and the keys held, leaves the
    player at the same place, overlapping that wall. *)
Theorem wrong_code_traps_player_in_wall :
  reachable rationalMath atDoor /\ playerClear atDoor /\
  showTerminal atDoor = true /\ walls atDoor = GameA.generateWalls 1 /\
  GameA.handlePasswordSubmit 1 "0000" atDoor zeroDraws 18%nat
  = Ok (insideWall, 18%nat) /\
  reachable rationalMath insideWall /\ live insideWall = true /\
  Point_eqv (playerPos insideWall) (Point.mk 465 260) /\
  In (Wall.mk 395 245 110 55) (walls insideWall) /\
  GameA.overlaps (Point.x (playerPos insideWall)) (Point.y (playerPos insideWall))
    (Wall.mk 395 245 110 55) = true /\
  (forall dt movement s',
     GameA.updater rationalMath dt movement insideWall = GameA.Committed s' ->
     playerPos s' = playerPos insideWall /\
     GameA.collides (walls s') (Point.x (playerPos s')) (Point.y (playerPos s'))
     = true) /\
  GameA.update rationalMath 1 (1 # 50) GameA.noMovement insideWall zeroDraws 18%nat
  = Ok (stillInside, 18%nat) /\
  isGameOver stillInside = false /\
  GameA.collides (walls stillInside) (Point.x (playerPos stillInside))
    (Point.y (playerPos stillInside)) = true.
Proof.
  split; [exact (play_reachable _ _ _ _ _ _ zeroDraws_unit atDoor_run)|].
  split.
  { split; [vm_compute; reflexivity|].
    unfold inInterior. cbn [atDoor playerPos Point.x Point.y]. lra. }
  split; [reflexivity|].
  split; [vm_compute; reflexivity|].
  split; [exact insideWall_run|].
  split; [exact insideWall_reachable|].
  split; [reflexivity|].
  split; [split; reflexivity|].
  split; [vm_compute; tauto|].
  split; [vm_compute; reflexivity|].
  split.
  { intros dt movement s' H.
    pose proof (updater_inv rationalMath dt movement insideWall) as Inv.
    cbv zeta in Inv. rewrite H in Inv.
    destruct Inv as (_ & g & _ & _ & Hpos & _ & _ & _ & _ & _ & Hw & _).
    rewrite insideWall_stuck in Hpos. rewrite Hpos, Hw.
    split; [reflexivity|]. vm_compute. reflexivity. }
  split; [vm_compute; reflexivity|].
  split; [reflexivity|].
  vm_compute. reflexivity.
Qed.

(** The spawn point is not tested against the walls either: on floor 7
    the first obstacle covers it. *)
Lemma spawn_overlaps_on_floor_7 fuel prevScore rng k s' k' :
  GameA.initFloor fuel 7 prevScore rng k = Ok (s', k') ->
  GameA.collides (walls s') (Point.x (playerPos s')) (Point.y (playerPos s')) = true.
Proof.
  intro H. apply initFloor_built in H as (m & g & pw & k1 & k2 & _ & _ & _ & ->).
  vm_compute. reflexivity.
Qed.

(** * Instances *)

Lemma firstLoot_step :
  GameA.updater rationalMath (1 # 50) upLeftKeys floorOne = GameA.Committed firstLoot.
Proof. vm_compute. reflexivity. Qed.

Lemma motion_axis_separated_witness :
  Point_eqv (playerPos firstLoot)
    (spec_move 30 (walls floorOne) (playerPos floorOne)
       (GameA.intentDx upLeftKeys) (GameA.intentDy upLeftKeys)) /\
  inInterior 20 (Point.mk 30 30) /\
  Point_eqv (GameB.movePlayer (GameB.generateWalls 1) (Point.mk 30 30) RIGHT)
    (spec_move 20 (GameB.generateWalls 1) (Point.mk 30 30) (dirDx RIGHT) (dirDy RIGHT)).
Proof.
  destruct motion_axis_separated as (HA & _ & HB).
  assert (Hin : inInterior 20 (Point.mk 30 30))
    by (unfold inInterior; cbn [Point.x Point.y]; lra).
  split; [|split].
  - exact (HA rationalMath (1 # 50) upLeftKeys floorOne firstLoot firstLoot_step).
  - exact Hin.
  - exact (proj1 (HB (GameB.generateWalls 1) (Point.mk 30 30) RIGHT Hin)).
Defined.

Lemma generateMoney_terminates_witness :
  (1 <= 1)%Z /\
  eventuallyValid 15 (GameA.generateWalls 1) zeroDraws 0 /\
  exists fuel ms k',
    GameA.generateMoney fuel 1 (GameA.generateWalls 1) zeroDraws 0%nat = Ok (ms, k') /\
    List.length ms = 7%nat.
Proof.
  assert (H1 : (1 <= 1)%Z) by lia.
  split; [exact H1|]. split; [exact (zeroDraws_valid_floorOne 0)|].
  destruct (proj1 (proj2 (generateMoney_terminates 1 H1)) zeroDraws 0%nat
              (zeroDraws_valid_floorOne 0))
    as (fuel & ms & k' & H & _ & Hlen & _).
  exists fuel, ms, k'. split; [exact H|exact Hlen].
Defined.

Lemma approach_caught :
  live approach = true /\
  0 < timeLeft approach - (1 # 50) /\
  map_throw (GameA.patrol rationalMath) (guards approach) = Some approachGuards /\
  existsb (GameA.caughtBy
             (GameA.movePlayer (walls approach) (playerPos approach)
                (GameA.intentDx rightKey) (GameA.intentDy rightKey)))
          approachGuards = true.
Proof.
  split; [reflexivity|].
  split; [apply Qltb_lt; vm_compute; reflexivity|].
  split; vm_compute; reflexivity.
Qed.

Lemma capture_is_atomic_witness :
  GameA.update rationalMath 1 (1 # 50) rightKey approach zeroDraws 0%nat
  = Ok (set_isGameOver true approach, 0%nat) /\
  GameB.gameLoop rationalMath 1 true NONE onGuardB zeroDraws 0%nat
  = Ok (set_isGameOver true onGuardB, 0%nat).
Proof.
  destruct (capture_is_atomic rationalMath) as (HA & HB & _).
  destruct approach_caught as (L & T & Hmap & Hc).
  split.
  - exact (HA 1%nat (1 # 50) rightKey approach zeroDraws 0%nat approachGuards
              L T Hmap Hc).
  - apply (HB 1%nat true NONE onGuardB zeroDraws 0%nat onGuardGuardsB);
      vm_compute; reflexivity.
Defined.

Lemma capture_freezes_until_restart_witness :
  (forall fuel rng k,
     GameA.update rationalMath fuel (1 # 50) rightKey approach rng k
     = Ok (set_isGameOver true approach, k)) /\
  (forall fuel inputs rng k,
     frames rationalMath fuel inputs (set_isGameOver true approach) rng k
     = Ok (set_isGameOver true approach, k)) /\
  exists fuel s' k', GameA.resetGame fuel zeroDraws 0%nat = Ok (s', k').
Proof.
  destruct (capture_freezes_until_restart rationalMath) as (Hcap & Hreset & _).
  destruct approach_caught as (L & T & Hmap & _).
  assert (Hin : In approachGuard approachGuards) by (left; reflexivity).
  assert (Hnear :
    let newPos := GameA.movePlayer (walls approach) (playerPos approach)
                    (GameA.intentDx rightKey) (GameA.intentDy rightKey) in
    Qabs (Point.x (Guard.pos approachGuard) - (Point.x newPos + 15)) < 25 /\
    Qabs (Point.y (Guard.pos approachGuard) - (Point.y newPos + 15)) < 25).
  { cbv zeta. split; apply Qltb_lt; vm_compute; reflexivity. }
  destruct (Hcap (1 # 50) rightKey approach approachGuards approachGuard
              L T Hmap Hin Hnear) as (Hup & _ & Hfr).
  split; [exact Hup|]. split; [exact Hfr|].
  exact (Hreset zeroDraws 0%nat (zeroDraws_valid_floorOne 0)).
Defined.


Lemma secondFloor_run :
  GameA.handlePasswordSubmit 1 "1000" atDoor cornerDraws 0%nat
  = Ok (secondFloor, 25%nat).
Proof. vm_compute. reflexivity. Qed.


Lemma money_collected_once_witness :
  live floorOne = true /\
  nth_error (money floorOne) 0 = Some firstBill /\
  Money.collected firstBill = false /\
  nth_error (money firstLoot) 0
  = Some (Money.mk (Money.id firstBill) (Money.pos firstBill)
            (Money.value firstBill) true) /\
  score firstLoot = (score floorOne + gain (playerPos firstLoot) (money floorOne))%Z /\
  score firstLoot = 700%Z.
Proof.
  assert (L : live floorOne = true) by reflexivity.
  destruct (proj1 (money_collected_once rationalMath) (1 # 50) upLeftKeys floorOne
              firstLoot L firstLoot_step) as (Hcol & _ & Hscore & _).
  split; [exact L|]. split; [reflexivity|]. split; [reflexivity|].
  split; [|split; [exact Hscore|reflexivity]].
  apply (Hcol 0%nat firstBill); reflexivity.
Defined.

Lemma wrong_code_traps_player_in_wall_witness :
  playerPos stillInside = playerPos insideWall /\
  GameA.collides (walls stillInside) (Point.x (playerPos stillInside))
    (Point.y (playerPos stillInside)) = true.
Proof.
  destruct wrong_code_traps_player_in_wall
    as (_ & _ & _ & _ & _ & _ & _ & _ & _ & _ & Hstuck & _).
  apply (Hstuck (1 # 50) GameA.noMovement stillInside).
  vm_compute. reflexivity.
Defined.

(** * The access code *)

Ltac digit_cases k :=
  do 10 (destruct k as [|k]; [first [reflexivity | lia | discriminate | congruence]|]);
  first [lia | reflexivity].

Lemma of_lu_digitOf k u :
  (k < 10)%nat ->
  DecimalPos.Unsigned.of_lu (digitOf k u)
  = (N.of_nat k + 10 * DecimalPos.Unsigned.of_lu u)%N.
Proof. intro H. digit_cases k. Qed.

Lemma revapp_digitOf k u acc :
  Decimal.revapp (digitOf k u) acc = Decimal.revapp u (digitOf k acc).
Proof. digit_cases k. Qed.

Lemma unorm_digitOf k u :
  (1 <= k < 10)%nat -> Decimal.unorm (digitOf k u) = digitOf k u.
Proof. intro H. digit_cases k. Qed.

Lemma string_of_digitOf k u :
  (k < 10)%nat ->
  NilEmpty.string_of_uint (digitOf k u)
  = String (ascii_of_nat (48 + k)) (NilEmpty.string_of_uint u).
Proof. intro H. digit_cases k. Qed.

Lemma strip_digits (d : Decimal.uint) :
  stripNonDigits (NilEmpty.string_of_uint d) = NilEmpty.string_of_uint d.
Proof. induction d; simpl; try rewrite IHd; reflexivity. Qed.

Lemma toString_digits (n : Z) : stripNonDigits (toString n) = toString n.
Proof.
  unfold toString, NilZero.string_of_uint.
  destruct (N.to_uint (Z.to_N n)); try apply strip_digits. reflexivity.
Qed.

Lemma nilZero_nonNil (u : Decimal.uint) :
  u <> Decimal.Nil -> NilZero.string_of_uint u = NilEmpty.string_of_uint u.
Proof. destruct u; [congruence|reflexivity..]. Qed.

Lemma four_digit_length (n : Z) :
  (1000 <= n <= 9999)%Z -> String.length (toString n) = 4%nat.
Proof.
  intro Hn.
  set (d0 := Z.to_nat (n mod 10)).
  set (d1 := Z.to_nat ((n / 10) mod 10)).
  set (d2 := Z.to_nat ((n / 10 / 10) mod 10)).
  set (d3 := Z.to_nat (n / 10 / 10 / 10)).
  assert (H0 : (d0 < 10)%nat) by (unfold d0; Z.div_mod_to_equations; lia).
  assert (H1 : (d1 < 10)%nat) by (unfold d1; Z.div_mod_to_equations; lia).
  assert (H2 : (d2 < 10)%nat) by (unfold d2; Z.div_mod_to_equations; lia).
  assert (H3 : (1 <= d3 < 10)%nat) by (unfold d3; Z.div_mod_to_equations; lia).
  assert (E : Z.to_N n
              = DecimalPos.Unsigned.of_lu
                  (digitOf d0 (digitOf d1 (digitOf d2 (digitOf d3 Decimal.Nil))))).
  { rewrite !of_lu_digitOf by lia. cbn [DecimalPos.Unsigned.of_lu].
    unfold d0, d1, d2, d3. Z.div_mod_to_equations. lia. }
  clearbody d0 d1 d2 d3.
  unfold toString. rewrite E, <- DecimalPos.Unsigned.of_lu_rev.
  change (Pos.of_uint ?d) with (N.of_uint d).
  rewrite DecimalN.Unsigned.to_of.
  unfold Decimal.rev. rewrite !revapp_digitOf. cbn [Decimal.revapp].
  rewrite unorm_digitOf by lia.
  assert (Hs : NilEmpty.string_of_uint
                 (digitOf d3 (digitOf d2 (digitOf d1 (digitOf d0 Decimal.Nil))))
          = String (ascii_of_nat (48 + d3)) (String (ascii_of_nat (48 + d2))
             (String (ascii_of_nat (48 + d1)) (String (ascii_of_nat (48 + d0)) "")))).
  { rewrite !string_of_digitOf by lia. reflexivity. }
  rewrite nilZero_nonNil, Hs; [reflexivity|].
  clear - H3. digit_cases d3.
Qed.

Lemma four_digit_numeral (n : Z) :
  (1000 <= n <= 9999)%Z -> fourDigits (toString n).
Proof. intro Hn. split; [now apply four_digit_length|apply toString_digits]. Qed.

Lemma password_number_range (r : Q) :
  0 <= r -> r < 1 -> (1000 <= Qfloor (1000 + r * 9000) <= 9999)%Z.
Proof.
  intros H0 H1. split.
  - change 1000%Z with (Qfloor (inject_Z 1000)) at 1.
    apply Qfloor_resp_le. change (inject_Z 1000) with 1000. lra.
  - assert (H : (Qfloor (1000 + r * 9000) < 10000)%Z); [|lia].
    rewrite Zlt_Qlt.
    apply Qle_lt_trans with (1000 + r * 9000); [apply Qfloor_le|].
    change (inject_Z 10000) with 10000. lra.
Qed.

Lemma generatePassword_eq rng k :
  generatePassword rng k = Ok (toString (Qfloor (1000 + rng k * 9000)), S k).
Proof. reflexivity. Qed.

Lemma generatePassword_fourDigits rng k pw k' :
  unitDraws rng -> generatePassword rng k = Ok (pw, k') -> fourDigits pw.
Proof.
  intros Hu H. rewrite generatePassword_eq in H. injection H as <- _.
  apply four_digit_numeral, password_number_range; apply Hu.
Qed.

(** X1.  [generatePassword] reads one draw and, for a draw in [0, 1),
    returns the decimal numeral of an integer between 1000 and 9999: a
    string of exactly four characters, all of them digits. *)
Theorem generatePassword_four_digits (rng : nat -> Q) (k : nat) :
  0 <= rng k -> rng k < 1 ->
  exists n, generatePassword rng k = Ok (toString n, S k) /\
            (1000 <= n <= 9999)%Z /\
            String.length (toString n) = 4%nat /\
            stripNonDigits (toString n) = toString n.
Proof.
  intros H0 H1. exists (Qfloor (1000 + rng k * 9000)).
  split; [apply generatePassword_eq|].
  pose proof (password_number_range (rng k) H0 H1) as Hr.
  split; [exact Hr|]. now apply four_digit_numeral.
Qed.

Lemma generatePassword_four_digits_witness :
  exists n, generatePassword zeroDraws 0%nat = Ok (toString n, 1%nat) /\
            (1000 <= n <= 9999)%Z /\
            String.length (toString n) = 4%nat /\
            stripNonDigits (toString n) = toString n.
Proof.
  apply (generatePassword_four_digits zeroDraws 0%nat); unfold zeroDraws; lra.
Defined.
(** * Invariants of the first revision *)

Lemma clamp_inInterior (p : Point.t) : inInterior 30 (GameA.clamp p).
Proof.
  unfold inInterior, GameA.clamp, GameA.PLAYER_SIZE, CANVAS_WIDTH, CANVAS_HEIGHT.
  cbn [Point.x Point.y].
  change (inject_Z 600) with 600. change (inject_Z 400) with 400.
  destruct (Math_max_spec 10 (Math_min (600 - 30 - 10) (Point.x p))) as [[? ->]|[? ->]];
  destruct (Math_max_spec 10 (Math_min (400 - 30 - 10) (Point.y p))) as [[? ->]|[? ->]];
  destruct (Math_min_spec (600 - 30 - 10) (Point.x p)) as [[? Ex]|[? Ex]];
  destruct (Math_min_spec (400 - 30 - 10) (Point.y p)) as [[? Ey]|[? Ey]];
  rewrite ?Ex, ?Ey in *; repeat split; lra.
Qed.

Lemma movePlayer_inInterior walls p dx dy :
  inInterior 30 (GameA.movePlayer walls p dx dy).
Proof. apply clamp_inInterior. Qed.

Lemma collect_values (P : Money.t -> Prop) newPos ms sc :
  (forall m, P m -> P (Money.collect m)) ->
  Forall P ms -> Forall P (fst (GameA.collectMoney newPos ms sc)).
Proof.
  intros HP H. rewrite collectMoney_list. apply Forall_map.
  eapply Forall_impl; [|exact H]. intros m Hm.
  destruct (GameA.collectible newPos m); auto.
Qed.

Lemma collect_length newPos ms sc :
  List.length (fst (GameA.collectMoney newPos ms sc)) = List.length ms.
Proof. rewrite collectMoney_list. apply length_map. Qed.

Lemma gain_nonneg newPos ms :
  Forall (fun m => (0 <= Money.value m)%Z) ms -> (0 <= gain newPos ms)%Z.
Proof.
  induction 1 as [|m ms Hm _ IH]; cbn [gain]; [lia|].
  destruct (GameA.collectible newPos m); lia.
Qed.

Lemma map_throw_length {A B} (f : A -> option B) (l : list A) : forall l',
  map_throw f l = Some l' -> List.length l' = List.length l.
Proof.
  induction l as [|a l IH]; intros l' H; cbn [map_throw] in H.
  - injection H as <-. reflexivity.
  - destruct (f a); [|discriminate].
    destruct (map_throw f l); [|discriminate].
    injection H as <-. cbn [List.length]. f_equal. now apply IH.
Qed.

(** The terminal flag after a frame that runs to its end. *)
Lemma updater_terminal (M : JSMath) dt movement prev s' :
  GameA.updater M dt movement prev = GameA.Committed s' ->
  showTerminal s'
  = (if near 40 (doorPos prev) (GameA.centerX (playerPos s')) (GameA.centerY (playerPos s'))
     then true else showTerminal prev) /\
  foundPassword s'
  = (if negb (foundPassword prev) &&
        near 40 (GameA.passwordStation) (GameA.centerX (playerPos s'))
          (GameA.centerY (playerPos s'))
     then true else foundPassword prev).
Proof.
  unfold GameA.updater.
  destruct (Qleb _ 0); [discriminate|].
  destruct (GameA.collectMoney _ _ _) as [newMoney newScore].
  destruct (map_throw _ _) as [newGuards|]; [|discriminate].
  destruct (existsb _ newGuards); [discriminate|].
  intro H. injection H as <-. cbn. split; reflexivity.
Qed.

Lemma values_nonneg (s : GameState) :
  (1 <= currentFloor s)%Z ->
  Forall (fun m => Money.value m = (100 * currentFloor s)%Z) (money s) ->
  Forall (fun m => (0 <= Money.value m)%Z) (money s).
Proof.
  intros Hf H. eapply Forall_impl; [|exact H]. cbv beta. intros m ->. lia.
Qed.

Lemma initFloor_wellFormed fuel floor prevScore rng k s' k' :
  unitDraws rng -> (1 <= floor)%Z -> (0 <= prevScore)%Z ->
  GameA.initFloor fuel floor prevScore rng k = Ok (s', k') ->
  wellFormedA s' /\ levelOf s'.
Proof.
  intros Hu Hf Hs H.
  apply initFloor_built in H as (m & g & pw & k1 & k2 & Hm & Hg & Hp & ->).
  apply generateMoney_placed in Hm as [Hml Hm].
  apply generateGuards_fresh in Hg as [Hgl _].
  apply generatePassword_fourDigits in Hp; [|exact Hu].
  assert (L : levelOf (mkGameState (Point.mk 50 50) floor prevScore m
                 (GameA.generateWalls floor) g pw false (Point.mk 550 350)
                 false false false "" 60)).
  { unfold levelOf; cbn [walls currentFloor money guards password].
    split; [reflexivity|]. split; [exact Hml|]. split; [exact Hgl|exact Hp]. }
  split; [|exact L].
  unfold wellFormedA; cbn [currentFloor score timeLeft doorPos money playerPos showTerminal].
  split; [exact Hf|]. split; [exact Hs|]. split; [reflexivity|].
  split; [reflexivity|].
  split; [eapply Forall_impl; [|exact Hm]; cbv beta; intros a (_ & Ha & _); exact Ha|].
  split; [unfold inInterior; cbn [Point.x Point.y]; repeat split; lra|].
  split; [discriminate|]. right. exact L.
Qed.

Lemma update_wellFormed (M : JSMath) fuel dt movement s rng k s' k' :
  unitDraws rng -> wellFormedA s ->
  GameA.update M fuel dt movement s rng k = Ok (s', k') -> wellFormedA s'.
Proof.
  intros Hu W H. destruct (live s) eqn:L.
  - rewrite update_live in H by exact L.
    pose proof (updater_inv M dt movement s) as Inv. cbv zeta in Inv.
    pose proof (updater_terminal M dt movement s) as Term.
    destruct W as (Wf & Ws & Wt & Wd & Wm & Wp & Wterm & Wl).
    destruct (GameA.updater M dt movement s) as [pen| |c|].
    + destruct Inv as [_ ->].
      eapply initFloor_wellFormed in H; [apply H|exact Hu|exact Wf|lia].
    + injection H as <- _.
      unfold wellFormedA. cbn.
      split; [exact Wf|]. split; [exact Ws|]. split; [exact Wt|].
      split; [exact Wd|]. split; [exact Wm|]. split; [exact Wp|].
      split; [exact Wterm|exact Wl].
    + injection H as <- _.
      destruct Inv as (T & newGuards & Hmap & _ & Hpos & Hmoney & Hscore & Hg & Htl
                       & Hfl & Hw & Hpw & Hdoor & _).
      destruct (Term c eq_refl) as [Hterm _].
      unfold wellFormedA.
      split; [rewrite Hfl; exact Wf|].
      split; [rewrite Hscore, collectMoney_score;
              pose proof (gain_nonneg
                            (GameA.movePlayer (walls s) (playerPos s)
                               (GameA.intentDx movement) (GameA.intentDy movement))
                            (money s) (values_nonneg s Wf Wm)); lia|].
      split; [rewrite Htl, Qred_correct; exact T|].
      split; [rewrite Hdoor; exact Wd|].
      split; [rewrite Hmoney, Hfl; apply collect_values; [intros m Hm; exact Hm|exact Wm]|].
      split; [rewrite Hpos; apply movePlayer_inInterior|].
      split.
      * rewrite Hterm, Hdoor.
        unfold live in L. apply negb_true_iff in L.
        apply orb_false_iff in L as [_ L]. rewrite L.
        destruct (near 40 (doorPos s) (GameA.centerX (playerPos c))
                    (GameA.centerY (playerPos c))); [reflexivity|discriminate].
      * destruct Wl as [(U1 & U2 & U3 & U4)|(L1 & L2 & L3 & L4)].
        -- left. unfold unmounted. rewrite Hw, Hmoney, Hg, Hpw, U1, U2, U4.
           rewrite U3 in Hmap. cbn in Hmap. injection Hmap as <-.
           repeat split; reflexivity.
        -- right. unfold levelOf. rewrite Hw, Hfl, Hmoney, Hg, Hpw, collect_length.
           split; [exact L1|]. split; [exact L2|].
           split; [rewrite (map_throw_length _ _ _ Hmap); exact L3|exact L4].
    + discriminate.
  - rewrite update_frozen in H by exact L. injection H as <- _. exact W.
Qed.

Lemma near_door_nudge (p : Point.t) :
  inInterior 30 p ->
  near 40 (Point.mk 550 350) (GameA.centerX p) (GameA.centerY p) = true ->
  inInterior 30 (Point.mk (Point.x p - 40) (Point.y p - 40)).
Proof.
  unfold inInterior, near, GameA.centerX, GameA.centerY, GameA.PLAYER_SIZE.
  cbn [Point.x Point.y]. intros (Hx0 & Hx1 & Hy0 & Hy1) H.
  apply andb_prop in H as [Hx Hy].
  apply Qltb_lt in Hx, Hy.
  apply Qabs_Qlt_condition in Hx, Hy.
  destruct Hx as [Hx Hx'], Hy as [Hy Hy'].
  assert (E : 30 / 2 == 15) by reflexivity. rewrite E in *.
  repeat split; lra.
Qed.

Lemma submit_wellFormed fuel inputCode s rng k s' k' :
  unitDraws rng -> wellFormedA s -> showTerminal s = true ->
  GameA.handlePasswordSubmit fuel inputCode s rng k = Ok (s', k') -> wellFormedA s'.
Proof.
  intros Hu W St H. unfold GameA.handlePasswordSubmit in H.
  destruct W as (Wf & Ws & Wt & Wd & Wm & Wp & Wterm & Wl).
  destruct (String.eqb inputCode (password s)).
  - unfold GameA.nextFloor in H.
    eapply initFloor_wellFormed in H; [apply H|exact Hu|lia|exact Ws].
  - injection H as <- _. unfold wellFormedA. cbn.
    split; [exact Wf|]. split; [exact Ws|]. split; [exact Wt|].
    split; [exact Wd|]. split; [exact Wm|].
    split; [apply near_door_nudge; [exact Wp|rewrite <- Wd; exact (Wterm St)]|].
    split; [discriminate|exact Wl].
Qed.

Lemma initialState_wellFormed : wellFormedA GameA.initialState.
Proof.
  unfold wellFormedA. cbn.
  split; [lia|]. split; [lia|]. split; [reflexivity|]. split; [reflexivity|].
  split; [constructor|].
  split; [unfold inInterior; cbn [Point.x Point.y]; repeat split; lra|].
  split; [discriminate|]. left. repeat split.
Qed.

Lemma reachable_wellFormedA (M : JSMath) (s : GameState) :
  reachable M s -> wellFormedA s.
Proof.
  induction 1 as [ | s fuel rng k s' k' _ IH Hu H
                   | s fuel dt mv rng k s' k' _ IH Hu H
                   | s _ IH
                   | s fuel code rng k s' k' _ IH Hu St _ H
                   | s _ IH _ _ ].
  - apply initialState_wellFormed.
  - eapply initFloor_wellFormed in H; [apply H|exact Hu|lia|lia].
  - eapply update_wellFormed; eassumption.
  - exact IH.
  - eapply submit_wellFormed; eassumption.
  - destruct IH as (Wf & Ws & Wt & Wd & Wm & Wp & Wterm & Wl).
    unfold wellFormedA. cbn.
    split; [exact Wf|]. split; [exact Ws|]. split; [exact Wt|].
    split; [exact Wd|]. split; [exact Wm|]. split; [exact Wp|].
    split; [discriminate|exact Wl].
Qed.

Lemma atDoor_reachable : reachable rationalMath atDoor.
Proof. eapply play_reachable; [apply zeroDraws_unit|apply atDoor_run]. Qed.

(** X2.  In the first revision the timer of a reachable state is always
    positive: a frame that would bring it to zero or below regenerates the
    floor with the full budget instead of storing the value. *)
Theorem timer_stays_positive (M : JSMath) (s : GameState) :
  reachable M s -> 0 < timeLeft s.
Proof. intro Hr. apply (reachable_wellFormedA M s Hr). Qed.

Lemma timer_stays_positive_witness : 0 < timeLeft atDoor.
Proof. exact (timer_stays_positive rationalMath atDoor atDoor_reachable). Defined.

(** X3.  In every reachable state of the first revision the floor index
    is at least 1, the score is not negative (the timeout penalty clamps at
    0, nothing else subtracts), and every bill of the floor is worth
    100 times the floor index. *)
Theorem score_never_negative (M : JSMath) (s : GameState) :
  reachable M s ->
  (1 <= currentFloor s)%Z /\ (0 <= score s)%Z /\
  Forall (fun m => Money.value m = (100 * currentFloor s)%Z) (money s).
Proof.
  intro Hr. destruct (reachable_wellFormedA M s Hr) as (Wf & Ws & _ & _ & Wm & _).
  split; [exact Wf|]. split; [exact Ws|exact Wm].
Qed.

Lemma score_never_negative_witness :
  (1 <= currentFloor secondFloor)%Z /\ (0 <= score secondFloor)%Z /\
  Forall (fun m => Money.value m = (100 * currentFloor secondFloor)%Z)
         (money secondFloor).
Proof.
  apply (score_never_negative rationalMath secondFloor).
  eapply reach_submit;
    [apply atDoor_reachable|apply cornerDraws_unit| | |apply secondFloor_run];
    vm_compute; reflexivity.
Defined.

(** X4.  In every reachable state of the first revision the player's
    top-left corner lies in [10, 560] x [10, 360], also after a wrong code
    has moved the player by (-40, -40) without a clamp: the terminal is
    only open near the door, far enough from the left and upper border. *)
Theorem player_stays_in_interior (M : JSMath) (s : GameState) :
  reachable M s ->
  10 <= Point.x (playerPos s) <= 560 /\ 10 <= Point.y (playerPos s) <= 360.
Proof.
  intro Hr.
  destruct (reachable_wellFormedA M s Hr) as (_ & _ & _ & _ & _ & Wp & _).
  destruct Wp as (H1 & H2 & H3 & H4). repeat split; lra.
Qed.

Lemma player_stays_in_interior_witness :
  10 <= Point.x (playerPos insideWall) <= 560 /\
  10 <= Point.y (playerPos insideWall) <= 360.
Proof.
  exact (player_stays_in_interior rationalMath insideWall insideWall_reachable).
Defined.

(** X5.  In every reachable state of the first revision the terminal is
    open only while the centre of the player is within 40 of the door at
    (550, 350) on both axes. *)
Theorem terminal_only_at_door (M : JSMath) (s : GameState) :
  reachable M s -> showTerminal s = true ->
  doorPos s = Point.mk 550 350 /\
  Qabs (550 - (Point.x (playerPos s) + 15)) < 40 /\
  Qabs (350 - (Point.y (playerPos s) + 15)) < 40.
Proof.
  intros Hr St.
  destruct (reachable_wellFormedA M s Hr) as (_ & _ & _ & Wd & _ & _ & Wt & _).
  specialize (Wt St). rewrite Wd in Wt.
  unfold near, GameA.centerX, GameA.centerY, GameA.PLAYER_SIZE in Wt.
  cbn [Point.x Point.y] in Wt.
  apply andb_prop in Wt as [Hx Hy]. apply Qltb_lt in Hx, Hy.
  assert (E : 30 / 2 == 15) by reflexivity. rewrite E in Hx, Hy.
  split; [exact Wd|]. split; assumption.
Qed.

Lemma terminal_only_at_door_witness :
  doorPos atDoor = Point.mk 550 350 /\
  Qabs (550 - (Point.x (playerPos atDoor) + 15)) < 40 /\
  Qabs (350 - (Point.y (playerPos atDoor) + 15)) < 40.
Proof.
  apply (terminal_only_at_door rationalMath atDoor atDoor_reachable).
  vm_compute; reflexivity.
Defined.

(** X6.  The content of a level is determined by its floor index.  In
    every reachable state of the first revision, once the mount effect has
    generated a floor, the walls are [generateWalls(currentFloor)], there
    are [5 + 2 * currentFloor] bills and [min(1 + floor(currentFloor / 2), 4)]
    guards, and the password has four digits; frames, pause, close and a
    wrong code change none of this. *)
Theorem level_matches_floor (M : JSMath) (s : GameState) :
  reachable M s -> walls s <> [] ->
  walls s = GameA.generateWalls (currentFloor s) /\
  List.length (money s) = Z.to_nat (5 + currentFloor s * 2) /\
  List.length (guards s) = Z.to_nat (Z.min (1 + currentFloor s / 2) 4) /\
  String.length (password s) = 4%nat /\
  stripNonDigits (password s) = password s.
Proof.
  intros Hr Hw.
  destruct (reachable_wellFormedA M s Hr) as (_ & _ & _ & _ & _ & _ & _ & Wl).
  destruct Wl as [(U & _)|(L1 & L2 & L3 & L4 & L5)]; [contradiction|].
  split; [exact L1|]. split; [exact L2|]. split; [exact L3|].
  split; [exact L4|exact L5].
Qed.

Lemma level_matches_floor_witness :
  walls insideWall = GameA.generateWalls (currentFloor insideWall) /\
  List.length (money insideWall) = Z.to_nat (5 + currentFloor insideWall * 2) /\
  List.length (guards insideWall)
  = Z.to_nat (Z.min (1 + currentFloor insideWall / 2) 4) /\
  String.length (password insideWall) = 4%nat /\
  stripNonDigits (password insideWall) = password insideWall.
Proof.
  apply (level_matches_floor rationalMath insideWall insideWall_reachable).
  vm_compute; discriminate.
Defined.

(** * Frames of the first revision *)

(** The three ways in which a frame of a live floor returns. *)
Lemma update_cases (M : JSMath) fuel dt movement s rng k s' k' :
  live s = true ->
  GameA.update M fuel dt movement s rng k = Ok (s', k') ->
  (timeLeft s - dt <= 0 /\
   GameA.initFloor fuel (currentFloor s) (Z.max 0 (score s - 500)) rng k = Ok (s', k')) \/
  (0 < timeLeft s - dt /\ s' = set_isGameOver true s /\ k' = k) \/
  (0 < timeLeft s - dt /\ GameA.updater M dt movement s = GameA.Committed s' /\ k' = k).
Proof.
  intros L H. rewrite update_live in H by exact L.
  pose proof (updater_inv M dt movement s) as Inv. cbv zeta in Inv.
  destruct (GameA.updater M dt movement s) as [pen| |c|].
  - destruct Inv as [T ->]. left. split; [exact T|exact H].
  - destruct Inv as [T _]. injection H as <- <-. right; left. auto.
  - destruct Inv as [T _]. injection H as <- <-. right; right. auto.
  - discriminate.
Qed.

Lemma resolve_cases walls p dx dy :
  (Point.x (GameA.resolve walls p dx dy) = Point.x p \/
   Point.x (GameA.resolve walls p dx dy) = Point.x p + dx) /\
  (Point.y (GameA.resolve walls p dx dy) = Point.y p \/
   Point.y (GameA.resolve walls p dx dy) = Point.y p + dy).
Proof.
  unfold GameA.resolve.
  destruct (GameA.collides walls (Point.x p + dx) (Point.y p));
  destruct (GameA.collides walls (Point.x p) (Point.y p + dy));
  match goal with |- context [if ?c then _ else _] => destruct c end;
  cbn [Point.x Point.y]; auto.
Qed.

Lemma clamp_step (lo hi x rx d : Q) :
  lo <= x -> x <= hi -> - d <= rx - x -> rx - x <= d ->
  Qabs (Math_max lo (Math_min hi rx) - x) <= d.
Proof.
  intros H1 H2 H3 H4. apply Qabs_Qle_condition.
  destruct (Math_max_spec lo (Math_min hi rx)) as [[? ->]|[? ->]];
  destruct (Math_min_spec hi rx) as [[? E]|[? E]]; rewrite ?E in *; split; lra.
Qed.

Lemma movePlayer_step walls p (movement : GameA.Movement) :
  inInterior 30 p ->
  let p' := GameA.movePlayer walls p (GameA.intentDx movement) (GameA.intentDy movement) in
  Qabs (Point.x p' - Point.x p) <= 5 /\ Qabs (Point.y p' - Point.y p) <= 5.
Proof.
  intros (Hx0 & Hx1 & Hy0 & Hy1) p'. subst p'.
  unfold GameA.movePlayer, GameA.clamp, GameA.PLAYER_SIZE, CANVAS_WIDTH, CANVAS_HEIGHT.
  cbn [Point.x Point.y].
  change (inject_Z 600) with 600. change (inject_Z 400) with 400.
  destruct (resolve_cases walls p (GameA.intentDx movement) (GameA.intentDy movement))
    as [Rx Ry].
  split.
  - apply clamp_step; try lra;
      destruct Rx as [-> | ->];
      destruct (intentDx_cases movement) as [E|[E|[E|E]]]; rewrite ?E; lra.
  - apply clamp_step; try lra;
      destruct Ry as [-> | ->];
      destruct (intentDy_cases movement) as [E|[E|[E|E]]]; rewrite ?E; lra.
Qed.

(** X7.  In a reachable state of the first revision a frame that does not
    time out moves the player by at most [SPEED] = 5 on each axis,
    whatever keys are held (opposite keys cancel, walls revert, the clamp
    never pushes). *)
Theorem frame_displacement_bounded (M : JSMath) fuel dt movement s rng k s' k' :
  reachable M s -> 0 < timeLeft s - dt ->
  GameA.update M fuel dt movement s rng k = Ok (s', k') ->
  Qabs (Point.x (playerPos s') - Point.x (playerPos s)) <= 5 /\
  Qabs (Point.y (playerPos s') - Point.y (playerPos s)) <= 5.
Proof.
  intros Hr T H.
  assert (Z0 : forall q, Qabs (q - q) <= 5).
  { intro q. apply Qabs_Qle_condition. split; lra. }
  destruct (live s) eqn:L.
  - destruct (update_cases M fuel dt movement s rng k s' k' L H)
      as [[T' _]|[(_ & -> & _)|(_ & Hc & _)]].
    + exfalso; lra.
    + cbn [set_isGameOver playerPos]. split; apply Z0.
    + rewrite (updater_committed_pos M dt movement s s' Hc).
      apply movePlayer_step.
      apply (reachable_wellFormedA M s Hr).
  - rewrite update_frozen in H by exact L. injection H as <- _. split; apply Z0.
Qed.

Lemma frame_displacement_bounded_witness :
  Qabs (Point.x (playerPos firstLoot) - Point.x (playerPos floorOne)) <= 5 /\
  Qabs (Point.y (playerPos firstLoot) - Point.y (playerPos floorOne)) <= 5.
Proof.
  apply (frame_displacement_bounded rationalMath 1 (1 # 50) upLeftKeys floorOne
           zeroDraws 0%nat firstLoot 0%nat).
  - apply floorOne_reachable.
  - vm_compute; reflexivity.
  - rewrite update_live by reflexivity. rewrite firstLoot_step. reflexivity.
Defined.

(** X8.  In a reachable state of the first revision a frame never lowers
    the score unless it times out, and a frame that times out lowers it by
    at most 500. *)
Theorem frame_score_monotone (M : JSMath) fuel dt movement s rng k s' k' :
  reachable M s ->
  GameA.update M fuel dt movement s rng k = Ok (s', k') ->
  (score s - 500 <= score s')%Z /\
  (0 < timeLeft s - dt -> (score s <= score s')%Z).
Proof.
  intros Hr H.
  destruct (reachable_wellFormedA M s Hr) as (Wf & Ws & _ & _ & Wm & _).
  destruct (live s) eqn:L.
  - destruct (update_cases M fuel dt movement s rng k s' k' L H)
      as [[T' Hi]|[(_ & -> & _)|(_ & Hc & _)]].
    + apply initFloor_built in Hi as (m & g & pw & k1 & k2 & _ & _ & _ & ->).
      cbn [score]. split; [lia|]. intro T. exfalso; lra.
    + cbn [set_isGameOver score]. split; [lia|]. intros _. lia.
    + pose proof (updater_inv M dt movement s) as Inv. cbv zeta in Inv.
      rewrite Hc in Inv.
      destruct Inv as (_ & newGuards & _ & _ & _ & _ & Hscore & _).
      rewrite Hscore, collectMoney_score.
      pose proof (gain_nonneg
                    (GameA.movePlayer (walls s) (playerPos s)
                       (GameA.intentDx movement) (GameA.intentDy movement))
                    (money s) (values_nonneg s Wf Wm)).
      split; [lia|]. intros _. lia.
  - rewrite update_frozen in H by exact L. injection H as <- _.
    split; [lia|]. intros _. lia.
Qed.

Lemma frame_score_monotone_witness :
  (score floorOne - 500 <= score firstLoot)%Z /\
  (0 < timeLeft floorOne - (1 # 50) -> (score floorOne <= score firstLoot)%Z).
Proof.
  apply (frame_score_monotone rationalMath 1 (1 # 50) upLeftKeys floorOne
           zeroDraws 0%nat firstLoot 0%nat).
  - apply floorOne_reachable.
  - rewrite update_live by reflexivity. rewrite firstLoot_step. reflexivity.
Defined.

(** X9.  No frame of a reachable state throws, whatever the number of
    sampling rounds, and a frame returns once the sampling loop of
    [generateMoney] is given enough rounds: for draws that eventually yield
    an accepted position on the walls of the current floor there is a
    number of rounds from which on the frame returns one and the same
    state, whether it times out, ends in a capture or runs to its end. *)
Theorem frame_returns (M : JSMath) dt movement s rng k :
  reachable M s ->
  eventuallyValid 15 (GameA.generateWalls (currentFloor s)) rng k ->
  (forall fuel, GameA.update M fuel dt movement s rng k <> Thrown) /\
  exists fuel s' k',
    GameA.update M fuel dt movement s rng k = Ok (s', k') /\
    forall fuel', (fuel <= fuel')%nat ->
      GameA.update M fuel' dt movement s rng k = Ok (s', k').
Proof.
  intros Hr Hv. split; [intro fuel; now apply reachable_never_throws|].
  destruct (live s) eqn:L.
  - pose proof (updater_inv M dt movement s) as Inv. cbv zeta in Inv.
    destruct (GameA.updater M dt movement s) as [pen| |c|] eqn:U.
    + destruct (initFloor_total (currentFloor s) pen rng k Hv) as (fuel & s' & k' & H & Hm).
      exists fuel, s', k'.
      split; [rewrite update_live, U by exact L; exact H|].
      intros fuel' Hf. rewrite update_live, U by exact L. now apply Hm.
    + exists 0%nat, (set_isGameOver true s), k.
      split; [|intros fuel' _]; rewrite update_live, U by exact L; reflexivity.
    + exists 0%nat, c, k.
      split; [|intros fuel' _]; rewrite update_live, U by exact L; reflexivity.
    + exfalso. destruct Inv as [_ Hnone].
      destruct (map_throw_defined (GameA.patrol M) indexInBounds
                  (patrol_defined M) (guards s) (reachable_guardsInBounds M s Hr))
        as (l & Hl).
      congruence.
  - exists 0%nat, s, k.
    split; [|intros fuel' _]; apply update_frozen; exact L.
Qed.

Lemma frame_returns_witness :
  (forall fuel,
     GameA.update rationalMath fuel 70 GameA.noMovement floorOne zeroDraws 18%nat
     <> Thrown) /\
  exists fuel s' k',
    GameA.update rationalMath fuel 70 GameA.noMovement floorOne zeroDraws 18%nat
    = Ok (s', k') /\
    forall fuel', (fuel <= fuel')%nat ->
      GameA.update rationalMath fuel' 70 GameA.noMovement floorOne zeroDraws 18%nat
      = Ok (s', k').
Proof.
  apply (frame_returns rationalMath 70 GameA.noMovement floorOne zeroDraws 18%nat).
  - apply floorOne_reachable.
  - apply zeroDraws_valid_floorOne.
Defined.

(** X10.  Pausing freezes the game and is undone by the same key: while
    [isPaused] holds any sequence of frames, whatever the elapsed time and
    the keys held, returns the state unchanged and reads no draw, and
    toggling the pause twice gives back the very state it started from. *)
Theorem pause_round_trip (M : JSMath) fuel inputs s rng k :
  isPaused s = false ->
  frames M fuel inputs (GameA.togglePause s) rng k = Ok (GameA.togglePause s, k) /\
  GameA.togglePause (GameA.togglePause s) = s.
Proof.
  intro Hp. split.
  - apply frames_frozen. unfold live, GameA.togglePause, set_isPaused.
    cbn [isPaused isGameOver showTerminal]. rewrite Hp. reflexivity.
  - destruct s. cbn in Hp. subst. reflexivity.
Qed.

Lemma pause_round_trip_witness :
  frames rationalMath 1 (walk 3 rightKey) (GameA.togglePause floorOne) zeroDraws 18%nat
  = Ok (GameA.togglePause floorOne, 18%nat) /\
  GameA.togglePause (GameA.togglePause floorOne) = floorOne.
Proof.
  apply (pause_round_trip rationalMath 1 (walk 3 rightKey) floorOne zeroDraws 18%nat).
  reflexivity.
Defined.

(** * The guards as generated *)

Lemma for_push_Forall_at {A} (P : A -> Prop) (body : nat -> Rand A) (rng : nat -> Q) :
  (forall i k a k', body i rng k = Ok (a, k') -> P a) ->
  forall n i k l k', for_push body i n rng k = Ok (l, k') -> Forall P l.
Proof.
  intros HP. induction n as [|n IH]; intros i k l k' H; cbn [for_push] in H.
  - injection H as <- _. constructor.
  - apply bind_Ok in H as (a & k1 & Ha & H).
    apply bind_Ok in H as (rest & k2 & Hrest & H).
    injection H as <- _. constructor; [eapply HP, Ha|eapply IH, Hrest].
Qed.

Lemma for_push_Forall_rng {A} (P : A -> Prop) (body : nat -> Rand A)
    (rng : nat -> Q) (c : nat) :
  (forall i k a k', body i rng k = Ok (a, k') -> P a /\ k' = (k + c)%nat) ->
  forall n i k l k',
    for_push body i n rng k = Ok (l, k') ->
    Forall P l /\ k' = (k + c * n)%nat.
Proof.
  intros HP. induction n as [|n IH]; intros i k l k' H; cbn [for_push] in H.
  - injection H as <- <-. split; [constructor|lia].
  - apply bind_Ok in H as (a & k1 & Ha & H).
    apply bind_Ok in H as (rest & k2 & Hrest & H).
    injection H as <- <-.
    destruct (HP _ _ _ _ Ha) as [Pa ->].
    destruct (IH _ _ _ _ Hrest) as [Pr ->].
    split; [constructor; assumption|lia].
Qed.

(** X11.  [generateGuards] (with its cap of 4 guards in the first
    revision and 5 in the second) reads exactly three draws per guard and
    returns [min(1 + floor(floor / 2), cap)] guards; for draws in [0, 1)
    every guard starts in [200, 500) x [100, 300), at the first waypoint of
    a horizontal two-point path of width in [100, 200), with path index 0
    and speed [1.5 + 0.2 * floor].  The walls are not consulted. *)
Theorem generateGuards_layout cap floor walls rng k gs k' :
  unitDraws rng ->
  generateGuards_with cap floor walls rng k = Ok (gs, k') ->
  List.length gs = Z.to_nat (Z.min (1 + floor / 2) cap) /\
  k' = (k + 3 * List.length gs)%nat /\
  Forall (guardPlaced floor) gs.
Proof.
  intros Hu H.
  pose proof (for_push_length _ _ _ _ _ _ _ H) as Hl.
  unfold generateGuards_with in H.
  eapply (for_push_Forall_rng (guardPlaced floor) _ rng 3) in H.
  - destruct H as [HF ->]. rewrite Hl. split; [reflexivity|]. split; [reflexivity|exact HF].
  - intros i k0 a k0' Ha. cbv beta in Ha.
    unfold bind, Math_random, ret in Ha. injection Ha as <- <-.
    split; [|lia].
    destruct (Hu k0) as [A0 A1], (Hu (S k0)) as [B0 B1], (Hu (S (S k0))) as [C0 C1].
    unfold guardPlaced; cbn [Guard.pos Guard.path Guard.currentPathIndex Guard.speed
                              Point.x Point.y].
    change (inject_Z 300) with 300. change (inject_Z 200) with 200.
    split; [lra|]. split; [lra|]. split; [lra|]. split; [lra|].
    split; [reflexivity|]. split; [reflexivity|].
    exists (100 + rng (S (S k0)) * 100).
    split; [lra|]. split; [lra|reflexivity].
Qed.

Lemma generateGuards_layout_witness :
  exists gs k',
    GameA.generateGuards 6 [] guardDraws 14%nat = Ok (gs, k') /\
    List.length gs = Z.to_nat (Z.min (1 + 6 / 2) 4) /\
    k' = (14 + 3 * List.length gs)%nat /\
    Forall (guardPlaced 6) gs.
Proof.
  eexists. eexists. split; [vm_compute; reflexivity|].
  apply (generateGuards_layout 4 6 [] guardDraws 14%nat);
    [apply guardDraws_unit|vm_compute; reflexivity].
Defined.

(** * The first frame of a floor *)

(** Every generated guard stands on its current waypoint, at x >= 200. *)
Lemma generateGuards_start cap floor walls rng k gs k' :
  unitDraws rng ->
  generateGuards_with cap floor walls rng k = Ok (gs, k') ->
  Forall (fun g => 200 <= Point.x (Guard.pos g) /\
                   nth_error (Guard.path g) (Guard.currentPathIndex g)
                   = Some (Guard.pos g)) gs.
Proof.
  intros Hu H. unfold generateGuards_with in H.
  eapply for_push_Forall_at; [|exact H].
  intros i k0 a k0' Ha. cbv beta in Ha.
  unfold bind, Math_random, ret in Ha. injection Ha as <- _.
  destruct (Hu k0) as [A0 A1].
  cbn [Guard.pos Guard.path Guard.currentPathIndex Point.x nth_error].
  change (inject_Z 300) with 300.
  split; [lra|reflexivity].
Qed.

Lemma patrol_at_waypoint (M : JSMath) (g : Guard.t) :
  (forall q, q == 0 -> Math_sqrt M q < 5) ->
  nth_error (Guard.path g) (Guard.currentPathIndex g) = Some (Guard.pos g) ->
  exists g', GameA.patrol M g = Some g' /\ Guard.pos g' = Guard.pos g.
Proof.
  intros HM Hn. unfold GameA.patrol. rewrite Hn. cbv zeta.
  assert (D : Qltb (Math_sqrt M
                 ((Point.x (Guard.pos g) - Point.x (Guard.pos g))
                  * (Point.x (Guard.pos g) - Point.x (Guard.pos g))
                  + (Point.y (Guard.pos g) - Point.y (Guard.pos g))
                    * (Point.y (Guard.pos g) - Point.y (Guard.pos g)))) 5 = true).
  { apply Qltb_lt, HM. ring. }
  rewrite D. eexists. split; reflexivity.
Qed.

Lemma patrol_all_at_waypoint (M : JSMath) (P : Guard.t -> Prop) :
  (forall q, q == 0 -> Math_sqrt M q < 5) ->
  forall gs,
    Forall (fun g => nth_error (Guard.path g) (Guard.currentPathIndex g)
                     = Some (Guard.pos g)) gs ->
    exists gs', map_throw (GameA.patrol M) gs = Some gs' /\
                map Guard.pos gs' = map Guard.pos gs.
Proof.
  intros HM gs H. induction H as [|g gs Hg _ (gs' & E & Hp)]; cbn [map_throw].
  - exists []. split; reflexivity.
  - destruct (patrol_at_waypoint M g HM Hg) as (g' & -> & Hpos).
    rewrite E. exists (g' :: gs'). split; [reflexivity|].
    cbn [map]. now rewrite Hpos, Hp.
Qed.

Lemma far_guard_misses (p : Point.t) (g : Guard.t) :
  Point.x p <= 55 -> 200 <= Point.x (Guard.pos g) -> GameA.caughtBy p g = false.
Proof.
  intros Hp Hg. destruct (GameA.caughtBy p g) eqn:E; [|reflexivity].
  apply caughtBy_iff in E as [Hx _].
  apply Qabs_Qlt_condition in Hx. destruct Hx. exfalso; lra.
Qed.

Lemma existsb_map_pos (p : Point.t) (gs gs' : list Guard.t) :
  map Guard.pos gs' = map Guard.pos gs ->
  existsb (GameA.caughtBy p) gs' = existsb (GameA.caughtBy p) gs.
Proof.
  revert gs'. induction gs as [|g gs IH]; intros [|g' gs'] H; try discriminate.
  - reflexivity.
  - cbn [map] in H. injection H as Hg Hr. cbn [existsb].
    rewrite (IH gs' Hr). unfold GameA.caughtBy. now rewrite Hg.
Qed.

(** X12.  The spawn point is out of the guards' reach.  On a floor that
    [initFloor] has just built from draws in [0, 1), the first frame never
    ends in a capture, whatever the floor, the keys held and the elapsed
    time: every guard stands on its first waypoint at x >= 200 and does
    not move in that frame (provided [Math.sqrt] of zero is below 5), and
    the centre of the player is at x <= 70. *)
Theorem first_frame_is_safe (M : JSMath) fuel floor prevScore rng k s k1
    fuel' dt movement rng' k2 s' k3 :
  (forall q, q == 0 -> Math_sqrt M q < 5) ->
  unitDraws rng ->
  GameA.initFloor fuel floor prevScore rng k = Ok (s, k1) ->
  GameA.update M fuel' dt movement s rng' k2 = Ok (s', k3) ->
  isGameOver s' = false /\
  GameA.updater M dt movement s <> GameA.Caught.
Proof.
  intros HM Hu Hi H.
  apply initFloor_built in Hi as (m & g & pw & ka & kb & _ & Hg & _ & ->).
  set (s := mkGameState (Point.mk 50 50) floor prevScore m (GameA.generateWalls floor)
              g pw false (Point.mk 550 350) false false false "" 60) in *.
  apply (generateGuards_start 4 floor _ rng ka g kb Hu) in Hg.
  assert (NC : GameA.updater M dt movement s <> GameA.Caught).
  { pose proof (updater_inv M dt movement s) as Inv. cbv zeta in Inv.
    destruct (GameA.updater M dt movement s) as [pen| |c|]; try discriminate.
    destruct Inv as (_ & newGuards & Hmap & Hc). exfalso.
    destruct (patrol_all_at_waypoint M (fun _ => True) HM g) as (gs' & E & Hpos).
    { eapply Forall_impl; [|exact Hg]. intros a [_ Ha]. exact Ha. }
    unfold s in Hmap at 1; cbn [guards] in Hmap. rewrite E in Hmap. injection Hmap as <-.
    rewrite (existsb_map_pos _ g gs' Hpos) in Hc.
    apply existsb_exists in Hc as (a & Ha & Hc).
    rewrite Forall_forall in Hg. destruct (Hg a Ha) as (Hx & _).
    rewrite far_guard_misses in Hc; [discriminate| |exact Hx].
    pose proof (movePlayer_step (walls s) (playerPos s) movement) as St.
    destruct St as [Sx _].
    { unfold inInterior, s; cbn [playerPos Point.x Point.y]; repeat split; lra. }
    apply Qabs_Qle_condition in Sx. destruct Sx as [_ Sx].
    unfold s in Sx at 3. cbn [playerPos Point.x] in Sx. lra. }
  split; [|exact NC].
  assert (L : live s = true) by reflexivity.
  rewrite update_live in H by exact L.
  pose proof (updater_inv M dt movement s) as Inv. cbv zeta in Inv.
  destruct (GameA.updater M dt movement s) as [pen| |c|].
  - apply initFloor_built in H as (? & ? & ? & ? & ? & _ & _ & _ & ->). reflexivity.
  - congruence.
  - injection H as <- _.
    destruct Inv as (_ & ? & _ & _ & _ & _ & _ & _ & _ & _ & _ & _ & _ & _ & Ho & _).
    rewrite Ho. reflexivity.
  - discriminate.
Qed.

Lemma rationalMath_sqrt_zero (q : Q) : q == 0 -> Math_sqrt rationalMath q < 5.
Proof.
  intro H. cbn [Math_sqrt rationalMath]. unfold Qsqrt.
  assert (E : Qnum q = 0%Z).
  { unfold Qeq in H. cbn in H. lia. }
  rewrite E. change (Z.sqrt 0) with 0%Z. unfold Qdiv. rewrite Qmult_0_l. reflexivity.
Qed.

Lemma first_frame_is_safe_witness :
  isGameOver firstLoot = false /\
  GameA.updater rationalMath (1 # 50) upLeftKeys floorOne <> GameA.Caught.
Proof.
  apply (first_frame_is_safe rationalMath 1 1 0 zeroDraws 0%nat floorOne 18%nat
           1 (1 # 50) upLeftKeys zeroDraws 18%nat firstLoot 18%nat).
  - exact rationalMath_sqrt_zero.
  - exact zeroDraws_unit.
  - exact floorOne_built.
  - rewrite update_live by reflexivity. rewrite firstLoot_step. reflexivity.
Defined.

(** * Floor 7 of the first revision *)

Lemma floorSeven_run :
  GameA.initFloor 1 7 1200 cornerDraws 0%nat = Ok (floorSeven, 51%nat).
Proof. vm_compute. reflexivity. Qed.

Lemma floorSevenLater_run :
  frames rationalMath 1 (walk 2 rightKey ++ walk 2 upLeftKeys) floorSeven
    cornerDraws 51%nat = Ok (floorSevenLater, 51%nat).
Proof. vm_compute. reflexivity. Qed.

Lemma spawn_blocked_on_floor_7 (movement : GameA.Movement) :
  GameA.movePlayer (GameA.generateWalls 7) (Point.mk 50 50)
    (GameA.intentDx movement) (GameA.intentDy movement) = Point.mk 50 50.
Proof.
  destruct (intentDx_cases movement) as [-> |[-> |[-> | ->]]];
  destruct (intentDy_cases movement) as [-> |[-> |[-> | ->]]];
  vm_compute; reflexivity.
Qed.

Lemma initFloor_7_stranded fuel prevScore rng k s k' :
  GameA.initFloor fuel 7 prevScore rng k = Ok (s, k') -> strandedAtSpawn s.
Proof.
  intro H. apply initFloor_built in H as (? & ? & ? & ? & ? & _ & _ & _ & ->).
  repeat split.
Qed.

Lemma update_stranded (M : JSMath) fuel dt movement s rng k s' k' :
  strandedAtSpawn s ->
  GameA.update M fuel dt movement s rng k = Ok (s', k') -> strandedAtSpawn s'.
Proof.
  intros St H. destruct (live s) eqn:L.
  - destruct St as (Sf & Sw & Sp & Sd & Sterm).
    destruct (update_cases M fuel dt movement s rng k s' k' L H)
      as [[_ Hi]|[(_ & -> & _)|(_ & Hc & _)]].
    + rewrite Sf in Hi. eapply initFloor_7_stranded, Hi.
    + unfold strandedAtSpawn. cbn. auto.
    + pose proof (updater_terminal M dt movement s s' Hc) as [Ht _].
      pose proof (updater_inv M dt movement s) as Inv. cbv zeta in Inv.
      rewrite Hc in Inv.
      destruct Inv as (_ & ? & _ & _ & Hpos & _ & _ & _ & _ & Hfl & Hw & _ & Hdoor & _).
      rewrite Sw, Sp, spawn_blocked_on_floor_7 in Hpos.
      unfold strandedAtSpawn.
      rewrite Hfl, Hw, Hpos, Hdoor, Ht, Hpos, Sd, Sterm.
      repeat split; assumption.
  - rewrite update_frozen in H by exact L. injection H as <- _. exact St.
Qed.

(** X13.  Floor 7 of the first revision cannot be completed.  Its
    obstacle at (65, 65) covers part of the spawn footprint, so every move
    out of (50, 50) is reverted by the wall tests: after any sequence of
    frames, with any keys held, the player is still at the spawn point of
    floor 7 and the terminal has not opened; a timeout rebuilds the same
    walls. *)
Theorem floor_seven_is_a_dead_end (M : JSMath) fuel prevScore rng k s k1
    fuel' inputs rng' s' : forall k2 k3,
  GameA.initFloor fuel 7 prevScore rng k = Ok (s, k1) ->
  frames M fuel' inputs s rng' k2 = Ok (s', k3) ->
  currentFloor s' = 7%Z /\ playerPos s' = Point.mk 50 50 /\
  showTerminal s' = false.
Proof.
  intros k2 k3 Hi H.
  assert (St : strandedAtSpawn s') ; [|destruct St as (? & ? & ? & ? & ?); auto].
  apply initFloor_7_stranded in Hi. clear - Hi H.
  revert s k2 Hi H. induction inputs as [|[dt mv] inputs IH]; intros s k2 Hi H.
  - injection H as <- _. exact Hi.
  - cbn [frames] in H. apply bind_Ok in H as (s1 & k1 & Hu & H).
    eapply IH; [|exact H]. eapply update_stranded; eassumption.
Qed.

Lemma floor_seven_is_a_dead_end_witness :
  currentFloor floorSevenLater = 7%Z /\
  playerPos floorSevenLater = Point.mk 50 50 /\
  showTerminal floorSevenLater = false.
Proof.
  apply (floor_seven_is_a_dead_end rationalMath 1 1200 cornerDraws 0%nat floorSeven
           51%nat 1 (walk 2 rightKey ++ walk 2 upLeftKeys) cornerDraws
           floorSevenLater 51%nat 51%nat).
  - vm_compute; reflexivity.
  - vm_compute; reflexivity.
Defined.

(** * The terminal of the first revision *)

Lemma movePlayer_idle walls p dx dy :
  inInterior 30 p -> dx == 0 -> dy == 0 ->
  Point_eqv (GameA.movePlayer walls p dx dy) p.
Proof.
  intros (Hx0 & Hx1 & Hy0 & Hy1) Hdx Hdy.
  destruct (resolve_cases walls p dx dy) as [Rx Ry].
  assert (Ex : Point.x (GameA.resolve walls p dx dy) == Point.x p)
    by (destruct Rx as [-> | ->]; [reflexivity|rewrite Hdx; ring]).
  assert (Ey : Point.y (GameA.resolve walls p dx dy) == Point.y p)
    by (destruct Ry as [-> | ->]; [reflexivity|rewrite Hdy; ring]).
  unfold GameA.movePlayer.
  destruct (clamp_in_range (GameA.resolve walls p dx dy)) as [Cx Cy].
  - rewrite Ex. split; lra.
  - rewrite Ey. split; lra.
  - split; [rewrite Cx; exact Ex|rewrite Cy; exact Ey].
Qed.

(** X14.  Closing the terminal with its close button does not leave the
    door: in a reachable state with the terminal open, after the close
    button a frame in which the player does not move (no key held, or
    opposite keys held) and which neither times out nor ends in a capture
    opens the terminal again. *)
Theorem closed_terminal_reopens (M : JSMath) fuel dt movement s rng k s' k' :
  reachable M s -> showTerminal s = true ->
  GameA.intentDx movement == 0 -> GameA.intentDy movement == 0 ->
  0 < timeLeft s - dt ->
  GameA.update M fuel dt movement (GameA.closeTerminal s) rng k = Ok (s', k') ->
  showTerminal s' = true \/ isGameOver s' = true \/ isPaused s' = true.
Proof.
  intros Hr St Hdx Hdy T H.
  destruct (reachable_wellFormedA M s Hr) as (_ & _ & _ & _ & _ & Wp & Wt & _).
  specialize (Wt St).
  destruct (live (GameA.closeTerminal s)) eqn:L.
  - destruct (update_cases M fuel dt movement _ rng k s' k' L H)
      as [[T' _]|[(_ & -> & _)|(_ & Hc & _)]].
    + cbn [GameA.closeTerminal set_showTerminal timeLeft] in T'. exfalso; lra.
    + right; left. reflexivity.
    + left.
      destruct (updater_terminal M dt movement _ s' Hc) as [-> _].
      rewrite (updater_committed_pos M dt movement _ s' Hc).
      cbn [GameA.closeTerminal set_showTerminal doorPos walls playerPos showTerminal].
      destruct (movePlayer_idle (walls s) (playerPos s) _ _ Wp Hdx Hdy) as [Ex Ey].
      rewrite (near_compat 40 (doorPos s) _ (GameA.centerX (playerPos s))
                 _ (GameA.centerY (playerPos s))), Wt; [reflexivity| |].
      * unfold GameA.centerX. now rewrite Ex.
      * unfold GameA.centerY. now rewrite Ey.
  - rewrite update_frozen in H by exact L. injection H as <- _.
    unfold live in L. cbn in L. apply negb_false_iff in L.
    rewrite orb_false_r in L. apply orb_true_iff in L as [L|L]; auto.
Qed.

Lemma closed_terminal_reopens_witness :
  showTerminal reopened = true \/ isGameOver reopened = true \/ isPaused reopened = true.
Proof.
  apply (closed_terminal_reopens rationalMath 1 (1 # 50) GameA.noMovement atDoor
           zeroDraws 18%nat reopened 18%nat).
  - exact atDoor_reachable.
  - vm_compute; reflexivity.
  - vm_compute; reflexivity.
  - vm_compute; reflexivity.
  - vm_compute; reflexivity.
  - vm_compute; reflexivity.
Defined.

(** X15.  The floor's own code opens the door.  In a reachable state of
    the first revision in which a floor has been generated, the password
    typed into the code input passes the digit filter of [onChange]
    unchanged, has the four characters that enable the submit button, and
    submitting it runs [nextFloor]. *)
Theorem password_accepted (M : JSMath) fuel s :
  reachable M s -> walls s <> [] ->
  stripNonDigits (password s) = password s /\
  submitEnabled (stripNonDigits (password s)) = true /\
  GameA.handlePasswordSubmit fuel (stripNonDigits (password s)) s
  = GameA.nextFloor fuel s.
Proof.
  intros Hr Hw.
  destruct (reachable_wellFormedA M s Hr) as (_ & _ & _ & _ & _ & _ & _ & Wl).
  destruct Wl as [(U & _)|(_ & _ & _ & L4 & L5)]; [contradiction|].
  rewrite L5. split; [reflexivity|]. split.
  - unfold submitEnabled. rewrite L4. reflexivity.
  - unfold GameA.handlePasswordSubmit. now rewrite String.eqb_refl.
Qed.

Lemma password_accepted_witness :
  stripNonDigits (password atDoor) = password atDoor /\
  submitEnabled (stripNonDigits (password atDoor)) = true /\
  GameA.handlePasswordSubmit 1 (stripNonDigits (password atDoor)) atDoor
  = GameA.nextFloor 1 atDoor.
Proof.
  apply (password_accepted rationalMath 1 atDoor atDoor_reachable).
  vm_compute; discriminate.
Defined.

(** * Controls of the first revision *)

Lemma setKey_same code v m : setKey code v m code = v.
Proof. unfold setKey. now rewrite String.eqb_refl. Qed.

Lemma setKey_other code v m c : c <> code -> setKey code v m c = m c.
Proof. unfold setKey. intro H. apply String.eqb_neq in H. now rewrite H. Qed.

(** X16.  The virtual pad gives a single-axis intent.  Whatever WASD keys
    were recorded as held before, after [onMove(dir)] the intent of the
    next frame is [SPEED] = 5 along the pad's direction and 0 on the other
    axis, provided no arrow key is held; after [onStop] it is (0, 0). *)
Theorem virtual_pad_intent (dir : Direction) (prev : GameA.Movement) :
  prev "ArrowUp"%string = false -> prev "ArrowDown"%string = false ->
  prev "ArrowLeft"%string = false -> prev "ArrowRight"%string = false ->
  GameA.intentDx (onMove dir prev) == padDx dir /\
  GameA.intentDy (onMove dir prev) == padDy dir /\
  GameA.intentDx onStop == 0 /\ GameA.intentDy onStop == 0.
Proof.
  intros Hu Hd Hl Hr.
  assert (K : forall c, c <> "KeyW"%string -> c <> "KeyS"%string ->
                        c <> "KeyA"%string -> c <> "KeyD"%string ->
                        onMove dir prev c = prev c).
  { intros c H1 H2 H3 H4. unfold onMove.
    rewrite !setKey_other by assumption. reflexivity. }
  unfold GameA.intentDx, GameA.intentDy.
  rewrite (K "ArrowUp"%string), (K "ArrowDown"%string), (K "ArrowLeft"%string),
    (K "ArrowRight"%string) by discriminate.
  rewrite Hu, Hd, Hl, Hr.
  split; [|split; [|split; reflexivity]]; destruct dir; reflexivity.
Qed.

Lemma virtual_pad_intent_witness :
  GameA.intentDx (onMove UP rightKey) == padDx UP /\
  GameA.intentDy (onMove UP rightKey) == padDy UP /\
  GameA.intentDx onStop == 0 /\ GameA.intentDy onStop == 0.
Proof.
  apply (virtual_pad_intent UP rightKey); reflexivity.
Defined.

(** X17.  A key press keeps the game among the reachable states of the
    first revision: [handleKeyDown] records the key as held and changes
    the game state only for [KeyP], which toggles the pause, and [KeyR],
    which restarts at floor 1 with score 0 from any state, also a paused or
    lost one. *)
Theorem handleKeyDown_reachable (M : JSMath) fuel code movement s rng k movement' s' k' :
  reachable M s -> unitDraws rng ->
  handleKeyDown fuel code (movement, s) rng k = Ok ((movement', s'), k') ->
  reachable M s' /\
  movement' code = true /\
  (code <> "KeyP"%string -> code <> "KeyR"%string -> s' = s /\ k' = k) /\
  (code = "KeyP"%string -> s' = GameA.togglePause s /\ k' = k) /\
  (code = "KeyR"%string ->
   currentFloor s' = 1%Z /\ score s' = 0%Z /\ live s' = true /\ timeLeft s' = 60).
Proof.
  intros Hr Hu H. unfold handleKeyDown in H. cbn [fst snd] in H.
  destruct (String.eqb_spec code "KeyR") as [ER|ER].
  - apply bind_Ok in H as (s1 & k1 & Hreset & H). injection H as <- <- <-.
    split; [eapply reach_reset; eassumption|].
    split; [unfold GameA.press; now rewrite String.eqb_refl|].
    split; [intros _ C; contradiction|].
    split; [intros ->; discriminate|].
    intros _. apply resetGame_built in Hreset as (A & B & _ & C & D). auto.
  - injection H as <- <- <-.
    split; [destruct (String.eqb code "KeyP"); [now apply reach_pause|exact Hr]|].
    split; [unfold GameA.press; now rewrite String.eqb_refl|].
    split; [intros HP _; apply String.eqb_neq in HP; rewrite HP; auto|].
    split; [intros ->; cbn; auto|contradiction].
Qed.

Lemma handleKeyDown_reachable_witness :
  reachable rationalMath (GameA.togglePause floorOne) /\
  GameA.press "KeyP" rightKey "KeyP"%string = true /\
  ("KeyP"%string <> "KeyP"%string -> "KeyP"%string <> "KeyR"%string ->
   GameA.togglePause floorOne = floorOne /\ 18%nat = 18%nat) /\
  ("KeyP"%string = "KeyP"%string ->
   GameA.togglePause floorOne = GameA.togglePause floorOne /\ 18%nat = 18%nat) /\
  ("KeyP"%string = "KeyR"%string ->
   currentFloor (GameA.togglePause floorOne) = 1%Z /\
   score (GameA.togglePause floorOne) = 0%Z /\
   live (GameA.togglePause floorOne) = true /\
   timeLeft (GameA.togglePause floorOne) = 60).
Proof.
  apply (handleKeyDown_reachable rationalMath 1 "KeyP" rightKey floorOne zeroDraws
           18%nat (GameA.press "KeyP" rightKey) (GameA.togglePause floorOne) 18%nat).
  - apply floorOne_reachable.
  - exact zeroDraws_unit.
  - reflexivity.
Defined.

(** * Invariants of the second revision *)

Lemma collidesB_hits walls a b : collidesB walls a b = hits 20 walls a b.
Proof. reflexivity. Qed.

Lemma hits_false_In size walls nx ny w :
  hits size walls nx ny = false -> In w walls ->
  ~ (Wall.x w < nx + size /\ nx < Wall.x w + Wall.w w /\
     Wall.y w < ny + size /\ ny < Wall.y w + Wall.h w).
Proof.
  unfold hits. intros H Hin (H1 & H2 & H3 & H4).
  apply Qltb_lt in H1, H2, H3, H4.
  assert (E : existsb (fun w => Qltb (Wall.x w) (nx + size) && Qltb nx (Wall.x w + Wall.w w) &&
                    Qltb (Wall.y w) (ny + size) && Qltb ny (Wall.y w + Wall.h w)) walls = true).
  { apply existsb_exists. exists w. split; [exact Hin|]. now rewrite H1, H2, H3, H4. }
  congruence.
Qed.

Lemma clear_of_boundaries_revB walls nx ny :
  incl boundaries walls ->
  hits 20 walls nx ny = false ->
  6 <= nx <= 574 -> 6 <= ny <= 374 ->
  10 <= nx <= 570 /\ 10 <= ny <= 370.
Proof.
  intros Hb Hc Hx Hy.
  assert (Hw : forall w, In w boundaries ->
     ~ (Wall.x w < nx + 20 /\ nx < Wall.x w + Wall.w w /\
        Wall.y w < ny + 20 /\ ny < Wall.y w + Wall.h w)).
  { intros w Hin. eapply hits_false_In; [exact Hc|]. now apply Hb. }
  pose proof (Hw _ (or_introl eq_refl)) as Top.
  pose proof (Hw _ (or_intror (or_introl eq_refl))) as Bottom.
  pose proof (Hw _ (or_intror (or_intror (or_introl eq_refl)))) as Left.
  pose proof (Hw _ (or_intror (or_intror (or_intror (or_introl eq_refl))))) as Right.
  cbn [Wall.x Wall.y Wall.w Wall.h] in Top, Bottom, Left, Right.
  change (inject_Z CANVAS_WIDTH) with 600 in *.
  change (inject_Z CANVAS_HEIGHT) with 400 in *.
  change (inject_Z (CANVAS_WIDTH - 10)) with 590 in *.
  change (inject_Z (CANVAS_HEIGHT - 10)) with 390 in *.
  repeat split.
  - apply Qnot_lt_le. intro. apply Left. lra.
  - apply Qnot_lt_le. intro. apply Right. lra.
  - apply Qnot_lt_le. intro. apply Top. lra.
  - apply Qnot_lt_le. intro. apply Bottom. lra.
Qed.

Lemma clamp_revB_in_range (v hi : Q) :
  10 <= v -> v <= hi -> Math_max 10 (Math_min hi v) == v.
Proof.
  intros H1 H2.
  destruct (Math_min_spec hi v) as [[? ->]|[? ->]];
  match goal with
  | |- Math_max ?a ?b == _ => destruct (Math_max_spec a b) as [[? ->]|[? ->]]
  end; lra.
Qed.

(** The single wall test is sound from a clear position. *)
Lemma movePlayer_revB_keeps_clear walls p (d : Direction) :
  incl boundaries walls ->
  collidesB walls (Point.x p) (Point.y p) = false ->
  inInterior 20 p ->
  let p' := GameB.movePlayer walls p d in
  collidesB walls (Point.x p') (Point.y p') = false /\ inInterior 20 p'.
Proof.
  intros Hb Hc Hp p'. split; [|now apply movePlayer_revB_interior].
  destruct Hp as (Hx1 & Hx2 & Hy1 & Hy2).
  unfold p', GameB.movePlayer. cbv zeta.
  change (existsb (GameB.overlaps ?a ?b) walls) with (collidesB walls a b).
  match goal with
  | |- context [negb (collidesB walls ?a ?b)] =>
      set (nx := a); set (ny := b); destruct (collidesB walls nx ny) eqn:E
  end; cbn [negb Point.x Point.y]; [exact Hc|].
  assert (Rx : 6 <= nx <= 574)
    by (unfold nx; destruct d; cbn [Direction_eqb]; change GameB.SPEED with 4; lra).
  assert (Ry : 6 <= ny <= 374)
    by (unfold ny; destruct d; cbn [Direction_eqb]; change GameB.SPEED with 4; lra).
  rewrite collidesB_hits in E.
  destruct (clear_of_boundaries_revB walls nx ny Hb E Rx Ry) as [Ix Iy].
  rewrite collidesB_hits.
  rewrite (hits_compat 20 walls _ nx _ ny); [exact E| |].
  - apply clamp_revB_in_range; [lra|].
    change (inject_Z CANVAS_WIDTH - GameB.PLAYER_SIZE - 10) with (600 - 20 - 10). lra.
  - apply clamp_revB_in_range; [lra|].
    change (inject_Z CANVAS_HEIGHT - GameB.PLAYER_SIZE - 10) with (400 - 20 - 10). lra.
Qed.

Lemma generateWalls_revB_boundaries floor : incl boundaries (GameB.generateWalls floor).
Proof.
  unfold GameB.generateWalls, generateWalls_with. apply incl_appl, incl_refl.
Qed.

(** No obstacle lies left of x = 50 or above y = 50. *)
Lemma obstacle_origin off floor i :
  (0 <= floor)%Z -> (0 <= i)%Z ->
  50 <= Wall.x (obstacle off floor i) /\ 50 <= Wall.y (obstacle off floor i).
Proof.
  intros Hf Hi. unfold obstacle. cbn [Wall.x Wall.y].
  change 50 with (inject_Z 50). rewrite <- !Zle_Qle.
  assert (0 <= Z.rem (floor * 12345 + i * 150) (CANVAS_WIDTH - 150))%Z
    by (apply Z.rem_nonneg; [discriminate|lia]).
  assert (0 <= Z.rem (floor * 12345 + i * 100) (CANVAS_HEIGHT - 150))%Z
    by (apply Z.rem_nonneg; [discriminate|lia]).
  lia.
Qed.

(** The spawn point of the second revision is clear of the walls of every
    floor. *)
Lemma spawn_clear_revB floor :
  (0 <= floor)%Z -> collidesB (GameB.generateWalls floor) 30 30 = false.
Proof.
  intro Hf. unfold collidesB, GameB.generateWalls, generateWalls_with.
  rewrite existsb_app. apply orb_false_iff. split; [vm_compute; reflexivity|].
  destruct (existsb _ _) eqn:E; [|reflexivity].
  apply existsb_exists in E as (w & Hin & Ho).
  apply in_map_iff in Hin as (i & <- & _).
  destruct (obstacle_origin 40 floor (Z.of_nat i) Hf ltac:(lia)) as [Hx _].
  unfold GameB.overlaps in Ho.
  apply andb_prop in Ho as [Ho _]. apply andb_prop in Ho as [Ho _].
  apply andb_prop in Ho as [Ho _]. unfold Qgtb in Ho. apply Qltb_lt in Ho.
  change GameB.PLAYER_SIZE with 20 in Ho. exfalso; lra.
Qed.

Lemma patrol_revB_inBounds (M : JSMath) (g g' : Guard.t) :
  GameB.patrol M g = Some g' -> indexInBounds g'.
Proof.
  unfold GameB.patrol, indexInBounds. intro H.
  destruct (nth_error (Guard.path g) (Guard.currentPathIndex g)) as [target|] eqn:T;
    [|discriminate].
  assert (Hlt : (Guard.currentPathIndex g < List.length (Guard.path g))%nat)
    by (apply nth_error_Some; congruence).
  cbv zeta in H.
  match type of H with
  | (if ?c then _ else _) = _ => destruct c
  end; injection H as <-; cbn [Guard.currentPathIndex Guard.path].
  - split; [lia|]. apply Nat.mod_upper_bound. lia.
  - lia.
Qed.

Lemma patrol_revB_defined (M : JSMath) (g : Guard.t) :
  indexInBounds g -> exists g', GameB.patrol M g = Some g'.
Proof.
  unfold indexInBounds, GameB.patrol. intros [_ Hlt].
  destruct (nth_error (Guard.path g) (Guard.currentPathIndex g)) as [target|] eqn:T.
  - cbv zeta. match goal with |- context [if ?c then _ else _] => destruct c end; eauto.
  - apply nth_error_None in T. lia.
Qed.

Lemma collectMoney_revB_inv newX newY ms : forall sc,
  fst (GameB.collectMoney newX newY ms sc)
  = map (fun m => if GameB.collectible newX newY m then Money.collect m else m) ms /\
  (Forall (fun m => (0 <= Money.value m)%Z) ms ->
   (sc <= snd (GameB.collectMoney newX newY ms sc))%Z).
Proof.
  induction ms as [|m ms IH]; intro sc; cbn [GameB.collectMoney map].
  - split; [reflexivity|]. intros _. cbn. lia.
  - destruct (GameB.collectible newX newY m).
    + destruct (IH (sc + Money.value m)%Z) as [I1 I2].
      destruct (GameB.collectMoney newX newY ms (sc + Money.value m)%Z) as [r sc'].
      cbn [fst snd] in *. split; [now rewrite I1|].
      intro F. inversion F; subst. specialize (I2 ltac:(assumption)). lia.
    + destruct (IH sc) as [I1 I2].
      destruct (GameB.collectMoney newX newY ms sc) as [r sc'].
      cbn [fst snd] in *. split; [now rewrite I1|].
      intro F. inversion F; subst. now apply I2.
Qed.

(** The four ways in which the updater of the game loop returns. *)
Lemma loopUpdater_cases (M : JSMath) fuel moveDir prev rng k s' k' :
  GameB.loopUpdater M fuel moveDir prev rng k = Ok (s', k') ->
  let newPos := GameB.movePlayer (walls prev) (playerPos prev) moveDir in
  let moved := set_playerPos (Point.mk (Point.x newPos) (Point.y newPos)) prev in
  exists newGuards,
    map_throw (GameB.patrol M) (guards prev) = Some newGuards /\
    ((s' = set_isGameOver true prev /\ k' = k) \/
     (foundPassword prev = false /\ Qltb (distToDoor M moved) 30 = true /\
      s' = set_showTerminal true moved /\ k' = k) \/
     (foundPassword prev = true /\ GameB.nextFloor fuel prev rng k = Ok (s', k')) \/
     (Qltb (distToDoor M moved) 30 && negb (foundPassword prev) = false /\
      s' = mkGameState (Point.mk (Point.x newPos) (Point.y newPos))
             (currentFloor prev)
             (snd (GameB.collectMoney (Point.x newPos) (Point.y newPos)
                     (money prev) (score prev)))
             (fst (GameB.collectMoney (Point.x newPos) (Point.y newPos)
                     (money prev) (score prev)))
             (walls prev) newGuards (password prev) (foundPassword prev)
             (doorPos prev) (isPaused prev) (isGameOver prev) (showTerminal prev)
             (lastPasswordFound prev)
             (Math_max 0 (Qred (timeLeft prev - 1 / 60))) /\ k' = k)).
Proof.
  unfold GameB.loopUpdater. cbv zeta. intro H.
  destruct (GameB.collectMoney _ _ (money prev) (score prev)) as [newMoney newScore].
  destruct (map_throw (GameB.patrol M) (guards prev)) as [newGuards|]; [|discriminate].
  exists newGuards. split; [reflexivity|].
  destruct (existsb _ newGuards).
  - injection H as <- <-. left. auto.
  - destruct (foundPassword prev) eqn:F.
    + rewrite andb_false_r in H. cbn [andb] in H.
      match type of H with
      | (if ?c then _ else _) _ _ = _ => destruct c
      end.
      * right. right. left. split; [reflexivity|exact H].
      * injection H as <- <-. right. right. right.
        split; [apply andb_false_r|]. auto.
    + cbn [negb] in H. rewrite andb_true_r in H. cbn [andb] in H.
      match type of H with
      | (if ?c then _ else _) _ _ = _ => destruct c eqn:D
      end.
      * injection H as <- <-. right. left.
        split; [reflexivity|]. split; [exact D|]. split; reflexivity.
      * injection H as <- <-. right. right. right.
        split; [rewrite andb_true_r; exact D|]. auto.
Qed.

Lemma level_revB_wellFormed (M : JSMath) fuel floor sc paused over term last rng k s' k' :
  unitDraws rng -> (1 <= floor)%Z -> (0 <= sc)%Z -> term = false ->
  (money <- GameB.generateMoney fuel floor (GameB.generateWalls floor) ;;
   guards <- GameB.generateGuards floor (GameB.generateWalls floor) ;;
   password <- generatePassword ;;
   ret (mkGameState (Point.mk 30 30) floor sc money (GameB.generateWalls floor)
          guards password false GameB.door paused over term last
          INITIAL_TIME_PER_FLOOR)) rng k = Ok (s', k') ->
  wellFormedB M s'.
Proof.
  intros Hu Hf Hs -> H.
  apply bind_Ok in H as (m & k1 & Hm & H).
  apply bind_Ok in H as (g & k2 & Hg & H).
  apply bind_Ok in H as (pw & k3 & _ & H).
  injection H as <- _.
  apply generateMoney_placed in Hm as [_ Hm].
  apply generateGuards_fresh in Hg as [_ Hg].
  unfold wellFormedB.
  cbn [currentFloor score walls playerPos timeLeft guards money showTerminal
       Point.x Point.y].
  split; [exact Hf|]. split; [exact Hs|]. split; [reflexivity|].
  split; [unfold inInterior; cbn [Point.x Point.y]; repeat split; lra|].
  split; [apply spawn_clear_revB; lia|].
  split; [unfold INITIAL_TIME_PER_FLOOR; lra|].
  split; [eapply Forall_impl; [|exact Hg]; intros a; apply freshGuard_inBounds|].
  split; [eapply Forall_impl; [|exact Hm]; cbv beta; intros a (_ & Ha & _); exact Ha|].
  discriminate.
Qed.

Lemma freshGame_wellFormed (M : JSMath) fuel rng k s k' :
  unitDraws rng -> GameB.freshGame fuel rng k = Ok (s, k') -> wellFormedB M s.
Proof.
  intros Hu H.
  eapply (level_revB_wellFormed M fuel 1 0 false false false "" rng k);
    [exact Hu|lia|lia|reflexivity|exact H].
Qed.

Lemma gameLoop_wellFormed (M : JSMath) fuel hasStarted moveDir s rng k s' k' :
  unitDraws rng -> wellFormedB M s ->
  GameB.gameLoop M fuel hasStarted moveDir s rng k = Ok (s', k') -> wellFormedB M s'.
Proof.
  intros Hu W H. unfold GameB.gameLoop in H.
  destruct (GameB.running hasStarted s) eqn:R; [|injection H as <- _; exact W].
  assert (Term : showTerminal s = false).
  { unfold GameB.running in R. apply andb_prop in R as [_ R].
    apply negb_true_iff, orb_false_iff in R as [_ R]. exact R. }
  destruct W as (Wf & Ws & Ww & Wp & Wc & Wt & Wg & Wm & Wterm).
  pose proof (movePlayer_revB_keeps_clear (walls s) (playerPos s) moveDir) as Mv.
  cbv zeta in Mv.
  destruct Mv as [Mc Mi];
    [rewrite Ww; apply generateWalls_revB_boundaries|exact Wc|exact Wp|].
  destruct (loopUpdater_cases M fuel moveDir s rng k s' k' H)
    as (newGuards & Hmap & [(-> & _)|[(F & D & -> & _)|[(F & Hn)|(_ & -> & _)]]]).
  - unfold wellFormedB. cbn.
    split; [exact Wf|]. split; [exact Ws|]. split; [exact Ww|].
    split; [exact Wp|]. split; [exact Wc|]. split; [exact Wt|].
    split; [exact Wg|]. split; [exact Wm|exact Wterm].
  - unfold wellFormedB.
    cbn [set_showTerminal set_playerPos currentFloor score walls playerPos timeLeft
         guards money showTerminal foundPassword Point.x Point.y].
    split; [exact Wf|]. split; [exact Ws|]. split; [exact Ww|].
    split; [exact Mi|]. split; [exact Mc|]. split; [exact Wt|].
    split; [exact Wg|]. split; [exact Wm|].
    intros _. split; [exact F|exact D].
  - unfold GameB.nextFloor in Hn. cbv zeta in Hn.
    eapply (level_revB_wellFormed M fuel (currentFloor s + 1) (score s));
      [exact Hu|lia|exact Ws|exact Term|exact Hn].
  - unfold wellFormedB.
    cbn [currentFloor score walls playerPos timeLeft guards money showTerminal
         foundPassword Point.x Point.y].
    destruct (collectMoney_revB_inv
                (Point.x (GameB.movePlayer (walls s) (playerPos s) moveDir))
                (Point.y (GameB.movePlayer (walls s) (playerPos s) moveDir))
                (money s) (score s)) as [Cl Cs].
    split; [exact Wf|].
    split; [specialize (Cs (values_nonneg s Wf Wm)); lia|].
    split; [exact Ww|]. split; [exact Mi|]. split; [exact Mc|].
    split; [destruct (Math_max_spec 0 (Qred (timeLeft s - 1 / 60))) as [[? ->]|[? ->]];
            lra|].
    split; [eapply map_throw_Forall; [|exact Hmap]; intros a b;
            apply patrol_revB_inBounds|].
    split; [rewrite Cl; apply Forall_map; eapply Forall_impl; [|exact Wm];
            cbv beta; intros m Hm;
            destruct (GameB.collectible _ _ m); exact Hm|].
    rewrite Term. discriminate.
Qed.

Lemma reachableB_wellFormed (M : JSMath) (s : GameState) :
  reachableB M s -> wellFormedB M s.
Proof.
  induction 1 as [ fuel rng k s k' Hu H
                 | s fuel hs d rng k s' k' _ IH Hu H
                 | s hs _ IH
                 | s _ IH | s _ IH
                 | s _ IH St
                 | s code _ IH St ].
  - eapply freshGame_wellFormed; eassumption.
  - eapply gameLoop_wellFormed; eassumption.
  - unfold GameB.timerTick, GameB.timerUpdater.
    destruct (GameB.running hs s); [|exact IH].
    destruct (Qleb (timeLeft s) 0); exact IH.
  - exact IH.
  - exact IH.
  - destruct IH as (Wf & Ws & Ww & Wp & Wc & Wt & Wg & Wm & Wterm).
    unfold wellFormedB. cbn.
    split; [exact Wf|]. split; [exact Ws|]. split; [exact Ww|].
    split; [exact Wp|]. split; [exact Wc|]. split; [exact Wt|].
    split; [exact Wg|]. split; [exact Wm|discriminate].
  - destruct IH as (Wf & Ws & Ww & Wp & Wc & Wt & Wg & Wm & Wterm).
    unfold GameB.handlePasswordSubmit.
    destruct (String.eqb code (password s)); unfold wellFormedB; cbn;
    (split; [exact Wf|]; split; [exact Ws|]; split; [exact Ww|];
     split; [exact Wp|]; split; [exact Wc|]; split; [exact Wt|];
     split; [exact Wg|]; split; [exact Wm|discriminate]).
Qed.

Lemma tenthDraws_unit : unitDraws tenthDraws.
Proof. intro n. unfold tenthDraws. split; lra. Qed.

Lemma floorOneB_run : GameB.freshGame 1 tenthDraws 0%nat = Ok (floorOneB, 18%nat).
Proof. vm_compute. reflexivity. Qed.

Lemma floorOneB_reachable (M : JSMath) : reachableB M floorOneB.
Proof. eapply reachB_fresh; [apply tenthDraws_unit|apply floorOneB_run]. Qed.

Lemma ticks_reachable (M : JSMath) fuel rng dirs : forall s k s' k',
  unitDraws rng -> reachableB M s ->
  ticks M fuel dirs s rng k = Ok (s', k') -> reachableB M s'.
Proof.
  induction dirs as [|d dirs IH]; intros s k s' k' Hu Hr H; cbn [ticks] in H.
  - injection H as <- _. exact Hr.
  - apply bind_Ok in H as (s1 & k1 & Hs & H).
    eapply IH; [exact Hu| |exact H].
    eapply reachB_loop; eassumption.
Qed.

Lemma atDoorB_run :
  ticks rationalMath 1 (repeat DOWN 80 ++ repeat RIGHT 126) floorOneB tenthDraws 18%nat
  = Ok (atDoorB, 18%nat).
Proof. vm_compute. reflexivity. Qed.

Lemma atDoorB_reachable : reachableB rationalMath atDoorB.
Proof.
  eapply ticks_reachable;
    [apply tenthDraws_unit|apply floorOneB_reachable|apply atDoorB_run].
Qed.

(** X18.  In the second revision the player never stands in a wall.  In
    every state reachable from a fresh game by ticks of the game loop, the
    timer, pause and resume, abort and submit, the footprint of side 20
    overlaps no wall of the floor and its corner lies in
    [10, 570] x [10, 370]: the spawn point (30, 30) is clear of the walls
    of every floor, every move is tested, and no command moves the player
    without the test. *)
Theorem revB_player_never_in_wall (M : JSMath) (s : GameState) :
  reachableB M s ->
  walls s = GameB.generateWalls (currentFloor s) /\
  collidesB (walls s) (Point.x (playerPos s)) (Point.y (playerPos s)) = false /\
  10 <= Point.x (playerPos s) <= 570 /\ 10 <= Point.y (playerPos s) <= 370.
Proof.
  intro Hr.
  destruct (reachableB_wellFormed M s Hr) as (_ & _ & Ww & Wp & Wc & _).
  destruct Wp as (H1 & H2 & H3 & H4).
  split; [exact Ww|]. split; [exact Wc|]. split; split; lra.
Qed.

Lemma revB_player_never_in_wall_witness :
  walls atDoorB = GameB.generateWalls (currentFloor atDoorB) /\
  collidesB (walls atDoorB) (Point.x (playerPos atDoorB)) (Point.y (playerPos atDoorB))
  = false /\
  10 <= Point.x (playerPos atDoorB) <= 570 /\
  10 <= Point.y (playerPos atDoorB) <= 370.
Proof.
  exact (revB_player_never_in_wall rationalMath atDoorB atDoorB_reachable).
Defined.

(** X19.  In every reachable state of the second revision the timer is
    not negative, every guard's path index is inside its path, and the
    game loop does not throw: a tick returns a state or, when a floor is
    built, runs out of sampling rounds. *)
Theorem revB_loop_never_throws (M : JSMath) (s : GameState)
    fuel hasStarted moveDir rng k :
  reachableB M s ->
  0 <= timeLeft s /\
  Forall (fun g => (Guard.currentPathIndex g < List.length (Guard.path g))%nat)
         (guards s) /\
  GameB.gameLoop M fuel hasStarted moveDir s rng k <> Thrown.
Proof.
  intro Hr.
  destruct (reachableB_wellFormed M s Hr) as (_ & _ & _ & _ & _ & Wt & Wg & _).
  split; [exact Wt|].
  split; [eapply Forall_impl; [|exact Wg]; intros g [_ H]; exact H|].
  unfold GameB.gameLoop. destruct (GameB.running hasStarted s); [|discriminate].
  unfold GameB.loopUpdater. cbv zeta.
  destruct (GameB.collectMoney _ _ (money s) (score s)) as [newMoney newScore].
  destruct (map_throw_defined (GameB.patrol M) indexInBounds
              (patrol_revB_defined M) (guards s) Wg) as (l & ->).
  destruct (existsb _ l); [discriminate|].
  match goal with |- (if ?c then _ else _) _ _ <> _ => destruct c end;
    [discriminate|].
  match goal with |- (if ?c then _ else _) _ _ <> _ => destruct c end;
    [|discriminate].
  unfold GameB.nextFloor. cbv zeta. unfold bind.
  destruct (GameB.generateMoney fuel _ _ rng k) as [[m k1]| |] eqn:Hm.
  - destruct (generateGuards_total 5 (currentFloor s + 1)
                (GameB.generateWalls (currentFloor s + 1)) rng k1) as (gs & k2 & Hgs).
    unfold GameB.generateGuards. rewrite Hgs. discriminate.
  - discriminate.
  - exfalso. unfold GameB.generateMoney in Hm. rewrite generateMoney_with_unfold in Hm.
    clear - Hm. revert Hm. generalize 0%nat at 1. generalize k.
    induction (Z.to_nat (5 + (currentFloor s + 1) * 2)) as [|n IH]; intros k0 i Hm;
      [discriminate|].
    cbn [for_push] in Hm. unfold bind at 1 in Hm.
    destruct (bill 20 _ fuel (currentFloor s + 1) i rng k0) as [[a k1]| |] eqn:Hb.
    + unfold bind at 1 in Hm.
      destruct (for_push _ (S i) n rng k1) as [[r k2]| |] eqn:Hr;
        try discriminate. eapply IH, Hr.
    + discriminate.
    + unfold bill, bind in Hb.
      destruct (samplePos 20 _ fuel rng k0) as [[p k1]| |] eqn:Hp;
        try discriminate.
      clear - Hp. revert k0 Hp.
      induction fuel as [|fuel IHf]; intros k0 Hp; [discriminate|].
      rewrite samplePos_step in Hp.
      destruct (validPos _ _ _); [discriminate|]. eapply IHf, Hp.
Qed.

Lemma revB_loop_never_throws_witness :
  0 <= timeLeft atDoorB /\
  Forall (fun g => (Guard.currentPathIndex g < List.length (Guard.path g))%nat)
         (guards atDoorB) /\
  GameB.gameLoop rationalMath 1 true LEFT atDoorB tenthDraws 18%nat <> Thrown.
Proof.
  exact (revB_loop_never_throws rationalMath atDoorB 1 true LEFT tenthDraws 18%nat
           atDoorB_reachable).
Defined.

(** X20.  The second revision has no penalty: in a reachable state no
    tick of the game loop lowers the score, and no tick of either interval
    raises the timer unless the floor changes. *)
Theorem revB_score_monotone (M : JSMath) fuel hasStarted moveDir s rng k s' k' :
  reachableB M s ->
  GameB.gameLoop M fuel hasStarted moveDir s rng k = Ok (s', k') ->
  (score s <= score s')%Z /\
  (currentFloor s' = currentFloor s -> timeLeft s' <= timeLeft s).
Proof.
  intros Hr H.
  destruct (reachableB_wellFormed M s Hr) as (Wf & _ & _ & _ & _ & Wt & _ & Wm & _).
  unfold GameB.gameLoop in H.
  destruct (GameB.running hasStarted s);
    [|injection H as <- _; split; [lia|intros _; lra]].
  destruct (loopUpdater_cases M fuel moveDir s rng k s' k' H)
    as (newGuards & _ & [(-> & _)|[(_ & _ & -> & _)|[(_ & Hn)|(_ & -> & _)]]]).
  - cbn. split; [lia|intros _; lra].
  - cbn. split; [lia|intros _; lra].
  - apply nextFloor_revB_built in Hn as (Hf & -> & _). split; [lia|]. rewrite Hf. lia.
  - cbn [score currentFloor timeLeft].
    destruct (collectMoney_revB_inv
                (Point.x (GameB.movePlayer (walls s) (playerPos s) moveDir))
                (Point.y (GameB.movePlayer (walls s) (playerPos s) moveDir))
                (money s) (score s)) as [_ Cs].
    split; [exact (Cs (values_nonneg s Wf Wm))|]. intros _.
    assert (E : 1 / 60 == 1 # 60) by reflexivity.
    destruct (Math_max_spec 0 (Qred (timeLeft s - 1 / 60))) as [[? ->]|[? ->]];
      [rewrite Qred_correct, E|]; lra.
Qed.

Lemma revB_score_monotone_witness :
  (score floorOneB <= score afterTickB)%Z /\
  (currentFloor afterTickB = currentFloor floorOneB ->
   timeLeft afterTickB <= timeLeft floorOneB).
Proof.
  apply (revB_score_monotone rationalMath 1 true DOWN floorOneB tenthDraws 18%nat
           afterTickB 18%nat).
  - apply floorOneB_reachable.
  - vm_compute; reflexivity.
Defined.

Lemma clamp_strict (hi v : Q) : 10 <= v -> v < hi -> Math_max 10 (Math_min hi v) = v.
Proof.
  intros H1 H2. unfold Math_max, Math_min.
  assert (A : Qle_bool hi v = false) by (apply Qleb_gt; exact H2).
  rewrite A.
  assert (B : Qle_bool 10 v = true) by (apply Qle_bool_iff; exact H1).
  now rewrite B.
Qed.

Lemma movePlayer_revB_idle walls p :
  collidesB walls (Point.x p) (Point.y p) = false ->
  10 <= Point.x p -> Point.x p < 570 -> 10 <= Point.y p -> Point.y p < 370 ->
  GameB.movePlayer walls p NONE = Point.mk (Point.x p) (Point.y p).
Proof.
  intros Hc Hx0 Hx1 Hy0 Hy1. unfold GameB.movePlayer. cbv zeta.
  cbn [Direction_eqb].
  change (existsb (GameB.overlaps (Point.x p) (Point.y p)) walls)
    with (collidesB walls (Point.x p) (Point.y p)).
  rewrite Hc. cbn [negb].
  rewrite !clamp_strict; try assumption; reflexivity.
Qed.

(** X21.  Leaving the terminal of the second revision does not leave the
    door.  In a reachable state with the terminal open and the player not
    on the right or lower border, after the abort button (or a wrong code,
    which does the same) a tick of the game loop with no direction opens
    the terminal again, unless it ends in a capture or the game is paused:
    the player still stands within 30 of the door. *)
Theorem revB_abort_reopens (M : JSMath) fuel s rng k s' k' :
  reachableB M s -> showTerminal s = true ->
  Point.x (playerPos s) < 570 -> Point.y (playerPos s) < 370 ->
  GameB.gameLoop M fuel true NONE (abortTerminalB s) rng k = Ok (s', k') ->
  showTerminal s' = true \/ isGameOver s' = true \/ isPaused s' = true.
Proof.
  intros Hr St Hx Hy H.
  destruct (reachableB_wellFormed M s Hr) as (_ & _ & _ & Wp & Wc & _ & _ & _ & Wt).
  destruct (Wt St) as [F D]. destruct Wp as (Hx0 & _ & Hy0 & _).
  unfold GameB.gameLoop in H.
  destruct (GameB.running true (abortTerminalB s)) eqn:R.
  - pose proof (loopUpdater_cases M fuel NONE (abortTerminalB s) rng k s' k' H) as C.
    cbv zeta in C.
    cbn [abortTerminalB set_showTerminal walls playerPos foundPassword] in C.
    rewrite (movePlayer_revB_idle (walls s) (playerPos s) Wc Hx0 Hx Hy0 Hy) in C.
    cbn [Point.x Point.y] in C.
    destruct C as (newGuards & _ & [(-> & _)|[(_ & _ & -> & _)|[(F' & _)|(D' & _)]]]).
    + right; left. reflexivity.
    + left. reflexivity.
    + congruence.
    + change (distToDoor M _) with (distToDoor M s) in D'.
      rewrite D, F in D'. discriminate.
  - injection H as <- _. unfold GameB.running in R. cbn in R.
    rewrite orb_false_r in R. apply negb_false_iff, orb_true_iff in R as [R|R]; auto.
Qed.

Lemma revB_abort_reopens_witness :
  showTerminal reopenedB = true \/ isGameOver reopenedB = true \/
  isPaused reopenedB = true.
Proof.
  apply (revB_abort_reopens rationalMath 1 atDoorB tenthDraws 18%nat reopenedB 18%nat).
  - exact atDoorB_reachable.
  - vm_compute; reflexivity.
  - vm_compute; reflexivity.
  - vm_compute; reflexivity.
  - vm_compute; reflexivity.
Defined.

(** * The bills and the walls as generated *)

Lemma drawnAt_in_canvas rng n :
  unitDraws rng ->
  40 <= Point.x (drawnAt rng n) /\ Point.x (drawnAt rng n) < 560 /\
  40 <= Point.y (drawnAt rng n) /\ Point.y (drawnAt rng n) < 360.
Proof.
  intro Hu. destruct (Hu n) as [A0 A1], (Hu (S n)) as [B0 B1].
  unfold drawnAt. cbn [Point.x Point.y].
  change (inject_Z (CANVAS_WIDTH - 80)) with 520.
  change (inject_Z (CANVAS_HEIGHT - 80)) with 320.
  repeat split; lra.
Qed.

(** X22.  [generateMoney] (margin 15 in the first revision, 20 in the
    second) returns [5 + 2 * floor] bills; for draws in [0, 1) every bill
    lies in [40, 560) x [40, 360) and in no wall's box widened by the
    margin, is worth [100 * floor] and is not collected. *)
Theorem generateMoney_layout margin fuel floor walls rng k ms k' :
  unitDraws rng ->
  generateMoney_with margin fuel floor walls rng k = Ok (ms, k') ->
  List.length ms = Z.to_nat (5 + floor * 2) /\
  Forall (fun m =>
            40 <= Point.x (Money.pos m) /\ Point.x (Money.pos m) < 560 /\
            40 <= Point.y (Money.pos m) /\ Point.y (Money.pos m) < 360 /\
            existsb (inMargin margin (Money.pos m)) walls = false /\
            Money.value m = (100 * floor)%Z /\ Money.collected m = false) ms.
Proof.
  intros Hu H. split; [exact (proj1 (generateMoney_placed _ _ _ _ _ _ _ _ H))|].
  rewrite generateMoney_with_unfold in H.
  eapply for_push_Forall_at; [|exact H].
  intros i k0 a k0' Ha. cbv beta.
  pose proof (bill_placed _ _ _ _ _ _ _ _ _ Ha) as (Hv & Hval & Hc).
  unfold bill in Ha. apply bind_Ok in Ha as (pos & k1 & Hs & Ha).
  injection Ha as <- _. cbn [Money.pos] in *.
  apply samplePos_valid in Hs as (_ & j & -> & _).
  destruct (drawnAt_in_canvas rng (k0 + 2 * j) Hu) as (X0 & X1 & Y0 & Y1).
  split; [exact X0|]. split; [exact X1|]. split; [exact Y0|]. split; [exact Y1|].
  split; [unfold validPos in Hv; now apply negb_true_iff in Hv|].
  split; [exact Hval|exact Hc].
Qed.

Lemma generateMoney_layout_witness :
  exists ms k',
    GameB.generateMoney 1 1 (GameB.generateWalls 1) tenthDraws 0%nat = Ok (ms, k') /\
    List.length ms = Z.to_nat (5 + 1 * 2) /\
    Forall (fun m =>
              40 <= Point.x (Money.pos m) /\ Point.x (Money.pos m) < 560 /\
              40 <= Point.y (Money.pos m) /\ Point.y (Money.pos m) < 360 /\
              existsb (inMargin 20 (Money.pos m)) (GameB.generateWalls 1) = false /\
              Money.value m = (100 * 1)%Z /\ Money.collected m = false) ms.
Proof.
  eexists. eexists. split; [vm_compute; reflexivity|].
  eapply (generateMoney_layout 20 1 1 (GameB.generateWalls 1) tenthDraws 0%nat);
    [apply tenthDraws_unit|vm_compute; reflexivity].
Defined.

Lemma obstacle_extent off floor i :
  (0 <= floor)%Z -> (0 <= i)%Z ->
  Wall.x (obstacle off floor i) < 500 /\ Wall.y (obstacle off floor i) < 300.
Proof.
  intros Hf Hi. unfold obstacle. cbn [Wall.x Wall.y].
  change 500 with (inject_Z 500). change 300 with (inject_Z 300).
  rewrite <- !Zlt_Qlt.
  rewrite !rem_is_mod by (unfold CANVAS_WIDTH, CANVAS_HEIGHT; lia).
  pose proof (Z.mod_pos_bound (floor * 12345 + i * 150) (CANVAS_WIDTH - 150)
                ltac:(reflexivity)).
  pose proof (Z.mod_pos_bound (floor * 12345 + i * 100) (CANVAS_HEIGHT - 150)
                ltac:(reflexivity)).
  unfold CANVAS_WIDTH, CANVAS_HEIGHT in *. lia.
Qed.

(** X23.  There are finitely many levels.  From floor 5 on, both
    revisions of [generateWalls] return the same walls for [floor] and
    [floor + 300]; and on every floor >= 1 every wall after the four
    boundary walls has its corner in [50, 500) x [50, 300). *)
Theorem wall_layout_periodic (floor : Z) :
  (1 <= floor)%Z ->
  (5 <= floor ->
   GameA.generateWalls (floor + 300) = GameA.generateWalls floor /\
   GameB.generateWalls (floor + 300) = GameB.generateWalls floor)%Z /\
  (forall off i w,
     nth_error (generateWalls_with off floor) (4 + i) = Some w ->
     50 <= Wall.x w /\ Wall.x w < 500 /\ 50 <= Wall.y w /\ Wall.y w < 300).
Proof.
  intro Hf. split.
  - intro H5. split; apply generateWalls_period; exact H5.
  - intros off i w H. unfold generateWalls_with in H.
    rewrite nth_error_app2 in H by (cbn; lia).
    replace (4 + i - List.length boundaries)%nat with i in H by (cbn; lia).
    rewrite nth_error_map in H.
    destruct (nth_error (seq 0 _) i) as [j|]; [|discriminate].
    injection H as <-.
    destruct (obstacle_origin off floor (Z.of_nat j)) as [A B]; try lia.
    destruct (obstacle_extent off floor (Z.of_nat j)) as [C D]; try lia.
    auto.
Qed.

Lemma wall_layout_periodic_witness :
  (5 <= 7 ->
   GameA.generateWalls (7 + 300) = GameA.generateWalls 7 /\
   GameB.generateWalls (7 + 300) = GameB.generateWalls 7)%Z /\
  (forall off i w,
     nth_error (generateWalls_with off 7 ) (4 + i) = Some w ->
     50 <= Wall.x w /\ Wall.x w < 500 /\ 50 <= Wall.y w /\ Wall.y w < 300).
Proof.
  apply (wall_layout_periodic 7). lia.
Defined.
